(** * Sendy / Calendly / Shopify sync: a shallow embedding of the sync engine

  The development follows the JavaScript sources of the repository:

  - [src/utils/fileCache.js], [src/utils/cache.js]   -> [FileCache], [NodeCache]
  - [src/clients/sendyClient.js]                      -> [SendyClient]
  - [src/clients/shopifyClient.js]                    -> [ShopifyClient]
  - [src/clients/calendlyClient.js]                   -> [CalendlyClient]
  - [src/scripts/sync_calendly_to_sendy.js],
    [src/scripts/sync_shopify_to_sendy.js]            -> [Cli], [Sync]
  - [src/handlers/webhookHandler.js]                  -> [Webhook]

  JavaScript strings are modelled as [string] (sequences of code units
  below 256); JavaScript numbers that the code manipulates are integers or
  NaN and are modelled as [option Z].  Objects used as dictionaries are
  [gmap]s, the insertion-ordered [Map] of the de-duplication loops is an
  association list.  Remote services are oracles (functions from requests to
  responses), and every remote call is recorded in a trace of events. *)

From Stdlib Require Import ZArith Ascii String List Permutation Lia.
From Stdlib Require DecimalString.
From stdpp Require Import base option list gmap strings.

Local Open Scope Z_scope.

(* ===================================================================== *)
(** ** JavaScript primitives used by the sources *)
(* ===================================================================== *)

Module JS.

(** A JavaScript number restricted to what the code computes with:
    an integer, or [None] for NaN. *)
Definition num := option Z.

Definition NaN : num := None.

Definition num_add (a b : num) : num :=
  match a, b with
  | Some x, Some y => Some (x + y)
  | _, _ => None
  end.

(** [a < b]: false as soon as one side is NaN. *)
Definition num_lt (a b : num) : bool :=
  match a, b with
  | Some x, Some y => x <? y
  | _, _ => false
  end.

(** [a > b]: false as soon as one side is NaN. *)
Definition num_gt (a b : num) : bool := num_lt b a.

Definition code (c : ascii) : N := N_of_ascii c.

Definition is_digit (c : ascii) : bool :=
  ((48 <=? code c) && (code c <=? 57))%N.

(** White space removed by [String.prototype.trim], for code units below
    256: TAB, LF, VT, FF, CR, SPACE and NBSP. *)
Definition is_ws (c : ascii) : bool :=
  (((9 <=? code c) && (code c <=? 13)) || (code c =? 32) || (code c =? 160))%N.

(** [String.prototype.toLowerCase] on one code unit below 256:
    A-Z, and the Latin-1 capitals U+00C0..U+00DE except U+00D7. *)
Definition lower_char (c : ascii) : ascii :=
  let n := code c in
  if (((65 <=? n) && (n <=? 90))
      || ((192 <=? n) && (n <=? 222) && negb (n =? 215)))%N
  then ascii_of_N (n + 32) else c.

Fixpoint toLowerCase (s : string) : string :=
  match s with
  | EmptyString => EmptyString
  | String c s' => String (lower_char c) (toLowerCase s')
  end.

Fixpoint trimStart (s : string) : string :=
  match s with
  | EmptyString => EmptyString
  | String c s' => if is_ws c then trimStart s' else s
  end.

Fixpoint trimEnd (s : string) : string :=
  match s with
  | EmptyString => EmptyString
  | String c s' =>
      match trimEnd s' with
      | EmptyString => if is_ws c then EmptyString else String c EmptyString
      | t => String c t
      end
  end.

Definition trim (s : string) : string := trimEnd (trimStart s).

(** A string is falsy exactly when it is empty. *)
Definition truthy (s : string) : bool :=
  match s with EmptyString => false | _ => true end.

Definition str_eqb (a b : string) : bool := bool_decide (a = b).

Fixpoint startsWith (s p : string) : bool :=
  match p, s with
  | EmptyString, _ => true
  | String a p', String b s' => bool_decide (a = b) && startsWith s' p'
  | String _ _, EmptyString => false
  end.

Fixpoint includes (s sub : string) : bool :=
  startsWith s sub ||
  match s with
  | EmptyString => false
  | String _ s' => includes s' sub
  end.

Definition includes_char (s : string) (c : ascii) : bool :=
  includes s (String c EmptyString).

(** [s.split('=')[1]]: the text between the first and the second '=',
    [None] (undefined) when [s] has no '='. *)
Fixpoint upto_eq (s : string) : string :=
  match s with
  | EmptyString => EmptyString
  | String c s' => if bool_decide (c = "="%char) then EmptyString
                   else String c (upto_eq s')
  end.

Fixpoint split_eq_1 (s : string) : option string :=
  match s with
  | EmptyString => None
  | String c s' => if bool_decide (c = "="%char) then Some (upto_eq s')
                   else split_eq_1 s'
  end.

(** [parseInt(s)] without radix: leading white space, an optional sign,
    then either [0x]/[0X] and hexadecimal digits or decimal digits; NaN
    when no digit follows.  (Values beyond 2^53 lose precision in
    JavaScript; the model keeps them exact.) *)
Definition digit_val (radix : Z) (c : ascii) : option Z :=
  let n := Z.of_N (code c) in
  let v := if (48 <=? n) && (n <=? 57) then Some (n - 48)
           else if (97 <=? n) && (n <=? 102) then Some (n - 87)
           else if (65 <=? n) && (n <=? 70) then Some (n - 55)
           else None in
  match v with
  | Some d => if d <? radix then Some d else None
  | None => None
  end.

Fixpoint digits_prefix (radix : Z) (acc : num) (s : string) : num :=
  match s with
  | EmptyString => acc
  | String c s' =>
      match digit_val radix c with
      | Some d => digits_prefix radix (Some (from_option (fun a => a * radix) 0 acc + d)) s'
      | None => acc
      end
  end.

Definition parse_unsigned (s : string) : num :=
  match s with
  | String "0" (String x s') =>
      if bool_decide (x = "x"%char) || bool_decide (x = "X"%char)
      then digits_prefix 16 None s'
      else digits_prefix 10 None s
  | _ => digits_prefix 10 None s
  end.

Definition parseInt (s : string) : num :=
  match trimStart s with
  | String "-" s' => Z.opp <$> parse_unsigned s'
  | String "+" s' => parse_unsigned s'
  | s' => parse_unsigned s'
  end.

(** [Array.prototype.slice(start, end)] with integer-or-NaN bounds. *)
Definition rel_index (len : Z) (i : num) : Z :=
  match i with
  | None => 0
  | Some k => if k <? 0 then Z.max (len + k) 0 else Z.min k len
  end.

Definition slice {A} (l : list A) (s e : num) : list A :=
  let len := Z.of_nat (length l) in
  let a := rel_index len s in
  let b := rel_index len e in
  take (Z.to_nat (b - a)) (drop (Z.to_nat a) l).

End JS.

(* ===================================================================== *)
(** ** Command line of the two sync scripts *)
(* ===================================================================== *)

Module Cli.
Import JS.

(** [/^\d{4}-\d{2}-\d{2}$/.test(s)] *)
Definition matches_ymd (s : string) : bool :=
  match s with
  | String y1 (String y2 (String y3 (String y4 (String h1
      (String m1 (String m2 (String h2 (String d1 (String d2 EmptyString))))))))) =>
      forallb is_digit [y1; y2; y3; y4]
      && bool_decide (h1 = "-"%char)
      && forallb is_digit [m1; m2]
      && bool_decide (h2 = "-"%char)
      && forallb is_digit [d1; d2]
  | _ => false
  end.

(** The [normalizeDate] closure of both [run] functions (identical text in
    sync_calendly_to_sendy.js and sync_shopify_to_sendy.js). *)
Definition normalizeDate (val kind : string) : string :=
  if negb (truthy val) then val
  else if includes_char val "T" then val
  else if matches_ymd val
       then (if str_eqb kind "until" then val +:+ "T23:59:59Z" else val +:+ "T00:00:00Z")
       else val.

Inductive script := Calendly | Shopify.

Record Opts := mkOpts {
  dryRun : bool;
  batchSize : num;
  throttleMs : num;
  noCache : bool;
  clearCache : bool;
  noPersistentCache : bool;
  cacheFile : option string;
  refreshPersistent : bool;
  since : option string;
  until : option string;
  listId : option string;
  orderStatus : string;
  source : string
}.

Definition defaults : Opts :=
  {| dryRun := false; batchSize := Some 20; throttleMs := Some 250;
     noCache := false; clearCache := false; noPersistentCache := false;
     cacheFile := None; refreshPersistent := false;
     since := None; until := None; listId := None;
     orderStatus := "any"; source := "orders" |}.

Definition set_dryRun v o := mkOpts v (batchSize o) (throttleMs o) (noCache o) (clearCache o) (noPersistentCache o) (cacheFile o) (refreshPersistent o) (since o) (until o) (listId o) (orderStatus o) (source o).
Definition set_batchSize v o := mkOpts (dryRun o) v (throttleMs o) (noCache o) (clearCache o) (noPersistentCache o) (cacheFile o) (refreshPersistent o) (since o) (until o) (listId o) (orderStatus o) (source o).
Definition set_throttleMs v o := mkOpts (dryRun o) (batchSize o) v (noCache o) (clearCache o) (noPersistentCache o) (cacheFile o) (refreshPersistent o) (since o) (until o) (listId o) (orderStatus o) (source o).
Definition set_noCache v o := mkOpts (dryRun o) (batchSize o) (throttleMs o) v (clearCache o) (noPersistentCache o) (cacheFile o) (refreshPersistent o) (since o) (until o) (listId o) (orderStatus o) (source o).
Definition set_clearCache v o := mkOpts (dryRun o) (batchSize o) (throttleMs o) (noCache o) v (noPersistentCache o) (cacheFile o) (refreshPersistent o) (since o) (until o) (listId o) (orderStatus o) (source o).
Definition set_noPersistentCache v o := mkOpts (dryRun o) (batchSize o) (throttleMs o) (noCache o) (clearCache o) v (cacheFile o) (refreshPersistent o) (since o) (until o) (listId o) (orderStatus o) (source o).
Definition set_cacheFile v o := mkOpts (dryRun o) (batchSize o) (throttleMs o) (noCache o) (clearCache o) (noPersistentCache o) v (refreshPersistent o) (since o) (until o) (listId o) (orderStatus o) (source o).
Definition set_refreshPersistent v o := mkOpts (dryRun o) (batchSize o) (throttleMs o) (noCache o) (clearCache o) (noPersistentCache o) (cacheFile o) v (since o) (until o) (listId o) (orderStatus o) (source o).
Definition set_since v o := mkOpts (dryRun o) (batchSize o) (throttleMs o) (noCache o) (clearCache o) (noPersistentCache o) (cacheFile o) (refreshPersistent o) v (until o) (listId o) (orderStatus o) (source o).
Definition set_until v o := mkOpts (dryRun o) (batchSize o) (throttleMs o) (noCache o) (clearCache o) (noPersistentCache o) (cacheFile o) (refreshPersistent o) (since o) v (listId o) (orderStatus o) (source o).
Definition set_listId v o := mkOpts (dryRun o) (batchSize o) (throttleMs o) (noCache o) (clearCache o) (noPersistentCache o) (cacheFile o) (refreshPersistent o) (since o) (until o) v (orderStatus o) (source o).
Definition set_orderStatus v o := mkOpts (dryRun o) (batchSize o) (throttleMs o) (noCache o) (clearCache o) (noPersistentCache o) (cacheFile o) (refreshPersistent o) (since o) (until o) (listId o) v (source o).
Definition set_source v o := mkOpts (dryRun o) (batchSize o) (throttleMs o) (noCache o) (clearCache o) (noPersistentCache o) (cacheFile o) (refreshPersistent o) (since o) (until o) (listId o) (orderStatus o) v.

(** [if (a.startsWith(p)) opts.f = g(a.split('=')[1])]. *)
Definition on_prefix (a p : string) (upd : string -> Opts -> Opts) (o : Opts) : Opts :=
  if startsWith a p then upd (default "" (split_eq_1 a)) o else o.

(** The block of "forms with '='": every [if] is tried, in source order. *)
Definition eq_forms (sc : script) (a : string) (o : Opts) : Opts :=
  let o := on_prefix a "--since=" (fun v => set_since (Some v)) o in
  let o := on_prefix a "--until=" (fun v => set_until (Some v)) o in
  let o := on_prefix a "--from=" (fun v => set_since (Some (normalizeDate v "since"))) o in
  let o := on_prefix a "--to=" (fun v => set_until (Some (normalizeDate v "until"))) o in
  let o := on_prefix a "--list-id=" (fun v => set_listId (Some v)) o in
  let o := on_prefix a "--batch-size=" (fun v => set_batchSize (parseInt v)) o in
  let o := on_prefix a "--throttle-ms=" (fun v => set_throttleMs (parseInt v)) o in
  let o := on_prefix a "--cache-file=" (fun v => set_cacheFile (Some v)) o in
  match sc with
  | Calendly => o
  | Shopify =>
      let o := on_prefix a "--order-status=" set_orderStatus o in
      on_prefix a "--source=" set_source o
  end.

(** The block of space-separated forms: the flag that consumes the next
    argument, if [a] is one of them. *)
Definition spaced_form (sc : script) (a : string) : option (string -> Opts -> Opts) :=
  if str_eqb a "--since" then Some (fun v => set_since (Some v))
  else if str_eqb a "--until" then Some (fun v => set_until (Some v))
  else if str_eqb a "--from" then Some (fun v => set_since (Some (normalizeDate v "since")))
  else if str_eqb a "--to" then Some (fun v => set_until (Some (normalizeDate v "until")))
  else if str_eqb a "--list-id" then Some (fun v => set_listId (Some v))
  else if str_eqb a "--batch-size" then Some (fun v => set_batchSize (parseInt v))
  else if str_eqb a "--throttle-ms" then Some (fun v => set_throttleMs (parseInt v))
  else if str_eqb a "--cache-file" then Some (fun v => set_cacheFile (Some v))
  else match sc with
       | Calendly => None
       | Shopify =>
           if str_eqb a "--order-status" then Some set_orderStatus
           else if str_eqb a "--source" then Some set_source
           else None
       end.

Definition bool_flags (a : string) (o : Opts) : Opts :=
  let o := if str_eqb a "--dry-run" then set_dryRun true o else o in
  let o := if str_eqb a "--no-cache" then set_noCache true o else o in
  let o := if str_eqb a "--clear-cache" then set_clearCache true o else o in
  let o := if str_eqb a "--no-persistent-cache" then set_noPersistentCache true o else o in
  if str_eqb a "--refresh-persistent" then set_refreshPersistent true o else o.

(** The [for (let i = 0; i < args.length; i++)] loop of [run]. *)
Fixpoint parseArgs (sc : script) (args : list string) (o : Opts) : Opts :=
  match args with
  | [] => o
  | a :: rest =>
      let o := eq_forms sc a o in
      match spaced_form sc a, rest with
      | Some upd, next :: rest' =>
          if truthy next then parseArgs sc rest' (upd next o)
          else parseArgs sc rest (bool_flags a o)
      | _, _ => parseArgs sc rest (bool_flags a o)
      end
  end.

Definition parse (sc : script) (args : list string) : Opts :=
  parseArgs sc args defaults.

End Cli.

Example parse_from_to :
let o := Cli.parse Cli.Calendly ["--from"; "2025-11-01"; "--to=2025-11-07"; "--dry-run"] in
(Cli.since o, Cli.until o, Cli.dryRun o)
= (Some "2025-11-01T00:00:00Z", Some "2025-11-07T23:59:59Z", true).
Proof. reflexivity. Qed.

(* ===================================================================== *)
(** ** The persistent cache: src/utils/fileCache.js *)
(* ===================================================================== *)

Module FileCache.
Import JS.

(** [{ [email]: timestampISO }] and [{ lists: { [listId]: { emails } } }].
    The one-field wrappers [lists] and [emails] of the JSON schema are
    left implicit. *)
Abbreviation Emails := (gmap string string).
Abbreviation Lists := (gmap string (gmap string string)).

(** What [fs.readFileSync] followed by [JSON.parse] makes of a file that
    exists: either the parse throws, or it yields a document of the cache
    schema.  (A file holding well-formed JSON of another shape is outside
    the model.) *)
Inductive file :=
| Corrupt (raw : string)
| Stored (d : Lists).

(** The file system, by path; a path without entry does not exist. *)
Abbreviation Disk := (gmap string file).

Record t := mk {
  filePath : string;
  data : Lists;
  _loaded : bool
}.

(** [constructor({ filePath })] for a given path. *)
Definition new (path : string) : t :=
  {| filePath := path; data := ∅; _loaded := false |}.

Definition load (disk : Disk) (c : t) : t :=
  if _loaded c then c
  else
    let d := match disk !! filePath c with
             | None => data c              (* existsSync is false *)
             | Some (Stored d) => d        (* this.data = JSON.parse(raw) *)
             | Some (Corrupt _) => ∅       (* catch: start fresh *)
             end in
    {| filePath := filePath c; data := d; _loaded := true |}.

(** [save]: a full rewrite of the file (write errors are swallowed by the
    source; the model lets the write succeed). *)
Definition save (disk : Disk) (c : t) : Disk :=
  <[filePath c := Stored (data c)]> disk.

Definition clear (disk : Disk) (c : t) : t * Disk :=
  let c' := {| filePath := filePath c; data := ∅; _loaded := _loaded c |} in
  (c', save disk c').

Definition ensureList (disk : Disk) (listId : string) (c : t) : Emails * t :=
  let c := load disk c in
  match data c !! listId with
  | Some l => (l, c)
  | None => (∅, {| filePath := filePath c; data := <[listId := ∅]> (data c);
                   _loaded := _loaded c |})
  end.

(** [!!l.emails[email.toLowerCase()]] *)
Definition hasEmail (disk : Disk) (listId email : string) (c : t) : bool * t :=
  let c := load disk c in
  let '(l, c) := ensureList disk listId c in
  (match l !! toLowerCase email with Some ts => truthy ts | None => false end, c).

(** [l.emails[email.toLowerCase()] = when]; [when] defaults to
    [new Date().toISOString()] and is passed explicitly here. *)
Definition setEmail (disk : Disk) (listId email when : string) (c : t) : t :=
  let c := load disk c in
  let '(l, c) := ensureList disk listId c in
  {| filePath := filePath c;
     data := <[listId := <[toLowerCase email := when]> l]> (data c);
     _loaded := _loaded c |}.

(** Read-only view used in statements: is [email] recorded (with a truthy
    timestamp) under [listId]? *)
Definition recorded (d : Lists) (listId email : string) : bool :=
  match d !! listId with
  | Some l => match l !! email with Some ts => truthy ts | None => false end
  | None => false
  end.

End FileCache.

(* ===================================================================== *)
(** ** The in-memory cache: src/utils/cache.js (a NodeCache instance) *)
(* ===================================================================== *)

Module NodeCache.

(** Keys to stored values; the scripts only ever store [true].  Expiry
    (stdTTL) is a matter of wall-clock time and is not modelled: an entry
    stays until [flushAll]. *)
Abbreviation t := (gmap string bool).

Definition get (k : string) (c : t) : option bool := c !! k.
Definition has (k : string) (c : t) : bool := bool_decide (is_Some (c !! k)).
Definition set (k : string) (v : bool) (c : t) : t := <[k := v]> c.
Definition flushAll (c : t) : t := ∅.

(** Truthiness of [cache.get(key)]. *)
Definition hit (k : string) (c : t) : bool :=
  match get k c with Some true => true | _ => false end.

End NodeCache.

(* ===================================================================== *)
(** ** Remote calls and the trace of effects *)
(* ===================================================================== *)

Module Remote.
Import JS.

(** The four ways the Sendy client sends one request: [http.post] with a
    url-encoded string, [http.post] with the [URLSearchParams] object,
    [http.get] with query parameters, and [httpsHttp.post]. *)
Inductive transport := PostString | PostParams | GetQuery | HttpsPostString.

(** [res.data] as axios hands it over. *)
Inductive jsdata :=
| DUndefined
| DNull
| DBool (b : bool)
| DNum (n : Z)
| DStr (s : string).

Record response := mkResponse { res_data : jsdata; res_status : Z }.

Inductive request :=
| StatusReq (via : transport) (email listId : string)
| SubscribeReq (via : transport) (email name listId : string).

(** A request either resolves with a response or rejects with an error
    whose [message] is given. *)
Inductive reply := Resolve (r : response) | Reject (message : string).

(** The Sendy installation, as seen from the client. *)
Definition remote := request -> reply.

(** [String(d)] *)
Definition to_String (d : jsdata) : string :=
  match d with
  | DUndefined => "undefined"
  | DNull => "null"
  | DBool true => "true"
  | DBool false => "false"
  | DNum n => DecimalString.NilZero.string_of_int (Z.to_int n)
  | DStr s => s
  end.

(** [d || ''] *)
Definition or_empty (d : jsdata) : jsdata :=
  match d with
  | DUndefined | DNull | DBool false | DNum 0 | DStr EmptyString => DStr EmptyString
  | _ => d
  end.

Inductive event :=
| Http (r : request)                         (* one HTTP request to Sendy *)
| StatusCall (email listId : string)         (* sendy.getSubscriberStatus *)
| SubscribeCall (email name listId : string) (* sendy.subscribe *)
| Sleep (ms : num)                           (* the throttle delay *)
| MemGet (key : string)                      (* cache.get(key) *)
| MemSet (key : string)                      (* cache.set(key, true) *)
| FileHas (listId key : string)              (* emails[key] read under lists[listId] *)
| FileSet (listId key : string).             (* emails[key] written under lists[listId] *)

(** A computation that may throw, with the events it performed. *)
Definition eff (A : Type) : Type := (A + string) * list event.

Definition ret {A} (a : A) : eff A := (inl a, []).

Definition bind {A B} (m : eff A) (k : A -> eff B) : eff B :=
  match m with
  | (inl a, t) => let '(r, t') := k a in (r, t ++ t')
  | (inr e, t) => (inr e, t)
  end.

Definition send (R : remote) (rq : request) : eff response :=
  (match R rq with Resolve r => inl r | Reject m => inr m end, [Http rq]).

End Remote.

Notation "'do' x <- m ; k" := (Remote.bind m (fun x => k))
  (at level 10, x name, m at level 100, k at level 200).

(** A candidate for subscription, as both scripts build it: the normalized
    email, a display name, the source's creation time and a reference to the
    source record (event name or order id). *)
Record Candidate := mkCandidate {
  email : string;
  name : string;
  created_at : option string;
  ref : option string
}.

(* ===================================================================== *)
(** ** The Sendy client: src/clients/sendyClient.js *)
(* ===================================================================== *)

Module SendyClient.
Import JS Remote.

Inductive StatusResult :=
| StatusOk (status normalized : string)   (* { success: true, status, normalized } *)
| StatusErr (message : string).           (* { success: false, message } *)

Definition text_of (r : response) : string := trim (to_String (res_data r)).

Definition normalize (status : string) : string :=
  if str_eqb status "subscribed" then "subscribed"
  else if str_eqb status "unsubscribed" then "unsubscribed"
  else if str_eqb status "unconfirmed" then "unconfirmed"
  else if str_eqb status "bounced" then "bounced"
  else if str_eqb status "complained" then "complained"
  else if str_eqb status "deleted" then "deleted"
  else if str_eqb status "not in list" then "not-in-list"
  else status.

(** The [try] block of [getSubscriberStatus]: the trimmed text of the last
    response; [https] tells whether [this.httpsHttp] exists (the base URL
    starts with http://). *)
Definition status_text (R : remote) (https : bool) (email listId : string) : eff string :=
  do res <- send R (StatusReq PostString email listId) ;
  do raw <- (if str_eqb (text_of res) "No data passed"
             then do res <- send R (StatusReq PostParams email listId) ; ret (text_of res)
             else ret (text_of res)) ;
  do raw <- (if str_eqb raw "No data passed"
             then do res <- send R (StatusReq GetQuery email listId) ; ret (text_of res)
             else ret raw) ;
  do raw <- (if str_eqb raw "No data passed" && https
             then do res <- send R (StatusReq HttpsPostString email listId) ; ret (text_of res)
             else ret raw) ;
  ret raw.

(** [getSubscriberStatus(email, listId)] *)
Definition getSubscriberStatus (R : remote) (https : bool) (email listId : string)
  : StatusResult * list event :=
  match status_text R https email listId with
  | (inl raw, t) => (StatusOk raw (normalize (toLowerCase raw)), t)
  | (inr m, t) => (StatusErr m, t)
  end.

Record SubscribeResult := mkSubscribeResult {
  success : bool;
  message : string;
  statusCode : option Z
}.

Definition successIndicators : list string :=
  ["true"; "already subscribed"; "already subscribed."; "1"].

Definition errorIndicators : list string :=
  ["invalid email"; "some fields are missing"; "invalid api key";
   "invalid list id"; "bounced"; "complained"].

(** Lines 563-568: [text] is a string, so the test [text === true] is
    always false. *)
Definition isSuccess (text : string) : bool :=
  let lower := toLowerCase text in
  let hasError := existsb (fun e => includes lower e) errorIndicators in
  negb hasError
  && (false || existsb (fun si => str_eqb lower si || includes lower si) successIndicators).

Definition fallback_text (r : response) : string :=
  trim (to_String (or_empty (res_data r))).

(** [attemptFallback(reason)] *)
Definition attemptFallback_noData (R : remote) (https : bool) (email name listId : string)
  : eff string :=
  do res <- send R (SubscribeReq PostParams email name listId) ;
  if str_eqb (fallback_text res) "No data passed" && https
  then do res <- send R (SubscribeReq HttpsPostString email name listId) ; ret (fallback_text res)
  else ret (fallback_text res).

Definition attemptFallback_empty (R : remote) (https : bool) (email name listId : string)
  : eff string :=
  if https
  then do res <- send R (SubscribeReq HttpsPostString email name listId) ; ret (fallback_text res)
  else do res <- send R (SubscribeReq PostParams email name listId) ; ret (fallback_text res).

(** [(data === undefined || data === null) ? '' : String(data).trim()] *)
Definition first_text (r : response) : string :=
  match res_data r with
  | DUndefined | DNull => EmptyString
  | d => trim (to_String d)
  end.

(** The text the classification reads: the trimmed, stringified body of the
    last response. *)
Definition response_text (R : remote) (https : bool) (email name listId : string)
  : eff (string * Z) :=
  do res <- send R (SubscribeReq PostString email name listId) ;
  let text := first_text res in
  do text <- (if str_eqb text "No data passed"
              then attemptFallback_noData R https email name listId
              else if bool_decide (String.length text = 0%nat)
              then attemptFallback_empty R https email name listId
              else ret text) ;
  ret (text, res_status res).

(** [subscribe({ email, name, listId })] *)
Definition subscribe (R : remote) (https : bool) (email name listId : string)
  : SubscribeResult * list event :=
  match response_text R https email name listId with
  | (inl (text, code), t) =>
      ({| success := isSuccess text; message := text; statusCode := Some code |}, t)
  | (inr m, t) =>
      ({| success := false; message := m; statusCode := None |}, t)
  end.

(** One entry of the array [bulkSubscribe] returns (a Sync Result). *)
Record Result := mkResult {
  r_email : string;
  r_success : bool;
  r_dryRun : bool;
  r_message : string;
  r_statusCode : option Z
}.

(** The inner [for (const it of batch)] loop. *)
Fixpoint subscribe_batch (R : remote) (https : bool) (lst : string)
    (dryRun : bool) (throttleMs : num) (batch : list Candidate)
    (results : list Result) (tr : list event) : list Result * list event :=
  match batch with
  | [] => (results, tr)
  | it :: batch' =>
      if dryRun then
        subscribe_batch R https lst dryRun throttleMs batch'
          (results ++ [mkResult (email it) false true "dry-run" None]) tr
      else
        let '(res, t) := subscribe R https (email it) (name it) lst in
        subscribe_batch R https lst dryRun throttleMs batch'
          (results ++ [mkResult (email it) (success res) false (message res) (statusCode res)])
          (tr ++ [SubscribeCall (email it) (name it) lst] ++ t ++ [Sleep throttleMs])
  end.

(** What a bounded number of iterations of the outer loop reaches. *)
Record Bulk := mkBulk {
  finished : bool;            (* the loop condition [i < items.length] became false *)
  results : list Result;
  trace : list event
}.

(** The outer [for (let i = 0; i < items.length; i += batchSize)] loop;
    [fuel] bounds the number of iterations. *)
Fixpoint bulk_loop (fuel : nat) (R : remote) (https : bool) (lst : string)
    (items : list Candidate) (dryRun : bool) (batchSize throttleMs : num)
    (i : num) (results : list Result) (tr : list event) : Bulk :=
  if num_lt i (Some (Z.of_nat (length items))) then
    match fuel with
    | O => mkBulk false results tr
    | S fuel' =>
        let batch := slice items i (num_add i batchSize) in
        let '(results', tr') :=
          subscribe_batch R https lst dryRun throttleMs batch results tr in
        bulk_loop fuel' R https lst items dryRun batchSize throttleMs
          (num_add i batchSize) results' tr'
    end
  else mkBulk true results tr.

(** [bulkSubscribe(list, items, { dryRun, batchSize, throttleMs })]; the
    parameter [list] of the source is [lst] here. *)
Definition bulkSubscribe (fuel : nat) (R : remote) (https : bool) (lst : string)
    (items : list Candidate) (dryRun : bool) (batchSize throttleMs : num) : Bulk :=
  bulk_loop fuel R https lst items dryRun batchSize throttleMs (Some 0) [] [].

End SendyClient.

Example isSuccess_samples :
  map SendyClient.isSuccess
    ["1"; "true"; "Already subscribed."; "Invalid email address."; ""; "Error 1001"; "maybe"]
  = [true; true; true; false; false; true; false].
Proof. reflexivity. Qed.

(* ===================================================================== *)
(** ** The sync scripts: src/scripts/sync_calendly_to_sendy.js and
       src/scripts/sync_shopify_to_sendy.js *)
(* ===================================================================== *)

Module Sync.
Import JS Remote.

Record Counters := mkCounters {
  cached : nat;
  alreadySubscribed : nat;
  unsubscribed : nat;
  bouncedOrComplained : nat;
  notInList : nat;
  unknownStatus : nat
}.

Definition zero : Counters := mkCounters 0 0 0 0 0 0.

Inductive counter :=
| Cached | AlreadySubscribed | Unsubscribed | BouncedOrComplained | NotInList | UnknownStatus.

(** [counters.<c>++] *)
Definition incr (c : counter) (k : Counters) : Counters :=
  match c with
  | Cached => mkCounters (S (cached k)) (alreadySubscribed k) (unsubscribed k) (bouncedOrComplained k) (notInList k) (unknownStatus k)
  | AlreadySubscribed => mkCounters (cached k) (S (alreadySubscribed k)) (unsubscribed k) (bouncedOrComplained k) (notInList k) (unknownStatus k)
  | Unsubscribed => mkCounters (cached k) (alreadySubscribed k) (S (unsubscribed k)) (bouncedOrComplained k) (notInList k) (unknownStatus k)
  | BouncedOrComplained => mkCounters (cached k) (alreadySubscribed k) (unsubscribed k) (S (bouncedOrComplained k)) (notInList k) (unknownStatus k)
  | NotInList => mkCounters (cached k) (alreadySubscribed k) (unsubscribed k) (bouncedOrComplained k) (S (notInList k)) (unknownStatus k)
  | UnknownStatus => mkCounters (cached k) (alreadySubscribed k) (unsubscribed k) (bouncedOrComplained k) (notInList k) (S (unknownStatus k))
  end.

(** What the per-record loop reads and writes: the module-level in-memory
    cache, the [fileCache] object, the counters, the queue and the effects
    performed so far. *)
Record State := mkState {
  mem : gmap string bool;
  fcache : FileCache.t;
  counters : Counters;
  toSubscribe : list Candidate;
  trace : list event
}.

Definition log (evs : list event) (st : State) : State :=
  mkState (mem st) (fcache st) (counters st) (toSubscribe st) (trace st ++ evs).

Definition bump (c : counter) (st : State) : State :=
  mkState (mem st) (fcache st) (incr c (counters st)) (toSubscribe st) (trace st).

Definition push (r : Candidate) (st : State) : State :=
  mkState (mem st) (fcache st) (counters st) (toSubscribe st ++ [r]) (trace st).

(** [`synced:${listId}:${email}`] *)
Definition cacheKey (listId email : string) : string :=
  "synced:" +:+ listId +:+ ":" +:+ email.

(** [if (!opts.noCache) cache.set(key, true)] *)
Definition mem_set (noCache : bool) (key : string) (st : State) : State :=
  if noCache then st
  else log [MemSet key]
         (mkState (NodeCache.set key true (mem st)) (fcache st) (counters st)
                  (toSubscribe st) (trace st)).

(** [if (!opts.noPersistentCache) fileCache.setEmail(listId, email)] *)
Definition file_set (noPersistentCache : bool) (disk : gmap string FileCache.file)
    (listId email when : string) (st : State) : State :=
  if noPersistentCache then st
  else log [FileSet listId (toLowerCase email)]
         (mkState (mem st) (FileCache.setEmail disk listId email when (fcache st))
                  (counters st) (toSubscribe st) (trace st)).

(** [!opts.noPersistentCache && fileCache.hasEmail(listId, email)] *)
Definition file_has (noPersistentCache : bool) (disk : gmap string FileCache.file)
    (listId email : string) (st : State) : bool * State :=
  if noPersistentCache then (false, st)
  else
    let '(b, c) := FileCache.hasEmail disk listId email (fcache st) in
    (b, log [FileHas listId (toLowerCase email)]
          (mkState (mem st) c (counters st) (toSubscribe st) (trace st))).

(** [!opts.noCache && cache.get(cacheKey)] *)
Definition mem_hit (noCache : bool) (key : string) (st : State) : bool * State :=
  if noCache then (false, st)
  else (NodeCache.hit key (mem st), log [MemGet key] st).

Section Loop.

(** The run's fixed surroundings: the Sendy installation, whether the https
    fallback client exists, the file system as the loop finds it, the
    options, the resolved list id and the time stamp [new Date().toISOString()]
    written by [setEmail]. *)
Variable R : remote.
Variable https : bool.
Variable disk : gmap string FileCache.file.
Variable opts : Cli.Opts.
Variable listId : string.
Variable when : string.

(** The routing on the answer of the status check
    (list_sendy_brands.js:151-177, sync_shopify_to_sendy.js:168-196). *)
Definition route (key lowerEmail : string) (r : Candidate)
    (status : SendyClient.StatusResult) (st : State) : State :=
  match status with
  | SendyClient.StatusOk _ normalized =>
      if str_eqb normalized "subscribed" then
        bump AlreadySubscribed
          (file_set (Cli.noPersistentCache opts) disk listId lowerEmail when
             (mem_set (Cli.noCache opts) key st))
      else if str_eqb normalized "unsubscribed" then
        bump Unsubscribed (mem_set (Cli.noCache opts) key st)
      else if str_eqb normalized "bounced" || str_eqb normalized "complained" then
        bump BouncedOrComplained (mem_set (Cli.noCache opts) key st)
      else if str_eqb normalized "not-in-list" then
        push r (bump NotInList st)
      else
        push r (bump UnknownStatus st)
  | SendyClient.StatusErr _ => push r st
  end.

(** The body of [for (const r of rows)] (list_sendy_brands.js:134-182,
    sync_shopify_to_sendy.js:150-202). *)
Definition processRecord (st : State) (r : Candidate) : State :=
  let key := cacheKey listId (email r) in
  let lowerEmail := toLowerCase (email r) in
  let '(hasPersistent, st) := file_has (Cli.noPersistentCache opts) disk listId lowerEmail st in
  let '(inMemory, st) := mem_hit (Cli.noCache opts) key st in
  if inMemory then bump Cached st
  else if hasPersistent then bump AlreadySubscribed st
  else
    let '(status, t) := SendyClient.getSubscriberStatus R https (email r) listId in
    route key lowerEmail r status (log (StatusCall (email r) listId :: t) st).

Definition processRecords (rows : list Candidate) (st : State) : State :=
  fold_left processRecord rows st.

(** "Cache successes": the loop over [results] after [bulkSubscribe]. *)
Definition cacheSuccess (acc : State * nat) (res : SendyClient.Result) : State * nat :=
  let '(st, successCount) := acc in
  if SendyClient.r_success res then
    (file_set (Cli.noPersistentCache opts) disk listId
       (toLowerCase (SendyClient.r_email res)) when
       (mem_set (Cli.noCache opts) (cacheKey listId (SendyClient.r_email res)) st),
     S successCount)
  else (st, successCount).

Definition cacheSuccesses (results : list SendyClient.Result) (st : State) : State * nat :=
  fold_left cacheSuccess results (st, 0%nat).

End Loop.

(** The insertion-ordered [Map] of the de-duplication loops: [get], and
    [set], which keeps the position of a key that is already present. *)
Fixpoint map_get {V} (k : string) (m : list (string * V)) : option V :=
  match m with
  | [] => None
  | (k', v) :: m' => if str_eqb k k' then Some v else map_get k m'
  end.

Fixpoint map_set {V} (k : string) (v : V) (m : list (string * V)) : list (string * V) :=
  match m with
  | [] => [(k, v)]
  | (k', v') :: m' => if str_eqb k k' then (k, v) :: m' else (k', v') :: map_set k v m'
  end.

(** [x || null] for a string-valued field that may be missing. *)
Definition truthy_opt (o : option string) : option string :=
  match o with
  | Some s => if truthy s then Some s else None
  | None => None
  end.

(** [[a, b].filter(Boolean).join(' ')] *)
Definition join_names (a b : option string) : string :=
  match truthy_opt a, truthy_opt b with
  | Some x, Some y => x +:+ " " +:+ y
  | Some x, None => x
  | None, Some y => y
  | None, None => EmptyString
  end.

(** [s.split('@')[0]] *)
Fixpoint before_at (s : string) : string :=
  match s with
  | EmptyString => EmptyString
  | String c s' => if bool_decide (c = "@"%char) then EmptyString
                   else String c (before_at s')
  end.

(** [a || b] on strings *)
Definition or_str (a b : string) : string := if truthy a then a else b.

(** An invitee as [calendly.listInviteesAcrossEvents] returns it. *)
Record Invitee := mkInvitee {
  inv_email : option string;
  inv_name : string;
  inv_created_at : option string;
  inv_event_name : option string
}.

(** A Shopify customer, or the [customer] / [billing_address] part of an
    order. *)
Record Person := mkPerson {
  p_email : option string;
  first_name : option string;
  last_name : option string;
  p_created_at : option string
}.

Record Order := mkOrder {
  o_email : option string;
  customer : option Person;
  billing_address : option Person;
  o_created_at : option string;
  o_id : string
}.

Section Dates.

(** [new Date(s).getTime()] for a string [s] (NaN for an invalid date) and
    [Date.now()]. *)
Variable Date_parse : string -> num.
Variable now : Z.

(** [new Date(x || 0)] *)
Definition date_or_zero (o : option string) : num :=
  match truthy_opt o with
  | Some s => Date_parse s
  | None => Some 0
  end.

(** [rows.sort((a, b) => new Date(a.created_at || 0) - new Date(b.created_at || 0))],
    as a stable insertion sort; a NaN difference counts as 0.  (When some
    date is invalid the comparator is not consistent and the order is left
    to the engine; only the elements of the result are relied upon.) *)
Fixpoint insert_by_date (x : Candidate) (l : list Candidate) : list Candidate :=
  match l with
  | [] => [x]
  | y :: l' =>
      if num_lt (date_or_zero (created_at y)) (date_or_zero (created_at x))
      then y :: insert_by_date x l'
      else x :: l
  end.

Definition sort_by_date (l : list Candidate) : list Candidate :=
  foldr insert_by_date [] l.

(** list_sendy_brands.js:107-116, one iteration of
    [for (const inv of invitees)]. *)
Definition dedupe_step (m : list (string * Candidate)) (inv : Invitee)
  : list (string * Candidate) :=
  match truthy_opt (inv_email inv) with
  | None => m
  | Some raw =>
      let email := trim (toLowerCase raw) in
      let cur := map_get email m in
      let created := match truthy_opt (inv_created_at inv) with
                     | Some s => Date_parse s
                     | None => Some now
                     end in
      if match cur with
         | None => true
         | Some c => num_gt created (date_or_zero (created_at c))
         end
      then map_set email
             (mkCandidate email (inv_name inv) (truthy_opt (inv_created_at inv))
                (truthy_opt (inv_event_name inv))) m
      else m
  end.

(** list_sendy_brands.js:107-118: the rows the Calendly run checks. *)
Definition calendly_rows (invitees : list Invitee) : list Candidate :=
  sort_by_date (map snd (fold_left dedupe_step invitees [])).

(** The email of an order: [order.email], else [order.customer.email], else
    [order.billing_address.email], lowercased and trimmed. *)
Definition order_email (o : Order) : option string :=
  match truthy_opt (o_email o) with
  | Some e => Some (trim (toLowerCase e))
  | None =>
      match customer o ≫= (fun c => truthy_opt (p_email c)) with
      | Some e => Some (trim (toLowerCase e))
      | None =>
          match billing_address o ≫= (fun b => truthy_opt (p_email b)) with
          | Some e => Some (trim (toLowerCase e))
          | None => None
          end
      end
  end.

Definition order_name (o : Order) : string :=
  match customer o with
  | Some c => join_names (first_name c) (last_name c)
  | None =>
      match billing_address o with
      | Some b => join_names (first_name b) (last_name b)
      | None => EmptyString
      end
  end.

(** shopifyClient.js:287-324, one iteration of [for (const order of orders)].
    (The fields order_number, order_value and raw_order of the stored object
    are not read by the sync and are left out.) *)
Definition extract_step (m : list (string * Candidate)) (o : Order)
  : list (string * Candidate) :=
  match order_email o ≫= (fun e => truthy_opt (Some e)) with
  | None => m
  | Some email =>
      let existing := map_get email m in
      let orderDate := date_or_zero (o_created_at o) in
      if match existing with
         | None => true
         | Some c => num_gt orderDate (date_or_zero (created_at c))
         end
      then map_set email
             (mkCandidate email (or_str (trim (order_name o)) (before_at email))
                (o_created_at o) (Some (o_id o))) m
      else m
  end.

(** [ShopifyClient.extractEmailsFromOrders(orders)] *)
Definition extractEmailsFromOrders (orders : list Order) : list Candidate :=
  sort_by_date (map snd (fold_left extract_step orders [])).

(** sync_shopify_to_sendy.js:114-121, the [customers] source: no
    de-duplication. *)
Definition customer_row (c : Person) : option Candidate :=
  match truthy_opt (p_email c) with
  | None => None
  | Some raw =>
      let email := trim (toLowerCase raw) in
      if truthy email
      then Some (mkCandidate email
                   (or_str (trim (join_names (first_name c) (last_name c))) (before_at email))
                   (p_created_at c) None)
      else None
  end.

Definition customer_rows (cs : list Person) : list Candidate :=
  omap customer_row cs.

End Dates.

(** The environment variables and working directory the scripts read. *)
Record Env := mkEnv {
  SENDY_LIST_ID : option string;
  SENDY_SHOPIFY_LIST_ID : option string;
  SENDY_SYNC_CACHE_FILE : option string;
  cwd : string
}.

(** The list id after the fallback to the environment; [None] when the
    script logs an error and calls [process.exit(1)]. *)
Definition resolveListId (sc : Cli.script) (opts : Cli.Opts) (env : Env) : option string :=
  match truthy_opt (Cli.listId opts) with
  | Some l => Some l
  | None =>
      match sc with
      | Cli.Calendly => truthy_opt (SENDY_LIST_ID env)
      | Cli.Shopify =>
          match truthy_opt (SENDY_SHOPIFY_LIST_ID env) with
          | Some l => Some l
          | None => truthy_opt (SENDY_LIST_ID env)
          end
      end
  end.

(** [opts.cacheFile || process.env.SENDY_SYNC_CACHE_FILE || path.join(cwd, name)];
    [path.join] is taken to put one "/" between its arguments. *)
Definition persistentFilePath (sc : Cli.script) (opts : Cli.Opts) (env : Env)
    (listId : string) : string :=
  match truthy_opt (Cli.cacheFile opts) with
  | Some f => f
  | None =>
      match truthy_opt (SENDY_SYNC_CACHE_FILE env) with
      | Some f => f
      | None =>
          cwd env +:+ "/" +:+
          match sc with
          | Cli.Calendly => ".sendy_cache_" +:+ listId +:+ ".json"
          | Cli.Shopify => ".sendy_shopify_cache_" +:+ listId +:+ ".json"
          end
      end
  end.

(** The start of [run]: the [FileCache] object is created, loaded unless
    --no-persistent-cache, cleared on --refresh-persistent, and the in-memory
    cache is flushed on --clear-cache. *)
Definition setup (opts : Cli.Opts) (path : string)
    (disk : gmap string FileCache.file) (mem0 : gmap string bool)
  : FileCache.t * gmap string FileCache.file * gmap string bool :=
  let fileCache := FileCache.new path in
  let '(fileCache, disk) :=
    if Cli.noPersistentCache opts then (fileCache, disk)
    else
      let fileCache := FileCache.load disk fileCache in
      if Cli.refreshPersistent opts then FileCache.clear disk fileCache
      else (fileCache, disk) in
  (fileCache, disk, if Cli.clearCache opts then NodeCache.flushAll mem0 else mem0).

Record Report := mkReport {
  rep_dryRun : bool;
  rep_listId : string;
  rep_since : option string;
  rep_until : option string;
  rep_persistentCacheFile : option string;
  rep_checked : nat;
  rep_attempted : nat;
  rep_subscribed : nat;
  rep_would_subscribe : nat;
  rep_skipped : Counters;
  rep_subscriptionFailures : nat;
  rep_results : list SendyClient.Result
}.

(** How a run ends: [process.exit(code)] before any work; still inside
    [bulkSubscribe] when the iteration bound was reached; or completed, with
    the report written, the caches and the file system as the run leaves
    them, and the effects performed. *)
Inductive Outcome :=
| Exit (code : Z)
| Pending (tr : list event)
| Completed (report : Report) (mem_after : gmap string bool)
    (fileCache_after : FileCache.t) (disk_after : gmap string FileCache.file)
    (tr : list event).

Definition trace_of (o : Outcome) : list event :=
  match o with
  | Exit _ => []
  | Pending tr => tr
  | Completed _ _ _ _ tr => tr
  end.

Section Run.

Variable R : remote.
Variable https : bool.
Variable when : string.
Variable fuel : nat.

(** [run], from the rows to check onwards. *)
Definition run_rows (sc : Cli.script) (opts : Cli.Opts) (env : Env)
    (disk : gmap string FileCache.file) (mem0 : gmap string bool)
    (rows : list Candidate) : Outcome :=
  match resolveListId sc opts env with
  | None => Exit 1
  | Some listId =>
      let path := persistentFilePath sc opts env listId in
      let '(fileCache, disk, mem0) := setup opts path disk mem0 in
      let st := processRecords R https disk opts listId when rows
                  (mkState mem0 fileCache zero [] []) in
      let bulk := SendyClient.bulkSubscribe fuel R https listId (toSubscribe st)
                    (Cli.dryRun opts) (Cli.batchSize opts) (Cli.throttleMs opts) in
      let st := log (SendyClient.trace bulk) st in
      if SendyClient.finished bulk then
        let results := SendyClient.results bulk in
        let subscriptionFailures :=
          length (filter (fun r => SendyClient.r_success r = false) results) in
        let '(st, successCount) := cacheSuccesses disk opts listId when results st in
        let report :=
          {| rep_dryRun := Cli.dryRun opts;
             rep_listId := listId;
             rep_since := truthy_opt (Cli.since opts);
             rep_until := truthy_opt (Cli.until opts);
             rep_persistentCacheFile :=
               if Cli.noPersistentCache opts then None else Some path;
             rep_checked := length rows;
             rep_attempted := length (toSubscribe st);
             rep_subscribed := successCount;
             rep_would_subscribe := length (toSubscribe st);
             rep_skipped := counters st;
             rep_subscriptionFailures := subscriptionFailures;
             rep_results := results |} in
        if Cli.noPersistentCache opts
        then Completed report (mem st) (fcache st) disk (trace st)
        else Completed report (mem st)
               (snd (FileCache.ensureList disk listId (fcache st)))
               (FileCache.save disk (fcache st)) (trace st)
      else Pending (trace st)
  end.

Variable Date_parse : string -> num.
Variable now : Z.

(** sync_calendly_to_sendy.js, given what
    [calendly.listInviteesAcrossEvents] returned. *)
Definition run_calendly (opts : Cli.Opts) (env : Env)
    (disk : gmap string FileCache.file) (mem0 : gmap string bool)
    (invitees : list Invitee) : Outcome :=
  run_rows Cli.Calendly opts env disk mem0 (calendly_rows Date_parse now invitees).

(** sync_shopify_to_sendy.js, given what [shopify.listCustomers] and
    [shopify.listOrders] return for the window. *)
Definition run_shopify (opts : Cli.Opts) (env : Env)
    (disk : gmap string FileCache.file) (mem0 : gmap string bool)
    (shopifyCustomers : list Person) (orders : list Order) : Outcome :=
  let source := toLowerCase (or_str (Cli.source opts) "orders") in
  run_rows Cli.Shopify opts env disk mem0
    (if str_eqb source "customers" then customer_rows shopifyCustomers
     else extractEmailsFromOrders Date_parse orders).

End Run.

End Sync.

(* ===================================================================== *)
(** ** Paginated fetches: src/clients/shopifyClient.js and
       src/clients/calendlyClient.js *)
(* ===================================================================== *)

Module Pagination.
Import JS.

(** How a paginated fetch ends within a bounded number of iterations. *)
Inductive fetched (A : Type) :=
| Returned (items : list A) (requests : nat) (warned : bool)
| Thrown (message : string) (requests : nat)
| StillFetching (requests : nat).
Arguments Returned {A} _ _ _.
Arguments Thrown {A} _ _.
Arguments StillFetching {A} _.

(** What [_requestWithRetry] yields for one page request: the response, or
    the error it throws once its retries are used up. *)
Inductive answer (P : Type) := Page (p : P) | Error (message : string).
Arguments Page {P} _.
Arguments Error {P} _.

(** The text [rel=] followed by the quoted word next. *)
Definition rel_next : string :=
  "rel=" +:+ String (ascii_of_nat 34) ("next" +:+ String (ascii_of_nat 34) EmptyString).

(** The part of [s] before its first [>] and the part after it. *)
Fixpoint split_gt (s : string) : option (string * string) :=
  match s with
  | EmptyString => None
  | String c s' =>
      if bool_decide (c = ">"%char) then Some (EmptyString, s')
      else match split_gt s' with
           | Some (u, rest) => Some (String c u, rest)
           | None => None
           end
  end.

(** The regular expression [<([^>]+)>;\s*rel="next"] tried right after
    a [<]. *)
Definition next_link_here (s : string) : option string :=
  match split_gt s with
  | Some (url, String ";" rest) =>
      if truthy url && startsWith (trimStart rest) rel_next then Some url else None
  | _ => None
  end.

(** [_parseNextPageUrl(linkHeader)]: the first match from the left. *)
Fixpoint _parseNextPageUrl_str (s : string) : option string :=
  match s with
  | EmptyString => None
  | String c s' =>
      match (if bool_decide (c = "<"%char) then next_link_here s' else None) with
      | Some url => Some url
      | None => _parseNextPageUrl_str s'
      end
  end.

Definition _parseNextPageUrl (linkHeader : option string) : option string :=
  match linkHeader with
  | Some s => if truthy s then _parseNextPageUrl_str s else None
  | None => None
  end.

(** One Shopify response: [res.data.orders] (or [.customers]) when present,
    and [res.headers.link]. *)
Record ShopifyPage (A : Type) := mkShopifyPage {
  sp_items : option (list A);
  sp_link : option string
}.
Arguments mkShopifyPage {A} _ _.
Arguments sp_items {A} _.
Arguments sp_link {A} _.

Definition maxAttempts : nat := 50.

Section Shopify.
Context {A : Type}.

(** The Shopify API: the answer to the [n]-th request (counted from 0) of a
    fetch, for the given next-page URL ([None]: the first page). *)
Variable api : nat -> option string -> answer (ShopifyPage A).

(** [ShopifyClient.listOrders], the [do ... while (nextPageUrl)] loop
    (shopifyClient.js:148-191); [fuel] bounds the iterations. *)
Fixpoint listOrders_loop (fuel : nat) (orders : list A)
    (nextPageUrl : option string) (attempts : nat) : fetched A :=
  match fuel with
  | O => StillFetching attempts
  | S fuel' =>
      match api attempts nextPageUrl with
      | Error m => Thrown m (S attempts)
      | Page res =>
          let orders := match sp_items res with
                        | Some batch => orders ++ batch
                        | None => orders
                        end in
          let nextPageUrl := _parseNextPageUrl (sp_link res) in
          let attempts := S attempts in
          if bool_decide (maxAttempts <= attempts)%nat
          then Returned orders attempts true   (* logger.warn(...); break *)
          else match nextPageUrl with
               | Some _ => listOrders_loop fuel' orders nextPageUrl attempts
               | None => Returned orders attempts false
               end
      end
  end.

Definition listOrders (fuel : nat) : fetched A := listOrders_loop fuel [] None 0.

(** [ShopifyClient.listCustomers] (shopifyClient.js:231-275): the Link
    header is read only when the body holds a batch. *)
Fixpoint listCustomers_loop (fuel : nat) (customers : list A)
    (nextPageUrl : option string) (attempts : nat) : fetched A :=
  match fuel with
  | O => StillFetching attempts
  | S fuel' =>
      match api attempts nextPageUrl with
      | Error m => Thrown m (S attempts)
      | Page res =>
          let '(customers, nextPageUrl) :=
            match sp_items res with
            | Some batch => (customers ++ batch, _parseNextPageUrl (sp_link res))
            | None => (customers, None)
            end in
          let attempts := S attempts in
          if bool_decide (maxAttempts <= attempts)%nat
          then Returned customers attempts true
          else match nextPageUrl with
               | Some _ => listCustomers_loop fuel' customers nextPageUrl attempts
               | None => Returned customers attempts false
               end
      end
  end.

Definition listCustomers (fuel : nat) : fetched A := listCustomers_loop fuel [] None 0.

End Shopify.

(** A Calendly response body: [collection] and [pagination], each possibly
    absent; a pagination field is [Some] when it is a string. *)
Record Pagination := mkPagination {
  next_page : option string;
  next_page_token : option string
}.

Record CalendlyBody (A : Type) := mkCalendlyBody {
  collection : option (list A);
  pagination : option Pagination
}.
Arguments mkCalendlyBody {A} _ _.
Arguments collection {A} _.
Arguments pagination {A} _.

(** What the variable [data] of [listScheduledEvents] holds: the body
    [res.data] after a request to a next-page URL, but the axios response
    object itself after a request to /scheduled_events (line 758 assigns the
    result of [_requestWithRetry] without taking [.data]). *)
Inductive data_view (A : Type) :=
| Body (b : CalendlyBody A)
| AxiosResponse (b : CalendlyBody A).
Arguments Body {A} _.
Arguments AxiosResponse {A} _.

(** [data.collection] and [data.pagination]: an axios response object has
    neither property. *)
Definition view_collection {A} (d : data_view A) : option (list A) :=
  match d with Body b => collection b | AxiosResponse _ => None end.

Definition view_pagination {A} (d : data_view A) : option Pagination :=
  match d with Body b => pagination b | AxiosResponse _ => None end.

(** [_getNextPageInfo(data)] *)
Definition _getNextPageInfo {A} (d : data_view A) : option string * option string :=
  match view_pagination d with
  | Some p => (Sync.truthy_opt (trim <$> next_page p),
               Sync.truthy_opt (trim <$> next_page_token p))
  | None => (None, None)
  end.

(** A request of the Calendly client: to a next-page URL, or to a fixed
    path with an optional [page_token] parameter. *)
Inductive calendly_request :=
| ToUrl (url : string)
| ToPath (page_token : option string).

Section Calendly.
Context {A : Type}.

Variable api : nat -> calendly_request -> answer (CalendlyBody A).

(** [CalendlyClient.listScheduledEvents], the pagination loop for one scope
    (calendlyClient.js, shopifyClient.js:743-798 in the concatenated file). *)
Fixpoint listScheduledEvents_loop (fuel : nat) (events : list A)
    (pageToken nextPageUrl : option string) (seenTokens : gset string)
    (requests : nat) : fetched A :=
  match fuel with
  | O => StillFetching requests
  | S fuel' =>
      let rq := match nextPageUrl with
                | Some u => ToUrl u
                | None => ToPath (trim <$> pageToken)
                end in
      match api requests rq with
      | Error m => Thrown m (S requests)
      | Page b =>
          let data := match nextPageUrl with
                      | Some _ => Body b
                      | None => AxiosResponse b
                      end in
          let events := match view_collection data with
                        | Some batch => events ++ batch
                        | None => events
                        end in
          let '(nextPage, nextPageToken) := _getNextPageInfo data in
          let nextPageUrl := nextPage in
          let pageToken := match nextPage with Some _ => None | None => nextPageToken end in
          match nextPageUrl, pageToken with
          | None, None => Returned events (S requests) false
          | _, _ =>
              if bool_decide (pageToken = Some "null")
              then Returned events (S requests) false
              else
                match pageToken with
                | Some tok =>
                    let normalizedToken := trim tok in
                    if bool_decide (normalizedToken ∈ seenTokens)
                    then Returned events (S requests) true   (* logger.warn(...); break *)
                    else listScheduledEvents_loop fuel' events (Some normalizedToken)
                           nextPageUrl ({[normalizedToken]} ∪ seenTokens) (S requests)
                | None =>
                    listScheduledEvents_loop fuel' events None nextPageUrl
                      seenTokens (S requests)
                end
          end
      end
  end.

Definition listScheduledEvents_pages (fuel : nat) : fetched A :=
  listScheduledEvents_loop fuel [] None None ∅ 0.

(** [CalendlyClient.listInviteesForEvent], for a non-empty event uuid: the
    [do ... while (pageToken)] loop; an error ends the fetch with what was
    collected so far. *)
Fixpoint listInviteesForEvent_loop (fuel : nat) (invitees : list A)
    (pageToken : option string) (requests : nat) : fetched A :=
  match fuel with
  | O => StillFetching requests
  | S fuel' =>
      match api requests (ToPath pageToken) with
      | Error m => Returned invitees (S requests) true   (* catch: logger.warn(...) *)
      | Page res =>
          let invitees := match collection res with
                          | Some batch => invitees ++ batch
                          | None => invitees
                          end in
          let pageToken := pagination res ≫= next_page_token in
          match Sync.truthy_opt pageToken with
          | Some _ => listInviteesForEvent_loop fuel' invitees pageToken (S requests)
          | None => Returned invitees (S requests) false
          end
      end
  end.

Definition listInviteesForEvent (fuel : nat) : fetched A :=
  listInviteesForEvent_loop fuel [] None 0.

End Calendly.

End Pagination.

(* ===================================================================== *)
(** ** The webhook handler: src/handlers/webhookHandler.js *)
(* ===================================================================== *)

Module Webhook.
Import JS.

(** Byte length of [Buffer.from(s)] (UTF-8) for code units below 256. *)
Fixpoint byteLength (s : string) : nat :=
  match s with
  | EmptyString => 0
  | String c s' => ((if (code c <? 128)%N then 1 else 2) + byteLength s')%nat
  end.

(** [crypto.timingSafeEqual(Buffer.from(a), Buffer.from(b))]: throws a
    RangeError ([None]) when the byte lengths differ. *)
Definition timingSafeEqual (a b : string) : option bool :=
  if bool_decide (byteLength a = byteLength b) then Some (str_eqb a b) else None.

Inductive Dispatch :=
| NotReached          (* the handler answered before looking at the event *)
| InviteeCreated      (* processNewInvitee(eventPayload) was called *)
| Ignored.            (* "Ignoring event type" *)

Record Handled := mkHandled {
  status : Z;             (* res.status(...) *)
  verification_ran : bool; (* verifyWebhookSignature was called *)
  dispatch : Dispatch
}.

Record Request := mkRequest {
  signature_header : option string;   (* req.headers['calendly-webhook-signature'] *)
  body_event : option string;         (* req.body.event *)
  body_json : string                  (* JSON.stringify(req.body) *)
}.

Section Handler.

(** [crypto.createHmac('sha256', secret).update(payload, 'utf8').digest('base64')] *)
Variable hmac_sha256_base64 : string -> string -> string.

(** [process.env.CALENDLY_WEBHOOK_SECRET] *)
Variable CALENDLY_WEBHOOK_SECRET : option string.

(** [verifyWebhookSignature(payload, signature)]; [None] when it throws. *)
Definition verifyWebhookSignature (payload signature : string) : option bool :=
  match Sync.truthy_opt CALENDLY_WEBHOOK_SECRET with
  | None => Some true
  | Some webhookSecret =>
      let expectedSignature := hmac_sha256_base64 webhookSecret payload in
      timingSafeEqual signature expectedSignature
  end.

(** [handleCalendlyWebhook(req, res)]: [processNewInvitee] catches its own
    errors, so only the verification can reach the outer [catch]. *)
Definition handleCalendlyWebhook (req : Request) : Handled :=
  let payload := body_json req in
  let proceed (ran : bool) :=
    if bool_decide (body_event req = Some "invitee.created")
    then mkHandled 200 ran InviteeCreated
    else mkHandled 200 ran Ignored in
  match Sync.truthy_opt (signature_header req) with
  | Some signature =>
      match verifyWebhookSignature payload signature with
      | Some true => proceed true
      | Some false => mkHandled 401 true NotReached
      | None => mkHandled 500 true NotReached
      end
  | None => proceed false
  end.

End Handler.

(** The payload of an [invitee.created] event, as far as
    [processNewInvitee] reads it. *)
Record Payload := mkPayload {
  pl_email : option string;
  pl_name : option string;
  pl_created_at : option string
}.

(** What [processNewInvitee] does with the in-memory cache. *)
Inductive CacheOp :=
| CacheHas (key : string)
| CacheSet (key : string).

(** [`processed:${email}:${invitee.created_at}`] *)
Definition processedKey (email : string) (created_at : option string) : string :=
  "processed:" +:+ email +:+ ":" +:+
  match created_at with Some s => s | None => "undefined" end.

Section Invitee.

(** [(await sendyService.addSubscriber({ email, name, listId })).success] *)
Variable addSubscriber : string -> option string -> option string -> bool.

(** [process.env.SENDY_LIST_ID] *)
Variable SENDY_LIST_ID : option string.

(** [processNewInvitee(payload)]: the cache after the call and the cache
    operations performed. *)
Definition processNewInvitee (invitee : Payload) (cache : NodeCache.t)
  : NodeCache.t * list CacheOp :=
  match Sync.truthy_opt (pl_email invitee) with
  | None => (cache, [])
  | Some email =>
      let cacheKey := processedKey email (pl_created_at invitee) in
      if NodeCache.has cacheKey cache then (cache, [CacheHas cacheKey])
      else if addSubscriber email (pl_name invitee) SENDY_LIST_ID
           then (NodeCache.set cacheKey true cache, [CacheHas cacheKey; CacheSet cacheKey])
           else (cache, [CacheHas cacheKey])
  end.

End Invitee.

End Webhook.

(* ===================================================================== *)
(** ** Requests with retries: [_requestWithRetry] of the Shopify and the
       Calendly client (the same text in both) *)
(* ===================================================================== *)

Module Retry.

(** What one [this.http.get(url, config)] yields: a response, or an error
    with [err.response?.status], [err.response.headers['retry-after']] and
    its message. *)
Inductive attempt (P : Type) :=
| Got (p : P)
| Failed (status : option Z) (retry_after : option string) (message : string).
Arguments Got {P} _.
Arguments Failed {P} _ _ _.

(** The effects: the [i]-th GET, the pause after a 429 (of
    [parseFloat(header || 1) * 1000 + 500] milliseconds, kept symbolic by
    its header) and the pause after a 5xx. *)
Inductive event :=
| Get (i : nat)
| SleepRetryAfter (header : option string)
| SleepBackoff (ms : Z).

(** How the call ends: with the response, with the error thrown, or (only
    for [retries = 0]) by returning [undefined]. *)
Inductive outcome (P : Type) :=
| Response (p : P)
| Throws (message : string)
| Undefined.
Arguments Response {P} _.
Arguments Throws {P} _.
Arguments Undefined {P}.

Section Loop.
Context {P : Type}.

(** The answer to the [i]-th call of [this.http.get]. *)
Variable http : nat -> attempt P.

(** [for (let i = 0; i < retries; i++)], from [i] on with [left] iterations
    to go ([left = retries - i]). *)
Fixpoint attempts (left i : nat) : outcome P * list event :=
  match left with
  | O => (Undefined, [])
  | S left' =>
      match http i with
      | Got p => (Response p, [Get i])
      | Failed status retry_after message =>
          if bool_decide (left' = 0%nat) then (Throws message, [Get i])   (* isLastAttempt *)
          else if bool_decide (status = Some 429) then
            let '(r, t) := attempts left' (S i) in
            (r, Get i :: SleepRetryAfter retry_after :: t)
          else if match status with
                  | Some s => (500 <=? s) && (s <? 600)
                  | None => false
                  end then
            let '(r, t) := attempts left' (S i) in
            (r, Get i :: SleepBackoff (1000 * 2 ^ Z.of_nat i) :: t)
          else (Throws message, [Get i])
      end
  end.

(** [_requestWithRetry(url, config, retries)] *)
Definition _requestWithRetry (retries : nat) : outcome P * list event :=
  attempts retries 0.

End Loop.

End Retry.

(* ===================================================================== *)
(** ** The Sendy service of the webhook receiver: src/services/sendyService.js *)
(* ===================================================================== *)

Module SendyService.
Import JS Remote.

(** What [axios.post(url, data, ...)] yields: a response body, or an error
    with a response ([error.response]), without one but with a request
    ([error.request]), or neither. *)
Inductive posted :=
| Answered (data : jsdata)
| HttpError (status : Z) (data : jsdata)
| NoResponse
| OtherError (message : string).

Inductive message :=
| Text (s : string)
| Raw (data : jsdata).      (* [message: result], the body as received *)

Record AddResult := mkAddResult { success : bool; message_of : message }.

(** [addSubscriber({ email, name, listId })]; [post] receives the fields of
    the form: email, [name || ''] and list. *)
Definition addSubscriber (post : string -> string -> option string -> posted)
    (email : string) (name : option string) (listId : option string) : AddResult :=
  match post email (default EmptyString (Sync.truthy_opt name)) listId with
  | Answered result =>
      let is_text (t : string) :=
        match result with DStr s => str_eqb s t | _ => false end in
      if is_text "true" || match result with DBool true => true | _ => false end
      then mkAddResult true (Text "Subscriber added successfully")
      else if is_text "Already subscribed."
      then mkAddResult true (Text "Already subscribed")
      else mkAddResult false (Raw result)
  | HttpError status data =>
      mkAddResult false
        (Text ("Sendy API error: " +:+ to_String (DNum status) +:+ " - " +:+ to_String data))
  | NoResponse => mkAddResult false (Text "Failed to connect to Sendy API")
  | OtherError m => mkAddResult false (Text m)
  end.

End SendyService.

(* ===================================================================== *)
(** * Properties *)
(* ===================================================================== *)

(** ** Strings *)

Import JS.

Lemma lower_char_idem (c : ascii) : lower_char (lower_char c) = lower_char c.
Proof. destruct c as [[] [] [] [] [] [] [] []]; vm_compute; reflexivity. Qed.

Lemma is_ws_lower_char (c : ascii) : is_ws (lower_char c) = is_ws c.
Proof. destruct c as [[] [] [] [] [] [] [] []]; vm_compute; reflexivity. Qed.

Lemma toLowerCase_idem (s : string) : toLowerCase (toLowerCase s) = toLowerCase s.
Proof. induction s as [|c s IH]; simpl; [done|]. by rewrite lower_char_idem, IH. Qed.

Lemma toLowerCase_trimStart (s : string) :
  toLowerCase (trimStart s) = trimStart (toLowerCase s).
Proof.
  induction s as [|c s IH]; simpl; [done|].
  rewrite is_ws_lower_char. by destruct (is_ws c).
Qed.

Lemma toLowerCase_trimEnd (s : string) :
  toLowerCase (trimEnd s) = trimEnd (toLowerCase s).
Proof.
  induction s as [|c s IH]; simpl; [done|].
  rewrite <- IH, is_ws_lower_char.
  destruct (trimEnd s); simpl; [by destruct (is_ws c)|done].
Qed.

Lemma toLowerCase_trim (s : string) : toLowerCase (trim s) = trim (toLowerCase s).
Proof. unfold trim. by rewrite toLowerCase_trimEnd, toLowerCase_trimStart. Qed.

Lemma trimEnd_idem (s : string) : trimEnd (trimEnd s) = trimEnd s.
Proof.
  induction s as [|c s IH]; simpl; [done|].
  destruct (trimEnd s) as [|d t] eqn:E.
  - destruct (is_ws c) eqn:W; simpl; [done|]. by rewrite W.
  - simpl in *. by rewrite IH.
Qed.

(** A string that does not start with white space keeps its head under
    [trimEnd]. *)
Lemma trimStart_trimEnd_head (s : string) :
  trimStart s = s -> trimStart (trimEnd s) = trimEnd s.
Proof.
  destruct s as [|c s]; simpl; [done|].
  destruct (is_ws c) eqn:W.
  - intros H. exfalso.
    assert (L : forall t, (String.length (trimStart t) <= String.length t)%nat).
    { induction t as [|d t IHt]; simpl; [lia|]. destruct (is_ws d); simpl; lia. }
    specialize (L s). rewrite H in L. simpl in L. lia.
  - intros _. destruct (trimEnd s); simpl; by rewrite W.
Qed.

Lemma trimStart_idem (s : string) : trimStart (trimStart s) = trimStart s.
Proof.
  induction s as [|c s IH]; simpl; [done|].
  destruct (is_ws c) eqn:W; [done|]. simpl. by rewrite W.
Qed.

Lemma trim_idem (s : string) : trim (trim s) = trim s.
Proof.
  unfold trim.
  rewrite (trimStart_trimEnd_head (trimStart s)) by apply trimStart_idem.
  apply trimEnd_idem.
Qed.

(** The form every cache key's email has: unchanged by [toLowerCase] and by
    [trim]. *)
Definition normalized (e : string) : Prop := toLowerCase e = e /\ trim e = e.

Lemma normalized_trim_lower (raw : string) : normalized (trim (toLowerCase raw)).
Proof.
  split.
  - by rewrite toLowerCase_trim, toLowerCase_idem.
  - apply trim_idem.
Qed.

Lemma str_eqb_eq (a b : string) : str_eqb a b = true <-> a = b.
Proof. unfold str_eqb. by rewrite bool_decide_eq_true. Qed.

Lemma includes_char_cons (c d : ascii) (s : string) :
  includes_char (String d s) c = bool_decide (c = d) || includes_char s c.
Proof.
  unfold includes_char. simpl.
  destruct s; simpl; by rewrite ?andb_true_r.
Qed.

Lemma is_digit_not_T (c : ascii) : is_digit c = true -> bool_decide ("T"%char = c) = false.
Proof.
  intros H. apply bool_decide_eq_false. intros <-. vm_compute in H. discriminate.
Qed.

(** ** Date window normalization (normalizeDate) *)

Lemma normalizeDate_ymd (d : string) :
  Cli.matches_ymd d = true ->
  Cli.normalizeDate d "since" = d +:+ "T00:00:00Z"
  /\ Cli.normalizeDate d "until" = d +:+ "T23:59:59Z".
Proof.
  intros H. unfold Cli.normalizeDate.
  assert (T : includes_char d "T" = false).
  { unfold Cli.matches_ymd in H.
    do 10 (destruct d as [|? d]; [discriminate|]).
    destruct d; [|discriminate].
    simpl in H. rewrite !andb_true_iff, !bool_decide_eq_true in H.
    destruct_and!. subst. rewrite !includes_char_cons.
    repeat match goal with
           | D : is_digit ?c = true |- _ => rewrite (is_digit_not_T c D); clear D
           end.
    reflexivity. }
  rewrite H, T.
  destruct d; [discriminate|]. simpl. done.
Qed.

Lemma normalizeDate_with_time (v kind : string) :
  includes_char v "T" = true -> Cli.normalizeDate v kind = v.
Proof.
  intros H. unfold Cli.normalizeDate. rewrite H. by destruct (truthy v).
Qed.

Lemma matches_ymd_truthy (d : string) : Cli.matches_ymd d = true -> truthy d = true.
Proof. by destruct d. Qed.

Lemma is_digit_not_eq (c : ascii) : is_digit c = true -> bool_decide (c = "="%char) = false.
Proof.
  intros H. apply bool_decide_eq_false. intros ->. vm_compute in H. discriminate.
Qed.

Lemma matches_ymd_upto_eq (d : string) : Cli.matches_ymd d = true -> upto_eq d = d.
Proof.
  intros H. unfold Cli.matches_ymd in H.
  do 10 (destruct d as [|? d]; [discriminate|]).
  destruct d; [|discriminate].
  simpl in H. rewrite !andb_true_iff, !bool_decide_eq_true in H.
  destruct_and!. subst. simpl.
  repeat match goal with
         | D : is_digit ?c = true |- _ => rewrite (is_digit_not_eq c D); clear D
         end.
  reflexivity.
Qed.

(** --from and --to, in both forms, expand a YYYY-MM-DD value to the start
    and to the end of the day. *)
Lemma from_to_expand (sc : Cli.script) (d : string) :
  Cli.matches_ymd d = true ->
  Cli.since (Cli.parse sc ["--from"; d]) = Some (d +:+ "T00:00:00Z")
  /\ Cli.until (Cli.parse sc ["--to"; d]) = Some (d +:+ "T23:59:59Z")
  /\ Cli.since (Cli.parse sc ["--from=" +:+ d]) = Some (d +:+ "T00:00:00Z")
  /\ Cli.until (Cli.parse sc ["--to=" +:+ d]) = Some (d +:+ "T23:59:59Z").
Proof.
  intros H.
  pose proof (matches_ymd_truthy d H) as T.
  pose proof (matches_ymd_upto_eq d H) as U.
  destruct (normalizeDate_ymd d H) as [S1 S2].
  destruct d as [|c d']; [discriminate|]. clear T.
  destruct sc; repeat split; cbv -[Cli.normalizeDate upto_eq];
    rewrite ?U, ?S1, ?S2; reflexivity.
Qed.

Lemma from_to_expand_witness :
  Cli.since (Cli.parse Cli.Calendly ["--from"; "2025-11-01"]) = Some "2025-11-01T00:00:00Z"
  /\ Cli.until (Cli.parse Cli.Calendly ["--to"; "2025-11-01"]) = Some "2025-11-01T23:59:59Z".
Proof.
  destruct (from_to_expand Cli.Calendly "2025-11-01" eq_refl) as (A & B & _).
  exact (conj A B).
Defined.

(** A value with a time component passes through every date flag
    unchanged. *)
Lemma date_with_time_passes (sc : Cli.script) (v : string) :
  includes_char v "T" = true ->
  Cli.since (Cli.parse sc ["--from"; v]) = Some v
  /\ Cli.until (Cli.parse sc ["--to"; v]) = Some v
  /\ Cli.since (Cli.parse sc ["--since"; v]) = Some v
  /\ Cli.until (Cli.parse sc ["--until"; v]) = Some v.
Proof.
  intros H.
  pose proof (normalizeDate_with_time v "since" H) as S1.
  pose proof (normalizeDate_with_time v "until" H) as S2.
  destruct v as [|c v']; [discriminate|].
  destruct sc; repeat split; cbv -[Cli.normalizeDate];
    rewrite ?S1, ?S2; reflexivity.
Qed.

(** C6 (defect): the README documents the expansion of YYYY-MM-DD for
    --from/--since and --to/--until alike, but [run] passes the value of
    --since and --until (in both forms) to the options as given;
    only --from and --to go through [normalizeDate]. *)
Theorem since_until_not_expanded (sc : Cli.script) :
  Cli.since (Cli.parse sc ["--since"; "2025-11-01"]) = Some "2025-11-01"
  /\ Cli.until (Cli.parse sc ["--until"; "2025-11-01"]) = Some "2025-11-01"
  /\ Cli.since (Cli.parse sc ["--since=2025-11-01"]) = Some "2025-11-01"
  /\ Cli.until (Cli.parse sc ["--until=2025-11-01"]) = Some "2025-11-01"
  /\ Cli.since (Cli.parse sc ["--from"; "2025-11-01"]) = Some "2025-11-01T00:00:00Z"
  /\ Cli.until (Cli.parse sc ["--to"; "2025-11-01"]) = Some "2025-11-01T23:59:59Z".
Proof. destruct sc; repeat split; reflexivity. Qed.

(** ** The persistent cache *)

Lemma load_loaded (disk : gmap string FileCache.file) (c : FileCache.t) :
  FileCache._loaded (FileCache.load disk c) = true.
Proof. unfold FileCache.load. by destruct (FileCache._loaded c) eqn:E. Qed.

Lemma load_once (disk : gmap string FileCache.file) (c : FileCache.t) :
  FileCache._loaded c = true -> FileCache.load disk c = c.
Proof. intros H. unfold FileCache.load. by rewrite H. Qed.

Lemma load_filePath (disk : gmap string FileCache.file) (c : FileCache.t) :
  FileCache.filePath (FileCache.load disk c) = FileCache.filePath c.
Proof. unfold FileCache.load. by destruct (FileCache._loaded c). Qed.

Lemma recorded_insert (d : gmap string (gmap string string)) (l : string)
    (m : gmap string string) (l' e' : string) :
  FileCache.recorded (<[l := m]> d) l' e'
  = if decide (l = l')
    then match m !! e' with Some ts => truthy ts | None => false end
    else FileCache.recorded d l' e'.
Proof.
  unfold FileCache.recorded. case_decide; subst.
  - by rewrite lookup_insert_eq.
  - by rewrite lookup_insert_ne.
Qed.

Lemma ensureList_spec (disk : gmap string FileCache.file) (l : string) (c : FileCache.t) :
  let '(m, c') := FileCache.ensureList disk l c in
  FileCache.data c' !! l = Some m
  /\ FileCache._loaded c' = true
  /\ FileCache.filePath c' = FileCache.filePath c
  /\ (forall l' e', FileCache.recorded (FileCache.data c') l' e'
                    = FileCache.recorded (FileCache.data (FileCache.load disk c)) l' e')
  /\ (forall e', match m !! e' with Some ts => truthy ts | None => false end
                 = FileCache.recorded (FileCache.data (FileCache.load disk c)) l e').
Proof.
  unfold FileCache.ensureList.
  destruct (FileCache.data (FileCache.load disk c) !! l) as [m|] eqn:E; simpl.
  - repeat split; auto using load_loaded, load_filePath.
    intros e'. unfold FileCache.recorded. by rewrite E.
  - rewrite lookup_insert_eq, load_loaded, load_filePath. repeat split; auto.
    + intros l' e'. rewrite recorded_insert. case_decide; subst; [|done].
      unfold FileCache.recorded. by rewrite E, lookup_empty.
    + intros e'. unfold FileCache.recorded. by rewrite E, lookup_empty.
Qed.

Lemma hasEmail_spec (disk : gmap string FileCache.file) (l e : string) (c : FileCache.t) :
  let '(b, c') := FileCache.hasEmail disk l e c in
  b = FileCache.recorded (FileCache.data (FileCache.load disk c)) l (toLowerCase e)
  /\ FileCache._loaded c' = true
  /\ FileCache.filePath c' = FileCache.filePath c
  /\ (forall l' e', FileCache.recorded (FileCache.data c') l' e'
                    = FileCache.recorded (FileCache.data (FileCache.load disk c)) l' e').
Proof.
  unfold FileCache.hasEmail.
  pose proof (ensureList_spec disk l (FileCache.load disk c)) as H.
  destruct (FileCache.ensureList disk l (FileCache.load disk c)) as [m c'].
  rewrite (load_once disk (FileCache.load disk c)) in H by apply load_loaded.
  rewrite load_filePath in H.
  destruct H as (_ & L & P & Rc & Rm). repeat split; auto.
Qed.

Lemma setEmail_spec (disk : gmap string FileCache.file) (l e w : string) (c : FileCache.t) :
  let c' := FileCache.setEmail disk l e w c in
  FileCache._loaded c' = true
  /\ FileCache.filePath c' = FileCache.filePath c
  /\ (forall l' e', FileCache.recorded (FileCache.data c') l' e'
                    = if decide (l = l' /\ toLowerCase e = e') then truthy w
                      else FileCache.recorded (FileCache.data (FileCache.load disk c)) l' e').
Proof.
  unfold FileCache.setEmail.
  pose proof (ensureList_spec disk l (FileCache.load disk c)) as H.
  destruct (FileCache.ensureList disk l (FileCache.load disk c)) as [m c'].
  rewrite (load_once disk (FileCache.load disk c)) in H by apply load_loaded.
  rewrite load_filePath in H.
  destruct H as (_ & L & P & Rc & Rm). simpl. repeat split; auto.
  intros l' e'. rewrite recorded_insert.
  destruct (decide (l = l')) as [<-|N].
  - destruct (decide (toLowerCase e = e')) as [<-|N'].
    + rewrite lookup_insert_eq. by rewrite decide_True.
    + rewrite lookup_insert_ne by done. rewrite decide_False by tauto. apply Rm.
  - rewrite decide_False by tauto. apply Rc.
Qed.



(** ** Effects of the Sendy client *)

Import Remote.

(** The email a subscribe effect is for. *)
Definition subscribe_email (ev : event) : option string :=
  match ev with
  | SubscribeCall e _ _ => Some e
  | Http (SubscribeReq _ e _ _) => Some e
  | _ => None
  end.

Definition is_subscribe (ev : event) : Prop := is_Some (subscribe_email ev).

(** Events of one [subscribe] call: requests to /subscribe for that email. *)
Definition subscribe_http (e n l : string) (ev : event) : Prop :=
  exists via, ev = Http (SubscribeReq via e n l).

Definition status_http (e l : string) (ev : event) : Prop :=
  exists via, ev = Http (StatusReq via e l).

Lemma Forall_bind {A B} (P : event -> Prop) (m : eff A) (k : A -> eff B) :
  Forall P (snd m) -> (forall a, Forall P (snd (k a))) -> Forall P (snd (bind m k)).
Proof.
  intros Hm Hk. destruct m as [[a|e] t]; simpl in *; [|done].
  specialize (Hk a). destruct (k a) as [r t']. simpl in *.
  by apply Forall_app.
Qed.

Lemma Forall_ret {A} (P : event -> Prop) (a : A) : Forall P (snd (ret a)).
Proof. constructor. Qed.

Lemma Forall_send (P : event -> Prop) (R : remote) (rq : request) :
  P (Http rq) -> Forall P (snd (send R rq)).
Proof. intros H. by repeat constructor. Qed.

Ltac eff_events :=
  repeat first
    [ apply Forall_ret
    | apply Forall_send; eexists; reflexivity
    | apply Forall_bind; [|intros ?]
    | match goal with |- context [if ?b then _ else _] => destruct b end ].

Lemma subscribe_events (R : remote) (https : bool) (e n l : string) :
  Forall (subscribe_http e n l) (snd (SendyClient.subscribe R https e n l)).
Proof.
  unfold SendyClient.subscribe.
  assert (H : Forall (subscribe_http e n l) (snd (SendyClient.response_text R https e n l))).
  { unfold SendyClient.response_text, SendyClient.attemptFallback_noData,
      SendyClient.attemptFallback_empty. eff_events. }
  destruct (SendyClient.response_text R https e n l) as [[[text code]|m] t]; exact H.
Qed.

Lemma getSubscriberStatus_events (R : remote) (https : bool) (e l : string) :
  Forall (status_http e l) (snd (SendyClient.getSubscriberStatus R https e l)).
Proof.
  unfold SendyClient.getSubscriberStatus.
  assert (H : Forall (status_http e l) (snd (SendyClient.status_text R https e l))).
  { unfold SendyClient.status_text. eff_events. }
  destruct (SendyClient.status_text R https e l) as [[raw|m] t]; exact H.
Qed.

(** ** Classification of the subscribe response *)











(** ** bulkSubscribe *)

Section Bulk.

Variable R : remote.
Variable https : bool.
Variable lst : string.
Variable throttleMs : num.

(** What one item contributes to the results and to the effects. *)
Definition item_result (dryRun : bool) (it : Candidate) : SendyClient.Result :=
  if dryRun then SendyClient.mkResult (email it) false true "dry-run" None
  else
    let res := fst (SendyClient.subscribe R https (email it) (name it) lst) in
    SendyClient.mkResult (email it) (SendyClient.success res) false
      (SendyClient.message res) (SendyClient.statusCode res).

Definition item_events (dryRun : bool) (it : Candidate) : list event :=
  if dryRun then []
  else SubscribeCall (email it) (name it) lst
       :: snd (SendyClient.subscribe R https (email it) (name it) lst) ++ [Sleep throttleMs].

Lemma subscribe_batch_spec (dryRun : bool) (batch : list Candidate)
    (results : list SendyClient.Result) (tr : list event) :
  SendyClient.subscribe_batch R https lst dryRun throttleMs batch results tr
  = (results ++ map (item_result dryRun) batch, tr ++ concat (map (item_events dryRun) batch)).
Proof.
  revert results tr. induction batch as [|it batch IH]; intros results tr; simpl.
  - by rewrite !app_nil_r.
  - unfold item_result, item_events. destruct dryRun.
    + rewrite IH. simpl. by rewrite <- !app_assoc.
    + destruct (SendyClient.subscribe R https (email it) (name it) lst) as [res t] eqn:E.
      rewrite IH. simpl. f_equal; rewrite <- !app_assoc; simpl; try done.
      by rewrite <- !app_assoc.
Qed.

Lemma slice_subseteq {A} (l : list A) (a b : num) : slice l a b ⊆ l.
Proof.
  unfold slice. intros x Hx.
  apply elem_of_take in Hx as (i & Hx & _).
  rewrite lookup_drop in Hx. by eapply list_elem_of_lookup_2.
Qed.

(** Whatever the batch size and the iteration bound, the results and the
    effects are those of some items of the queue, in the order handled. *)
Lemma bulk_loop_items (dryRun : bool) (fuel : nat) (items : list Candidate) (batchSize i : num)
    (results : list SendyClient.Result) (tr : list event) :
  exists handled,
    handled ⊆ items
    /\ SendyClient.results
         (SendyClient.bulk_loop fuel R https lst items dryRun batchSize throttleMs i results tr)
       = results ++ map (item_result dryRun) handled
    /\ SendyClient.trace
         (SendyClient.bulk_loop fuel R https lst items dryRun batchSize throttleMs i results tr)
       = tr ++ concat (map (item_events dryRun) handled).
Proof.
  revert i results tr. induction fuel as [|fuel IH]; intros i results tr; simpl.
  - exists []. destruct (num_lt i _); simpl; rewrite !app_nil_r;
      (split_and!; [by intros ? ?%elem_of_nil|done|done]).
  - destruct (num_lt i _);
      [|exists []; simpl; rewrite !app_nil_r;
        (split_and!; [by intros ? ?%elem_of_nil|done|done])].
    rewrite subscribe_batch_spec.
    destruct (IH (num_add i batchSize)
                (results ++ map (item_result dryRun) (slice items i (num_add i batchSize)))
                (tr ++ concat (map (item_events dryRun) (slice items i (num_add i batchSize)))))
      as (h & Hh & Hr & Ht).
    exists (slice items i (num_add i batchSize) ++ h). split_and!.
    + intros x Hx. apply elem_of_app in Hx as [Hx|Hx]; [by eapply slice_subseteq|by apply Hh].
    + rewrite Hr. by rewrite map_app, app_assoc.
    + rewrite Ht. by rewrite map_app, concat_app, app_assoc.
Qed.

Lemma slice_chunk {A} (l : list A) (k n : Z) :
  0 <= k -> 1 <= n ->
  slice l (Some k) (Some (k + n)) = take (Z.to_nat n) (drop (Z.to_nat k) l).
Proof.
  intros Hk Hn. unfold slice, rel_index.
  rewrite (proj2 (Z.ltb_ge k 0)) by lia.
  rewrite (proj2 (Z.ltb_ge (k + n) 0)) by lia.
  destruct (Z.le_gt_cases (Z.of_nat (length l)) k) as [Hle|Hgt].
  - rewrite !Z.min_r by lia. rewrite Z.sub_diag, Nat2Z.id.
    rewrite drop_all. change (Z.to_nat 0) with 0%nat.
    rewrite drop_ge by lia. by rewrite !take_nil.
  - rewrite (Z.min_l k) by lia.
    destruct (Z.le_gt_cases (k + n) (Z.of_nat (length l))) as [Hle'|Hgt'].
    + rewrite Z.min_l by lia. by replace (k + n - k) with n by lia.
    + rewrite Z.min_r by lia.
      rewrite !take_ge; [done| |]; rewrite length_drop; lia.
Qed.

(** With a batch size of at least one the loop handles every item from
    index [k] on, within [length items - k + 1] iterations. *)
Lemma bulk_loop_complete (dryRun : bool) (fuel : nat) (items : list Candidate) (n k : Z)
    (results : list SendyClient.Result) (tr : list event) :
  1 <= n -> 0 <= k -> (Z.of_nat (length items) - k < Z.of_nat fuel) ->
  SendyClient.bulk_loop fuel R https lst items dryRun (Some n) throttleMs (Some k) results tr
  = SendyClient.mkBulk true
      (results ++ map (item_result dryRun) (drop (Z.to_nat k) items))
      (tr ++ concat (map (item_events dryRun) (drop (Z.to_nat k) items))).
Proof.
  intros Hn. revert k results tr.
  induction fuel as [|fuel IH]; intros k results tr Hk Hf.
  - simpl. rewrite (proj2 (Z.ltb_ge k _)) by lia.
    rewrite drop_ge by lia. simpl. by rewrite !app_nil_r.
  - simpl. destruct (k <? Z.of_nat (length items)) eqn:E.
    + apply Z.ltb_lt in E.
      rewrite subscribe_batch_spec, slice_chunk by lia.
      rewrite IH by lia.
      rewrite <- !app_assoc, <- concat_app, <- !map_app.
      replace (Z.to_nat (k + n)) with (Z.to_nat k + Z.to_nat n)%nat by lia.
      rewrite <- (drop_drop items (Z.to_nat n) (Z.to_nat k)).
      by rewrite take_drop.
    + apply Z.ltb_ge in E. rewrite drop_ge by lia. simpl. by rewrite !app_nil_r.
Qed.

End Bulk.

(** ** One iteration of the per-record loop *)

Section Step.

Variable R : remote.
Variable https : bool.
Variable disk : gmap string FileCache.file.
Variable opts : Cli.Opts.
Variable L : string.
Variable when : string.

Abbreviation step := (Sync.processRecord R https disk opts L when).

(** The answer of the status check for an email. *)
Definition status_of (e : string) : SendyClient.StatusResult :=
  fst (SendyClient.getSubscriberStatus R https e L).

Definition reports (s : SendyClient.StatusResult) (v : string) : bool :=
  match s with
  | SendyClient.StatusOk _ n => str_eqb n v
  | SendyClient.StatusErr _ => false
  end.

(** The four answers after which the record is skipped. *)
Definition skip_status (s : SendyClient.StatusResult) : bool :=
  reports s "subscribed" || reports s "unsubscribed"
  || reports s "bounced" || reports s "complained".

(** The in-memory and the persistent short-circuit, as the loop evaluates
    them for a record. *)
Definition mem_short (st : Sync.State) (r : Candidate) : bool :=
  negb (Cli.noCache opts) && NodeCache.hit (Sync.cacheKey L (email r)) (Sync.mem st).

Definition file_short (st : Sync.State) (r : Candidate) : bool :=
  negb (Cli.noPersistentCache opts)
  && fst (FileCache.hasEmail disk L (toLowerCase (email r)) (Sync.fcache st)).

Definition checked (st : Sync.State) (r : Candidate) : bool :=
  negb (mem_short st r) && negb (file_short st r).

(** The events an iteration can add for a record. *)
Inductive about (r : Candidate) : event -> Prop :=
| about_FileHas : about r (FileHas L (toLowerCase (toLowerCase (email r))))
| about_FileSet : about r (FileSet L (toLowerCase (toLowerCase (email r))))
| about_MemGet : about r (MemGet (Sync.cacheKey L (email r)))
| about_MemSet : about r (MemSet (Sync.cacheKey L (email r)))
| about_StatusCall : about r (StatusCall (email r) L)
| about_Http via : about r (Http (StatusReq via (email r) L)).

Lemma about_status_http (r : Candidate) (t : list event) :
  Forall (status_http (email r) L) t -> Forall (about r) t.
Proof. intros H. eapply Forall_impl; [exact H|]. intros ev [via ->]. constructor. Qed.

Ltac step_cases st r :=
  unfold checked, skip_status, mem_short, file_short, reports, status_of,
    Sync.processRecord, Sync.route, Sync.file_has, Sync.mem_hit, Sync.mem_set,
    Sync.file_set in *;
  pose proof (getSubscriberStatus_events R https (email r) L) as Hhttp;
  pose proof (about_status_http r _ Hhttp) as Hev;
  destruct (Cli.noPersistentCache opts) eqn:HnoP, (Cli.noCache opts) eqn:HnoC;
  try (let hp := fresh "hp" in
       destruct (FileCache.hasEmail disk L (toLowerCase (email r)) (Sync.fcache st))
         as [hp ?] eqn:HE;
       destruct hp);
  try destruct (NodeCache.hit (Sync.cacheKey L (email r)) (Sync.mem st)) eqn:HM;
  destruct (SendyClient.getSubscriberStatus R https (email r) L) as [[? ?|?] ?] eqn:HS;
  cbn [fst snd] in *;
  repeat match goal with
         | |- context [str_eqb ?n ?v] => destruct (str_eqb n v) eqn:?
         end;
  simpl in *;
  repeat match goal with
         | H : NodeCache.hit _ _ = _ |- _ => rewrite H
         end;
  simpl in *.

(** Case analysis of a membership hypothesis over the events of one
    iteration. *)
Ltac mem_inv H :=
  rewrite ?elem_of_app, ?elem_of_cons, ?elem_of_nil in H;
  destruct_or?; try discriminate; try done;
  try match goal with
      | Hl : Forall (status_http _ _) ?l, Hin : _ ∈ ?l |- _ =>
          rewrite Forall_forall in Hl; destruct (Hl _ Hin) as [? ?]; discriminate
      end.

(** The queue: the record is appended exactly when it was checked and the
    answer is none of the four skip answers. *)
Lemma step_queue (st : Sync.State) (r : Candidate) :
  Sync.toSubscribe (step st r)
  = if checked st r && negb (skip_status (status_of (email r)))
    then Sync.toSubscribe st ++ [r] else Sync.toSubscribe st.
Proof. step_cases st r; reflexivity. Qed.

(** The effects: all about this record; the status check is called exactly
    when neither short-circuit applies, and nothing is subscribed. *)
Lemma step_trace (st : Sync.State) (r : Candidate) :
  exists evs,
    Sync.trace (step st r) = Sync.trace st ++ evs
    /\ Forall (about r) evs
    /\ (StatusCall (email r) L ∈ evs <-> checked st r = true)
    /\ (FileSet L (toLowerCase (toLowerCase (email r))) ∈ evs ->
          checked st r = true /\ reports (status_of (email r)) "subscribed" = true
          /\ Cli.noPersistentCache opts = false)
    /\ (checked st r = false ->
          Forall (fun ev => exists k, ev = FileHas L k \/ ev = MemGet k) evs).
Proof.
  step_cases st r;
    eexists; (split; [rewrite <- ?app_assoc; reflexivity|]);
    split_and!;
    try (intros Hin; mem_inv Hin; fail);
    try (split; [intros Hin; mem_inv Hin|intros Hc; try discriminate Hc]);
    try done;
    try (repeat first [apply Forall_nil_2 | apply Forall_cons_2 | apply Forall_app_2
                      | assumption | constructor ]; fail);
    try (rewrite ?elem_of_app, ?elem_of_cons; auto 10; fail);
    try (intros _; repeat first [apply Forall_nil_2 | apply Forall_cons_2]; eauto; fail).
Qed.

Lemma hit_set (k k' : string) (m : gmap string bool) :
  NodeCache.hit k (NodeCache.set k' true m) = bool_decide (k = k') || NodeCache.hit k m.
Proof.
  unfold NodeCache.hit, NodeCache.get, NodeCache.set.
  destruct (decide (k = k')) as [->|N].
  - rewrite lookup_insert_eq. by rewrite bool_decide_eq_true_2.
  - rewrite lookup_insert_ne by done. by rewrite bool_decide_eq_false_2.
Qed.

(** The in-memory cache only gains entries, and a checked record with a
    skip answer is entered unless --no-cache is given. *)
Lemma step_mem (st : Sync.State) (r : Candidate) :
  (forall k, NodeCache.hit k (Sync.mem st) = true ->
             NodeCache.hit k (Sync.mem (step st r)) = true)
  /\ (Cli.noCache opts = false -> checked st r = true ->
       skip_status (status_of (email r)) = true ->
       NodeCache.hit (Sync.cacheKey L (email r)) (Sync.mem (step st r)) = true)
  /\ (Cli.noCache opts = true -> Sync.mem (step st r) = Sync.mem st).
Proof.
  step_cases st r; split_and!; try done; intros; rewrite ?hit_set;
    rewrite ?bool_decide_eq_true_2 by done; try done;
    by apply orb_true_iff; right.
Qed.


(** The persistent cache is untouched under --no-persistent-cache. *)
Lemma step_fcache_off (st : Sync.State) (r : Candidate) :
  Cli.noPersistentCache opts = true -> Sync.fcache (step st r) = Sync.fcache st.
Proof. intros H. step_cases st r; try done. Qed.

(** Otherwise it stays loaded, keeps every recorded email, and gains at
    most the email of a record found subscribed. *)
Lemma step_fcache_on (st : Sync.State) (r : Candidate) :
  Cli.noPersistentCache opts = false ->
  FileCache._loaded (Sync.fcache st) = true ->
  FileCache._loaded (Sync.fcache (step st r)) = true
  /\ (forall l e, FileCache.recorded (FileCache.data (Sync.fcache st)) l e = true ->
                  FileCache.recorded (FileCache.data (Sync.fcache (step st r))) l e = true)
  /\ (forall l e, FileCache.recorded (FileCache.data (Sync.fcache (step st r))) l e = true ->
                  FileCache.recorded (FileCache.data (Sync.fcache st)) l e = true
                  \/ (l = L /\ e = toLowerCase (toLowerCase (email r))
                      /\ checked st r = true
                      /\ reports (status_of (email r)) "subscribed" = true))
  /\ file_short st r
     = FileCache.recorded (FileCache.data (Sync.fcache st)) L
         (toLowerCase (toLowerCase (email r))).
Proof.
  intros HP HL.
  pose proof (hasEmail_spec disk L (toLowerCase (email r)) (Sync.fcache st)) as HS1.
  assert (X : forall c w,
    FileCache.hasEmail disk L (toLowerCase (email r)) (Sync.fcache st) = (false, c) ->
    FileCache._loaded (FileCache.setEmail disk L (toLowerCase (email r)) w c) = true
    /\ (forall l e, FileCache.recorded (FileCache.data (Sync.fcache st)) l e = true ->
          FileCache.recorded
            (FileCache.data (FileCache.setEmail disk L (toLowerCase (email r)) w c)) l e = true)
    /\ (forall l e,
          FileCache.recorded
            (FileCache.data (FileCache.setEmail disk L (toLowerCase (email r)) w c)) l e = true ->
          FileCache.recorded (FileCache.data (Sync.fcache st)) l e = true
          \/ (l = L /\ e = toLowerCase (toLowerCase (email r))))).
  { intros c w E. rewrite E in HS1. destruct HS1 as (F & Lc & _ & Rc).
    rewrite load_once in F, Rc by done.
    pose proof (setEmail_spec disk L (toLowerCase (email r)) w c) as (L' & _ & S).
    rewrite load_once in S by done.
    split_and!; [done| |].
    - intros l e Hr. rewrite S. case_decide as D.
      + destruct D as [<- <-]. congruence.
      + by rewrite Rc.
    - intros l e Hr. rewrite S in Hr. case_decide as D.
      + destruct D as [<- <-]. by right.
      + left. by rewrite <- Rc. }
  destruct (FileCache.hasEmail disk L (toLowerCase (email r)) (Sync.fcache st))
    as [b c] eqn:E.
  destruct HS1 as (F & Lc & _ & Rc). rewrite load_once in F, Rc by done.
  assert (FS : file_short st r
               = FileCache.recorded (FileCache.data (Sync.fcache st)) L
                   (toLowerCase (toLowerCase (email r)))).
  { unfold file_short. rewrite HP, E. simpl. done. }
  destruct b.
  - (* persistent hit: only the lookup touched the object *)
    split_and!; [| | |done];
      step_cases st r; try congruence; simplify_eq;
      try done; try (intros; rewrite Rc; done);
      try (intros l0 e0 Hr; left; by rewrite <- Rc).
  - specialize (X c). split_and!; [| | |done];
      step_cases st r; try congruence; simplify_eq;
      try done; try (apply X; done);
      try (intros; rewrite Rc; done);
      try (intros l0 e0 Hr; left; by rewrite <- Rc);
      try (intros l0 e0 Hr; apply X in Hr; [|done];
           destruct Hr as [Hr|[-> ->]]; [by left|right; by rewrite ?str_eqb_eq]).
Qed.

End Step.

(** ** The whole per-record loop *)

Section LoopFacts.

Variable R : remote.
Variable https : bool.
Variable disk : gmap string FileCache.file.
Variable opts : Cli.Opts.
Variable L : string.
Variable when : string.

Abbreviation loop := (Sync.processRecords R https disk opts L when).
Abbreviation status := (status_of R https L).
Abbreviation persisted := (fun st l e => FileCache.recorded (FileCache.data (Sync.fcache st)) l e).

Lemma about_StatusCall_inv (r : Candidate) (e l : string) :
  about L r (StatusCall e l) -> e = email r /\ l = L.
Proof. by inversion 1. Qed.

Lemma about_FileSet_inv (r : Candidate) (l k : string) :
  about L r (FileSet l k) -> l = L /\ k = toLowerCase (toLowerCase (email r)).
Proof. by inversion 1. Qed.

(** What the loop does to the trace and to the queue. *)
Lemma loop_effects (rows : list Candidate) (st : Sync.State) :
  exists evs q,
    Sync.trace (loop rows st) = Sync.trace st ++ evs
    /\ Sync.toSubscribe (loop rows st) = Sync.toSubscribe st ++ q
    /\ q `sublist_of` rows
    /\ Forall (fun ev => exists r, r ∈ rows /\ about L r ev) evs
    /\ (forall r, r ∈ q ->
          skip_status (status (email r)) = false /\ StatusCall (email r) L ∈ evs)
    /\ (forall e, StatusCall e L ∈ evs -> skip_status (status e) = false ->
          e ∈ map email q)
    /\ (forall l k, FileSet l k ∈ evs ->
          Cli.noPersistentCache opts = false
          /\ exists r, r ∈ rows /\ l = L /\ k = toLowerCase (toLowerCase (email r))
                       /\ reports (status (email r)) "subscribed" = true).
Proof.
  revert st. induction rows as [|r rows IH]; intros st.
  - exists [], []. simpl. rewrite !app_nil_r. split_and!; try done.
    + intros r Hr. by apply elem_of_nil in Hr.
    + intros e He. by apply elem_of_nil in He.
    + intros l k He. by apply elem_of_nil in He.
  - unfold Sync.processRecords in *. simpl.
    destruct (IH (Sync.processRecord R https disk opts L when st r))
      as (evs2 & q2 & T2 & Q2 & S2 & A2 & P2 & C2 & F2).
    destruct (step_trace R https disk opts L when st r) as (evs1 & T1 & A1 & C1 & F1 & _).
    pose proof (step_queue R https disk opts L when st r) as Q1.
    set (queued := checked disk opts L st r
                   && negb (skip_status (status (email r)))) in *.
    exists (evs1 ++ evs2), ((if queued then [r] else []) ++ q2). split_and!.
    + by rewrite T2, T1, app_assoc.
    + rewrite Q2, Q1. destruct queued; by rewrite <- ?app_assoc, ?app_nil_r.
    + destruct queued; simpl; [by apply sublist_skip|by apply sublist_cons].
    + apply Forall_app. split.
      * eapply Forall_impl; [exact A1|]. intros ev Hev. exists r. split; [left|done].
      * eapply Forall_impl; [exact A2|]. intros ev (r' & Hr' & Hev). exists r'. split; [by right|done].
    + intros r' Hr'. apply elem_of_app in Hr' as [Hr'|Hr'].
      * destruct queued eqn:Eq; [|by apply elem_of_nil in Hr'].
        apply list_elem_of_singleton in Hr' as ->.
        apply andb_true_iff in Eq as [Ec Es]. apply negb_true_iff in Es.
        split; [done|]. apply elem_of_app. left. by apply C1.
      * destruct (P2 r' Hr') as [? ?]. split; [done|]. apply elem_of_app. by right.
    + intros e He Hs. rewrite map_app. apply elem_of_app.
      apply elem_of_app in He as [He|He].
      * left. rewrite Forall_forall in A1.
        destruct (about_StatusCall_inv r e L (A1 _ He)) as [-> _].
        apply C1 in He. unfold queued. rewrite He, Hs. simpl. by left.
      * right. by apply C2.
    + intros l k He. apply elem_of_app in He as [He|He].
      * rewrite Forall_forall in A1.
        destruct (about_FileSet_inv r l k (A1 _ He)) as [-> ->].
        destruct (F1 He) as (_ & Hsub & HP). split; [done|].
        exists r. split_and!; try done. by left.
      * destruct (F2 l k He) as (HP & r' & Hr' & ?). split; [done|].
        exists r'. split; [by right|done].
Qed.

(** What the loop does to the in-memory cache. *)
Lemma loop_mem (rows : list Candidate) (st : Sync.State) :
  (forall k, NodeCache.hit k (Sync.mem st) = true ->
             NodeCache.hit k (Sync.mem (loop rows st)) = true)
  /\ (Cli.noCache opts = true -> Sync.mem (loop rows st) = Sync.mem st).
Proof.
  revert st. induction rows as [|r rows IH]; intros st; [done|].
  unfold Sync.processRecords in *. simpl.
  destruct (IH (Sync.processRecord R https disk opts L when st r)) as [M N].
  destruct (step_mem R https disk opts L when st r) as (M1 & _ & N1).
  split.
  - intros k Hk. apply M, M1, Hk.
  - intros H. by rewrite N, N1.
Qed.

(** What the loop does to the persistent cache object. *)
Lemma loop_fcache_off (rows : list Candidate) (st : Sync.State) :
  Cli.noPersistentCache opts = true -> Sync.fcache (loop rows st) = Sync.fcache st.
Proof.
  intros H. revert st. induction rows as [|r rows IH]; intros st; [done|].
  unfold Sync.processRecords in *. simpl. rewrite IH. by apply step_fcache_off.
Qed.

Lemma loop_fcache_on (rows : list Candidate) (st : Sync.State) :
  Cli.noPersistentCache opts = false ->
  FileCache._loaded (Sync.fcache st) = true ->
  FileCache._loaded (Sync.fcache (loop rows st)) = true
  /\ (forall l e, persisted st l e = true -> persisted (loop rows st) l e = true)
  /\ (forall l e, persisted (loop rows st) l e = true ->
        persisted st l e = true
        \/ (l = L /\ exists r, r ∈ rows /\ e = toLowerCase (toLowerCase (email r))
                               /\ reports (status (email r)) "subscribed" = true)).
Proof.
  intros HP. revert st. induction rows as [|r rows IH]; intros st HL.
  - split_and!; [done|done|]. intros l e H. by left.
  - unfold Sync.processRecords in *. simpl.
    destruct (step_fcache_on R https disk opts L when st r HP HL) as (L1 & M1 & G1 & _).
    destruct (IH _ L1) as (L2 & M2 & G2).
    split_and!; [done| |].
    + intros l e H. by apply M2, M1.
    + intros l e H. apply G2 in H as [H|(-> & r' & Hr' & -> & Hs)].
      * apply G1 in H as [H|(-> & -> & _ & Hs)]; [by left|].
        right. split; [done|]. exists r. split_and!; try done. by left.
      * right. split; [done|]. exists r'. split_and!; try done. by right.
Qed.


End LoopFacts.

(** ** After bulkSubscribe: caching the successes *)

Section AfterBulk.

Variable disk : gmap string FileCache.file.
Variable opts : Cli.Opts.
Variable L : string.
Variable when : string.

(** The emails of the successful results. *)
Definition succeeded (results : list SendyClient.Result) : list string :=
  map SendyClient.r_email (filter (fun r => SendyClient.r_success r = true) results).

Lemma succeeded_cons (res : SendyClient.Result) (results : list SendyClient.Result) :
  succeeded (res :: results)
  = if SendyClient.r_success res then SendyClient.r_email res :: succeeded results
    else succeeded results.
Proof.
  unfold succeeded. rewrite filter_cons.
  destruct (SendyClient.r_success res); by case_decide.
Qed.

(** The events of the loop over the results. *)
Definition cache_event (e : string) (ev : event) : Prop :=
  (ev = MemSet (Sync.cacheKey L e) /\ Cli.noCache opts = false)
  \/ (ev = FileSet L (toLowerCase (toLowerCase e)) /\ Cli.noPersistentCache opts = false).

Lemma cacheSuccess_facts (res : SendyClient.Result) (st : Sync.State) (n : nat) :
  let '(st', n') := Sync.cacheSuccess disk opts L when (st, n) res in
  n' = (n + length (succeeded [res]))%nat
  /\ Sync.toSubscribe st' = Sync.toSubscribe st
  /\ Sync.counters st' = Sync.counters st
  /\ (exists evs, Sync.trace st' = Sync.trace st ++ evs
        /\ Forall (fun ev => exists e, e ∈ succeeded [res] /\ cache_event e ev) evs)
  /\ (forall k, NodeCache.hit k (Sync.mem st) = true -> NodeCache.hit k (Sync.mem st') = true)
  /\ (Cli.noCache opts = true -> Sync.mem st' = Sync.mem st)
  /\ (Cli.noPersistentCache opts = true -> Sync.fcache st' = Sync.fcache st)
  /\ (Cli.noPersistentCache opts = false -> FileCache._loaded (Sync.fcache st) = true ->
        FileCache._loaded (Sync.fcache st') = true
        /\ forall l e, FileCache.recorded (FileCache.data (Sync.fcache st')) l e = true ->
             FileCache.recorded (FileCache.data (Sync.fcache st)) l e = true
             \/ (l = L /\ exists x, x ∈ succeeded [res] /\ e = toLowerCase (toLowerCase x))).
Proof.
  unfold Sync.cacheSuccess, cache_event. rewrite succeeded_cons.
  change (succeeded []) with (@nil string).
  destruct (SendyClient.r_success res) eqn:S; simpl.
  - unfold Sync.file_set, Sync.mem_set.
    destruct (Cli.noPersistentCache opts) eqn:HP, (Cli.noCache opts) eqn:HC; simpl;
      (split_and!; [lia|done|done| | | | | ]); try done.
    + exists []. by rewrite app_nil_r.
    + exists [MemSet (Sync.cacheKey L (SendyClient.r_email res))]. split; [done|].
      apply Forall_singleton. exists (SendyClient.r_email res). split; [by left|by left].
    + intros k Hk. rewrite hit_set, Hk. by rewrite orb_true_r.
    + exists [FileSet L (toLowerCase (toLowerCase (SendyClient.r_email res)))].
      split; [done|]. apply Forall_singleton. exists (SendyClient.r_email res).
      split; [by left|by right].
    + intros _ HL.
      pose proof (setEmail_spec disk L (toLowerCase (SendyClient.r_email res)) when
                    (Sync.fcache st)) as (L' & _ & S').
      rewrite load_once in S' by done. split; [done|].
      intros l e H. rewrite S' in H. case_decide as D; [|by left].
      destruct D as [<- <-]. right. split; [done|].
      exists (SendyClient.r_email res). split; [by left|done].
    + exists [MemSet (Sync.cacheKey L (SendyClient.r_email res));
              FileSet L (toLowerCase (toLowerCase (SendyClient.r_email res)))].
      split; [by rewrite <- app_assoc|].
      repeat apply Forall_cons_2; [| |done];
        exists (SendyClient.r_email res); (split; [by left|]); [by left|by right].
    + intros k Hk. rewrite hit_set, Hk. by rewrite orb_true_r.
    + intros _ HL.
      pose proof (setEmail_spec disk L (toLowerCase (SendyClient.r_email res)) when
                    (Sync.fcache st)) as (L' & _ & S').
      rewrite load_once in S' by done. split; [done|].
      intros l e H. rewrite S' in H. case_decide as D; [|by left].
      destruct D as [<- <-]. right. split; [done|].
      exists (SendyClient.r_email res). split; [by left|done].
  - split_and!; try done; [exists []; by rewrite app_nil_r|].
    intros _ HL. split; [done|]. intros l e H. by left.
Qed.

Lemma succeeded_app_cons (res : SendyClient.Result) (results : list SendyClient.Result)
    (x : string) :
  x ∈ succeeded [res] \/ x ∈ succeeded results -> x ∈ succeeded (res :: results).
Proof.
  rewrite !succeeded_cons. unfold succeeded at 1. simpl.
  destruct (SendyClient.r_success res).
  - intros [H|H]; [apply list_elem_of_singleton in H as ->; by left|by right].
  - intros [H|H]; [by apply elem_of_nil in H|done].
Qed.

Lemma cacheSuccesses_fold (results : list SendyClient.Result) (st : Sync.State) (n : nat) :
  let '(st', n') := fold_left (Sync.cacheSuccess disk opts L when) results (st, n) in
  n' = (n + length (succeeded results))%nat
  /\ Sync.toSubscribe st' = Sync.toSubscribe st
  /\ Sync.counters st' = Sync.counters st
  /\ (exists evs, Sync.trace st' = Sync.trace st ++ evs
        /\ Forall (fun ev => exists e, e ∈ succeeded results /\ cache_event e ev) evs)
  /\ (forall k, NodeCache.hit k (Sync.mem st) = true -> NodeCache.hit k (Sync.mem st') = true)
  /\ (Cli.noCache opts = true -> Sync.mem st' = Sync.mem st)
  /\ (Cli.noPersistentCache opts = true -> Sync.fcache st' = Sync.fcache st)
  /\ (Cli.noPersistentCache opts = false -> FileCache._loaded (Sync.fcache st) = true ->
        FileCache._loaded (Sync.fcache st') = true
        /\ forall l e, FileCache.recorded (FileCache.data (Sync.fcache st')) l e = true ->
             FileCache.recorded (FileCache.data (Sync.fcache st)) l e = true
             \/ (l = L /\ exists x, x ∈ succeeded results /\ e = toLowerCase (toLowerCase x))).
Proof.
  revert st n. induction results as [|res results IH]; intros st n.
  - simpl. split_and!; try done; try (unfold succeeded; simpl; lia);
      try (exists []; by rewrite app_nil_r).
    intros _ HL. split; [done|]. intros l e H. by left.
  - cbn [fold_left].
    pose proof (cacheSuccess_facts res st n) as F1.
    destruct (Sync.cacheSuccess disk opts L when (st, n) res) as [st1 n1].
    specialize (IH st1 n1).
    destruct (fold_left (Sync.cacheSuccess disk opts L when) results (st1, n1)) as [st2 n2].
    destruct F1 as (N1 & Q1 & K1 & (evs1 & T1 & A1) & M1 & C1 & P1 & G1).
    destruct IH as (N2 & Q2 & K2 & (evs2 & T2 & A2) & M2 & C2 & P2 & G2).
    split_and!.
    + rewrite N2, N1. rewrite !succeeded_cons. unfold succeeded at 1. simpl.
      destruct (SendyClient.r_success res); simpl; lia.
    + congruence.
    + congruence.
    + exists (evs1 ++ evs2). split; [by rewrite T2, T1, app_assoc|].
      apply Forall_app. split.
      * eapply Forall_impl; [exact A1|]. intros ev (e & He & Hev).
        exists e. split; [|done]. apply succeeded_app_cons. by left.
      * eapply Forall_impl; [exact A2|]. intros ev (e & He & Hev).
        exists e. split; [|done]. apply succeeded_app_cons. by right.
    + intros k Hk. by apply M2, M1.
    + intros H. by rewrite C2, C1.
    + intros H. by rewrite P2, P1.
    + intros HP HL. destruct (G1 HP HL) as [L1 R1]. destruct (G2 HP L1) as [L2 R2].
      split; [done|]. intros l e H.
      apply R2 in H as [H|(-> & x & Hx & ->)].
      * apply R1 in H as [H|(-> & x & Hx & ->)]; [by left|].
        right. split; [done|]. exists x. split; [|done]. apply succeeded_app_cons. by left.
      * right. split; [done|]. exists x. split; [|done]. apply succeeded_app_cons. by right.
Qed.

End AfterBulk.

(** ** The run as a whole *)

Section RunFacts.

Variable R : remote.
Variable https : bool.
Variable when : string.
Variable fuel : nat.
Variable sc : Cli.script.
Variable opts : Cli.Opts.
Variable env : Sync.Env.
Variable disk : gmap string FileCache.file.
Variable mem0 : gmap string bool.
Variable rows : list Candidate.
Variable L : string.

(** The pieces of [run_rows]: the state after the set-up, after the
    per-record loop, and what [bulkSubscribe] returns. *)
Definition start_state : Sync.State :=
  let '(fileCache, _, mem1) :=
    Sync.setup opts (Sync.persistentFilePath sc opts env L) disk mem0 in
  Sync.mkState mem1 fileCache Sync.zero [] [].

Definition start_disk : gmap string FileCache.file :=
  snd (fst (Sync.setup opts (Sync.persistentFilePath sc opts env L) disk mem0)).

Definition loop_state : Sync.State :=
  Sync.processRecords R https start_disk opts L when rows start_state.

Definition run_bulk : SendyClient.Bulk :=
  SendyClient.bulkSubscribe fuel R https L (Sync.toSubscribe loop_state)
    (Cli.dryRun opts) (Cli.batchSize opts) (Cli.throttleMs opts).

Definition final_state : Sync.State * nat :=
  Sync.cacheSuccesses start_disk opts L when (SendyClient.results run_bulk)
    (Sync.log (SendyClient.trace run_bulk) loop_state).

Hypothesis HL : Sync.resolveListId sc opts env = Some L.

Lemma run_rows_pending :
  SendyClient.finished run_bulk = false ->
  Sync.run_rows R https when fuel sc opts env disk mem0 rows
  = Sync.Pending (Sync.trace loop_state ++ SendyClient.trace run_bulk).
Proof.
  intros F. unfold Sync.run_rows. rewrite HL.
  unfold run_bulk, loop_state, start_state, start_disk in *.
  destruct (Sync.setup opts (Sync.persistentFilePath sc opts env L) disk mem0)
    as [[fc d1] m1]. simpl in *. by rewrite F.
Qed.

Lemma run_rows_completed :
  SendyClient.finished run_bulk = true ->
  exists report fc d,
    Sync.run_rows R https when fuel sc opts env disk mem0 rows
    = Sync.Completed report (Sync.mem (fst final_state)) fc d (Sync.trace (fst final_state))
    /\ Sync.rep_subscribed report = snd final_state
    /\ Sync.rep_results report = SendyClient.results run_bulk
    /\ Sync.rep_attempted report = length (Sync.toSubscribe loop_state)
    /\ Sync.rep_checked report = length rows
    /\ Sync.rep_dryRun report = Cli.dryRun opts
    /\ (Cli.noPersistentCache opts = true -> fc = Sync.fcache (fst final_state))
    /\ (forall l e, FileCache.recorded (FileCache.data fc) l e = true ->
          FileCache._loaded (Sync.fcache (fst final_state)) = true ->
          FileCache.recorded (FileCache.data (Sync.fcache (fst final_state))) l e = true).
Proof.
  intros F. unfold Sync.run_rows. rewrite HL.
  pose proof (cacheSuccesses_fold start_disk opts L when (SendyClient.results run_bulk)
                (Sync.log (SendyClient.trace run_bulk) loop_state) 0%nat) as CS.
  unfold final_state, Sync.cacheSuccesses in *.
  unfold run_bulk, loop_state, start_state, start_disk in *.
  destruct (Sync.setup opts (Sync.persistentFilePath sc opts env L) disk mem0)
    as [[fc d1] m1]. simpl in *. rewrite F.
  match goal with
  | |- context [fold_left ?f ?l ?a] => destruct (fold_left f l a) as [st2 n2] eqn:E
  end.
  destruct CS as (_ & Q & _).
  destruct (Cli.noPersistentCache opts) eqn:HP.
  - eexists _, _, _. split; [reflexivity|]. simpl. rewrite Q. split_and!; try done.
  - eexists _, _, _. split; [reflexivity|]. simpl. rewrite Q. split_and!; try done.
    intros l e H Hl.
    pose proof (ensureList_spec d1 L (Sync.fcache st2)) as ES.
    destruct (FileCache.ensureList d1 L (Sync.fcache st2)) as [m c'].
    destruct ES as (_ & _ & _ & Rc & _). simpl in H.
    rewrite Rc in H. by rewrite load_once in H.
Qed.

End RunFacts.

Section RunTrace.

Variable R : remote.
Variable https : bool.
Variable when : string.
Variable fuel : nat.
Variable sc : Cli.script.
Variable opts : Cli.Opts.
Variable env : Sync.Env.
Variable disk : gmap string FileCache.file.
Variable mem0 : gmap string bool.
Variable rows : list Candidate.
Variable L : string.

Abbreviation out := (Sync.run_rows R https when fuel sc opts env disk mem0 rows).
Abbreviation st_loop := (loop_state R https when sc opts env disk mem0 rows L).
Abbreviation bulk := (run_bulk R https when fuel sc opts env disk mem0 rows L).

Hypothesis HL : Sync.resolveListId sc opts env = Some L.

Lemma start_state_fresh :
  Sync.trace (start_state sc opts env disk mem0 L) = []
  /\ Sync.toSubscribe (start_state sc opts env disk mem0 L) = [].
Proof.
  unfold start_state.
  by destruct (Sync.setup opts (Sync.persistentFilePath sc opts env L) disk mem0) as [[? ?] ?].
Qed.

(** The effects of a run: those of the loop, then those of bulkSubscribe,
    then the caching of the successes. *)
Lemma run_trace :
  exists evs_cache,
    Sync.trace_of out = Sync.trace st_loop ++ SendyClient.trace bulk ++ evs_cache
    /\ Forall (fun ev => exists e, e ∈ succeeded (SendyClient.results bulk)
                                   /\ cache_event opts L e ev) evs_cache.
Proof.
  destruct (SendyClient.finished bulk) eqn:F.
  - destruct (run_rows_completed R https when fuel sc opts env disk mem0 rows L HL F)
      as (report & fc & d & -> & _).
    pose proof (cacheSuccesses_fold (start_disk sc opts env disk mem0 L) opts L when
                  (SendyClient.results bulk)
                  (Sync.log (SendyClient.trace bulk) st_loop) 0%nat) as CS.
    unfold final_state, Sync.cacheSuccesses.
    destruct (fold_left _ _ _) as [st2 n2].
    destruct CS as (_ & _ & _ & (evs & T & A) & _).
    exists evs. simpl in *. split; [by rewrite T, <- app_assoc|done].
  - rewrite (run_rows_pending R https when fuel sc opts env disk mem0 rows L HL F).
    exists []. simpl. by rewrite app_nil_r.
Qed.

Lemma elem_of_concat_map {A B} (f : A -> list B) (l : list A) (y : B) :
  y ∈ concat (map f l) <-> exists x, x ∈ l /\ y ∈ f x.
Proof.
  induction l as [|a l IH]; simpl.
  - split; [by intros ?%elem_of_nil|by intros (x & ?%elem_of_nil & _)].
  - rewrite elem_of_app, IH. split.
    + intros [H|(x & Hx & Hy)]; [exists a; split; [by left|done]|].
      exists x. split; [by right|done].
    + intros (x & Hx & Hy). apply elem_of_cons in Hx as [->|Hx]; [by left|].
      right. by exists x.
Qed.

Lemma elem_of_map {A B} (f : A -> B) (l : list A) (y : B) :
  y ∈ map f l <-> exists x, x ∈ l /\ y = f x.
Proof.
  induction l as [|a l IH]; simpl.
  - split; [by intros ?%elem_of_nil|by intros (x & ?%elem_of_nil & _)].
  - rewrite elem_of_cons, IH. split.
    + intros [->|(x & Hx & ->)]; [exists a; split; [by left|done]|].
      exists x. split; [by right|done].
    + intros (x & Hx & ->). apply elem_of_cons in Hx as [->|Hx]; [by left|].
      right. by exists x.
Qed.

Lemma item_events_subscribe (dry : bool) (ms : num) (it : Candidate) (ev : event) (x : string) :
  ev ∈ item_events R https L ms dry it -> subscribe_email ev = Some x ->
  dry = false /\ x = email it.
Proof.
  unfold item_events. destruct dry; [by intros ?%elem_of_nil|].
  rewrite elem_of_cons, elem_of_app, list_elem_of_singleton.
  intros [->|[H| ->]]; simpl; [by intros [= <-]| |done].
  pose proof (subscribe_events R https (email it) (name it) L) as E.
  rewrite Forall_forall in E. destruct (E _ H) as [via ->]. simpl. by intros [= <-].
Qed.

(** A subscribe effect of a run is for a queued record, in a run that is
    not a dry run. *)
Lemma run_subscribe_queued (ev : event) (x : string) :
  ev ∈ Sync.trace_of out -> subscribe_email ev = Some x ->
  Cli.dryRun opts = false
  /\ exists it, it ∈ Sync.toSubscribe st_loop /\ email it = x.
Proof.
  intros Hin Hs.
  destruct run_trace as (evs_cache & T & A). rewrite T in Hin.
  apply elem_of_app in Hin as [Hin|Hin]; [|apply elem_of_app in Hin as [Hin|Hin]].
  - exfalso.
    destruct (loop_effects R https (start_disk sc opts env disk mem0 L) opts L when rows
                (start_state sc opts env disk mem0 L)) as (evs & q & T1 & _ & _ & A1 & _).
    unfold loop_state in Hin. rewrite T1 in Hin.
    rewrite (proj1 start_state_fresh) in Hin. simpl in Hin.
    rewrite Forall_forall in A1. destruct (A1 _ Hin) as (r & _ & Hab).
    inversion Hab; subst; discriminate.
  - unfold run_bulk, SendyClient.bulkSubscribe in Hin.
    destruct (bulk_loop_items R https L (Cli.throttleMs opts) (Cli.dryRun opts) fuel
                (Sync.toSubscribe st_loop) (Cli.batchSize opts) (Some 0) [] [])
      as (handled & Hsub & _ & Ht).
    rewrite Ht in Hin. simpl in Hin.
    apply elem_of_concat_map in Hin as (it & Hit & Hev).
    destruct (item_events_subscribe _ _ _ _ _ Hev Hs) as [D ->].
    split; [done|]. exists it. split; [by apply Hsub|done].
  - exfalso. rewrite Forall_forall in A.
    destruct (A _ Hin) as (e & _ & [[-> _]|[-> _]]); discriminate.
Qed.

End RunTrace.

(** ** Dry runs *)







(** ** A concrete world for examples *)

Definition demo_env : Sync.Env := Sync.mkEnv None None None "/work".

(** --list-id L1, everything else at its default. *)
Definition demo_opts : Cli.Opts := Cli.set_listId (Some "L1") Cli.defaults.

(** A Sendy installation that answers every status request with [status]
    and every subscribe request with [answer]. *)
Definition demo_remote (status answer : string) : remote :=
  fun rq =>
    match rq with
    | StatusReq _ _ _ => Resolve (mkResponse (DStr status) 200)
    | SubscribeReq _ _ _ _ => Resolve (mkResponse (DStr answer) 200)
    end.


Definition ann : Sync.Invitee :=
  Sync.mkInvitee (Some "A@Example.com ") "Ann" (Some "2025-01-02T00:00:00Z") (Some "Intro call").

(** ** Cache hits *)






(** ** The insertion-ordered map of the de-duplication loops *)

Lemma map_get_None {V} (k : string) (m : list (string * V)) :
  Sync.map_get k m = None <-> k ∉ map fst m.
Proof.
  induction m as [|[k' v] m IH]; simpl.
  - split; [intros _; apply not_elem_of_nil|done].
  - unfold str_eqb. case_bool_decide as E.
    + subst. split; [done|]. intros H. exfalso. apply H. by left.
    + rewrite IH, not_elem_of_cons. tauto.
Qed.


Lemma map_set_keys {V} (k : string) (v : V) (m : list (string * V)) :
  map fst (Sync.map_set k v m)
  = if bool_decide (k ∈ map fst m) then map fst m else map fst m ++ [k].
Proof.
  induction m as [|[k' v'] m IH]; simpl; [done|].
  unfold str_eqb. destruct (decide (k = k')) as [->|E].
  - rewrite !bool_decide_eq_true_2; [done|by left|done].
  - rewrite (bool_decide_eq_false_2 (k = k')) by done. simpl. rewrite IH.
    destruct (decide (k ∈ map fst m)) as [E1|E1].
    + rewrite !bool_decide_eq_true_2; [done|by right|done].
    + rewrite !bool_decide_eq_false_2; [done| |done].
      rewrite not_elem_of_cons. tauto.
Qed.

Lemma map_set_NoDup {V} (k : string) (v : V) (m : list (string * V)) :
  NoDup (map fst m) -> NoDup (map fst (Sync.map_set k v m)).
Proof.
  intros ND. rewrite map_set_keys. case_bool_decide as E; [done|].
  apply NoDup_app. split_and!; [done| |apply NoDup_singleton].
  intros x Hx Hk. apply list_elem_of_singleton in Hk as ->. done.
Qed.

Lemma map_set_elem {V} (k : string) (v : V) (m : list (string * V)) (k' : string) (v' : V) :
  NoDup (map fst m) ->
  (k', v') ∈ Sync.map_set k v m <-> (k' = k /\ v' = v) \/ (k' <> k /\ (k', v') ∈ m).
Proof.
  induction m as [|[k0 v0] m IH]; simpl; intros ND.
  - rewrite list_elem_of_singleton. split.
    + intros [= -> ->]. by left.
    + intros [[-> ->]|[_ H]]; [done|by apply elem_of_nil in H].
  - apply NoDup_cons in ND as [N1 N2].
    unfold str_eqb. case_bool_decide as E.
    + subst. rewrite !elem_of_cons. split.
      * intros [[= -> ->]|H]; [by left|]. right. split; [|by right].
        intros ->. apply N1. apply elem_of_map. by exists (k0, v').
      * intros [[-> ->]|[N [[= -> ->]|H]]]; [by left|done|by right].
    + rewrite !elem_of_cons, (IH N2). split.
      * intros [[= -> ->]|[[-> ->]|[N H]]]; [right; split; [done|by left]|by left|].
        right. split; [done|by right].
      * intros [[-> ->]|[N [[= -> ->]|H]]]; [right; by left|by left|].
        right. right. done.
Qed.

(** ** The shape shared by the two de-duplication loops *)

Section Upsert.

Context {A : Type}.
Variable Date_parse : string -> num.

(** A record with a key replaces the stored one when none is stored or its
    date is greater. *)
Variable key : A -> option string.
Variable make : string -> A -> Candidate.
Variable date : A -> num.

Definition upsert_step (m : list (string * Candidate)) (a : A) : list (string * Candidate) :=
  match key a with
  | None => m
  | Some k =>
      if match Sync.map_get k m with
         | None => true
         | Some c => num_gt (date a) (Sync.date_or_zero Date_parse (created_at c))
         end
      then Sync.map_set k (make k a) m
      else m
  end.

(** The map after the loop: keys are distinct; every entry was made from a
    source record with that key; every source record with a key has an
    entry. *)
Lemma upsert_structure (l : list A) (m0 : list (string * Candidate)) :
  NoDup (map fst m0) ->
  let m := fold_left upsert_step l m0 in
  NoDup (map fst m)
  /\ (forall k c, (k, c) ∈ m -> (k, c) ∈ m0 \/ exists a, a ∈ l /\ key a = Some k /\ c = make k a)
  /\ (forall k, k ∈ map fst m0 -> k ∈ map fst m)
  /\ (forall a k, a ∈ l -> key a = Some k -> k ∈ map fst m).
Proof.
  revert m0. induction l as [|a l IH]; intros m0 ND; simpl.
  - split_and!; [done|by left|done|]. intros a k H. by apply elem_of_nil in H.
  - assert (ND1 : NoDup (map fst (upsert_step m0 a))).
    { unfold upsert_step. destruct (key a) as [k|]; [|done].
      destruct (match Sync.map_get k m0 with
                | Some c => num_gt (date a) (Sync.date_or_zero Date_parse (created_at c))
                | None => true end); [by apply map_set_NoDup|done]. }
    assert (K1 : forall k, k ∈ map fst m0 -> k ∈ map fst (upsert_step m0 a)).
    { intros k Hk. unfold upsert_step. destruct (key a) as [k'|]; [|done].
      destruct (match Sync.map_get k' m0 with
                | Some c => num_gt (date a) (Sync.date_or_zero Date_parse (created_at c))
                | None => true end); [|done].
      rewrite map_set_keys. case_bool_decide; [done|]. apply elem_of_app. by left. }
    assert (K2 : forall k, key a = Some k -> k ∈ map fst (upsert_step m0 a)).
    { intros k Hk. unfold upsert_step. rewrite Hk.
      destruct (Sync.map_get k m0) as [c|] eqn:G.
      - assert (k ∈ map fst m0).
        { destruct (decide (k ∈ map fst m0)) as [?|N]; [done|].
          apply map_get_None in N. congruence. }
        destruct (num_gt _ _); [|done].
        rewrite map_set_keys. by rewrite bool_decide_eq_true_2.
      - rewrite map_set_keys. apply map_get_None in G.
        rewrite bool_decide_eq_false_2 by done. apply elem_of_app. right. by left. }
    assert (E1 : forall k c, (k, c) ∈ upsert_step m0 a ->
                   (k, c) ∈ m0 \/ (key a = Some k /\ c = make k a)).
    { intros k c H. unfold upsert_step in H. destruct (key a) as [k'|]; [|by left].
      destruct (match Sync.map_get k' m0 with
                | Some c => num_gt (date a) (Sync.date_or_zero Date_parse (created_at c))
                | None => true end); [|by left].
      apply map_set_elem in H as [[-> ->]|[_ H]]; [by right|by left|done]. }
    destruct (IH _ ND1) as (N & E & K & C). split_and!; [done| | |].
    + intros k c H. apply E in H as [H|(a' & Ha' & Hk & ->)].
      * apply E1 in H as [H|[Hk ->]]; [by left|]. right. exists a. split; [by left|done].
      * right. exists a'. split; [by right|done].
    + intros k Hk. by apply K, K1.
    + intros a' k Ha' Hk. apply elem_of_cons in Ha' as [->|Ha'].
      * by apply K, K2.
      * by eapply C.
Qed.

(** When every record with a key carries a valid date, which is also the
    date its entry is later compared by, the entry of a key is made from a
    record whose date is greatest among the records with that key. *)
Definition dated (a : A) (z : Z) : Prop :=
  date a = Some z
  /\ forall k, Sync.date_or_zero Date_parse (created_at (make k a)) = Some z.



End Upsert.

(** ** The rows of the two scripts *)

Section Rows.

Variable Date_parse : string -> num.
Variable now : Z.

Lemma insert_by_date_perm (x : Candidate) (l : list Candidate) :
  Sync.insert_by_date Date_parse x l ≡ₚ x :: l.
Proof.
  induction l as [|y l IH]; simpl; [done|].
  destruct (num_lt _ _); [|done]. rewrite IH. apply Permutation_swap.
Qed.

Lemma sort_by_date_perm (l : list Candidate) : Sync.sort_by_date Date_parse l ≡ₚ l.
Proof.
  unfold Sync.sort_by_date. induction l as [|x l IH]; simpl; [done|].
  by rewrite insert_by_date_perm, IH.
Qed.

(** The three ingredients of the Calendly loop. *)
Definition invitee_key (inv : Sync.Invitee) : option string :=
  (fun raw => trim (toLowerCase raw)) <$> Sync.truthy_opt (Sync.inv_email inv).

Definition invitee_row (k : string) (inv : Sync.Invitee) : Candidate :=
  mkCandidate k (Sync.inv_name inv) (Sync.truthy_opt (Sync.inv_created_at inv))
    (Sync.truthy_opt (Sync.inv_event_name inv)).

Definition invitee_date (inv : Sync.Invitee) : num :=
  match Sync.truthy_opt (Sync.inv_created_at inv) with
  | Some s => Date_parse s
  | None => Some now
  end.

Lemma dedupe_step_upsert (m : list (string * Candidate)) (inv : Sync.Invitee) :
  Sync.dedupe_step Date_parse now m inv
  = upsert_step Date_parse invitee_key invitee_row invitee_date m inv.
Proof.
  unfold Sync.dedupe_step, upsert_step, invitee_key, invitee_row, invitee_date.
  by destruct (Sync.truthy_opt (Sync.inv_email inv)).
Qed.

(** The three ingredients of [extractEmailsFromOrders]. *)
Definition order_key (o : Sync.Order) : option string :=
  Sync.order_email o ≫= (fun e => Sync.truthy_opt (Some e)).

Definition order_row (k : string) (o : Sync.Order) : Candidate :=
  mkCandidate k (Sync.or_str (trim (Sync.order_name o)) (Sync.before_at k))
    (Sync.o_created_at o) (Some (Sync.o_id o)).

Definition order_date (o : Sync.Order) : num :=
  Sync.date_or_zero Date_parse (Sync.o_created_at o).

Lemma extract_step_upsert (m : list (string * Candidate)) (o : Sync.Order) :
  Sync.extract_step Date_parse m o
  = upsert_step Date_parse order_key order_row order_date m o.
Proof.
  unfold Sync.extract_step, upsert_step, order_key, order_row, order_date.
  by destruct (Sync.order_email o ≫= _).
Qed.

Lemma fold_left_ext {A B} (f g : B -> A -> B) (l : list A) (b : B) :
  (forall b a, f b a = g b a) -> fold_left f l b = fold_left g l b.
Proof.
  intros H. revert b. induction l as [|a l IH]; intros b; simpl; [done|]. by rewrite H, IH.
Qed.

Lemma invitee_key_normalized (inv : Sync.Invitee) (k : string) :
  invitee_key inv = Some k -> normalized k.
Proof.
  unfold invitee_key. destruct (Sync.truthy_opt _); [|done].
  intros [= <-]. apply normalized_trim_lower.
Qed.

Lemma order_key_normalized (o : Sync.Order) (k : string) :
  order_key o = Some k -> normalized k /\ truthy k = true.
Proof.
  unfold order_key, Sync.order_email. intros H.
  assert (exists raw, k = trim (toLowerCase raw) /\ truthy k = true) as (raw & -> & T).
  { repeat match type of H with
           | context [match ?x with _ => _ end] => destruct x eqn:?
           end; simpl in H; unfold Sync.truthy_opt in H;
      repeat match type of H with
             | context [if ?x then _ else _] => destruct x eqn:?
             end; simplify_eq; eauto. }
  split; [apply normalized_trim_lower|done].
Qed.

Section Generic.

Context {A : Type}.
Variable key : A -> option string.
Variable make : string -> A -> Candidate.
Variable date : A -> num.
Hypothesis make_email : forall k a, email (make k a) = k.

Abbreviation table l := (fold_left (upsert_step Date_parse key make date) l []).
Abbreviation rows_of l := (Sync.sort_by_date Date_parse (map snd (table l))).

Lemma keyed_emails (m : list (string * Candidate)) :
  Forall (fun kc => email (snd kc) = fst kc) m -> map email (map snd m) = map fst m.
Proof. induction 1 as [|[k c] m H F IH]; simpl in *; [done|]. by rewrite H, IH. Qed.

Lemma table_emails (l : list A) : map email (map snd (table l)) = map fst (table l).
Proof.
  destruct (upsert_structure Date_parse key make date l [] (NoDup_nil_2)) as (_ & E & _).
  apply keyed_emails.
  apply Forall_forall. intros [k c] H. apply E in H as [H|(a & _ & _ & ->)].
  - by apply elem_of_nil in H.
  - simpl. apply make_email.
Qed.

Lemma rows_of_elem (l : list A) (c : Candidate) :
  c ∈ rows_of l <-> (email c, c) ∈ table l.
Proof.
  rewrite sort_by_date_perm, elem_of_map.
  destruct (upsert_structure Date_parse key make date l [] (NoDup_nil_2)) as (_ & E & _).
  split.
  - intros ([k c'] & H & ->). simpl.
    destruct (E _ _ H) as [H'|(a & _ & _ & ->)]; [by apply elem_of_nil in H'|].
    by rewrite make_email.
  - intros H. by exists (email c, c).
Qed.

(** The rows: one per key, each made from a source record with that key,
    and every keyed source record is represented. *)
Lemma rows_of_structure (l : list A) :
  NoDup (map email (rows_of l))
  /\ (forall c, c ∈ rows_of l ->
        exists a, a ∈ l /\ key a = Some (email c) /\ c = make (email c) a)
  /\ (forall a k, a ∈ l -> key a = Some k -> k ∈ map email (rows_of l)).
Proof.
  destruct (upsert_structure Date_parse key make date l [] (NoDup_nil_2)) as (N & E & _ & C).
  split_and!.
  - rewrite sort_by_date_perm, table_emails. exact N.
  - intros c Hc. apply rows_of_elem in Hc.
    destruct (E _ _ Hc) as [H'|(a & Ha & Hk & Hm)]; [by apply elem_of_nil in H'|].
    by exists a.
  - intros a k Ha Hk. rewrite sort_by_date_perm, table_emails. by eapply C.
Qed.


End Generic.

Lemma calendly_rows_eq (invitees : list Sync.Invitee) :
  Sync.calendly_rows Date_parse now invitees
  = Sync.sort_by_date Date_parse
      (map snd (fold_left (upsert_step Date_parse invitee_key invitee_row invitee_date)
                  invitees [])).
Proof.
  unfold Sync.calendly_rows.
  by rewrite (fold_left_ext _ _ invitees [] dedupe_step_upsert).
Qed.

Lemma extract_rows_eq (orders : list Sync.Order) :
  Sync.extractEmailsFromOrders Date_parse orders
  = Sync.sort_by_date Date_parse
      (map snd (fold_left (upsert_step Date_parse order_key order_row order_date) orders [])).
Proof.
  unfold Sync.extractEmailsFromOrders.
  by rewrite (fold_left_ext _ _ orders [] extract_step_upsert).
Qed.

(** Every row of either script carries a lowercased, trimmed email. *)
Lemma calendly_rows_normalized (invitees : list Sync.Invitee) :
  Forall (fun c => normalized (email c)) (Sync.calendly_rows Date_parse now invitees).
Proof.
  rewrite calendly_rows_eq. apply Forall_forall. intros c Hc.
  destruct (rows_of_structure invitee_key invitee_row invitee_date (fun _ _ => eq_refl) invitees)
    as (_ & E & _).
  destruct (E c Hc) as (a & _ & Hk & _). by eapply invitee_key_normalized.
Qed.

Lemma extract_rows_normalized (orders : list Sync.Order) :
  Forall (fun c => normalized (email c)) (Sync.extractEmailsFromOrders Date_parse orders).
Proof.
  rewrite extract_rows_eq. apply Forall_forall. intros c Hc.
  destruct (rows_of_structure order_key order_row order_date (fun _ _ => eq_refl) orders)
    as (_ & E & _).
  destruct (E c Hc) as (a & _ & Hk & _). by eapply order_key_normalized.
Qed.

Lemma customer_rows_normalized (cs : list Sync.Person) :
  Forall (fun c => normalized (email c)) (Sync.customer_rows cs).
Proof.
  unfold Sync.customer_rows. apply Forall_forall. intros c Hc.
  apply list_elem_of_omap in Hc as (p & _ & Hp).
  unfold Sync.customer_row in Hp. destruct (Sync.truthy_opt (Sync.p_email p)); [|done].
  destruct (truthy _); [|done]. injection Hp as <-. apply normalized_trim_lower.
Qed.

End Rows.

(** ** Keys of the two cache layers *)

Lemma length_append (s t : string) :
  String.length (s +:+ t) = (String.length s + String.length t)%nat.
Proof.
  induction s as [|c s IH]; [done|].
  change (String c s +:+ t) with (String c (s +:+ t)). simpl. by rewrite IH.
Qed.

Lemma append_inv_tail (s1 s2 t : string) : s1 +:+ t = s2 +:+ t -> s1 = s2.
Proof.
  revert s2. induction s1 as [|c s1 IH]; intros [|d s2] H.
  - done.
  - apply (f_equal String.length) in H. rewrite !length_append in H. simpl in H. lia.
  - apply (f_equal String.length) in H. rewrite !length_append in H. simpl in H. lia.
  - change (String c (s1 +:+ t) = String d (s2 +:+ t)) in H.
    injection H as -> H. f_equal. by apply IH.
Qed.

Lemma cacheKey_list_inj (l1 l2 e : string) :
  Sync.cacheKey l1 e = Sync.cacheKey l2 e -> l1 = l2.
Proof.
  unfold Sync.cacheKey. intros H.
  apply (inj (String.app "synced:")) in H.
  by apply append_inv_tail in H.
Qed.

Lemma cacheKey_email_inj (l e1 e2 : string) :
  Sync.cacheKey l e1 = Sync.cacheKey l e2 -> e1 = e2.
Proof.
  unfold Sync.cacheKey. intros H.
  by repeat apply (inj (String.app _)) in H.
Qed.

(** A cache effect reads or writes the key of a lowercased, trimmed email
    under the list id [L]. *)
Definition good_key (L : string) (ev : event) : Prop :=
  match ev with
  | MemGet k | MemSet k => exists e, k = Sync.cacheKey L e /\ normalized e
  | FileHas l k | FileSet l k => l = L /\ normalized k
  | _ => True
  end.

Lemma normalized_lower_lower (e : string) :
  normalized e -> toLowerCase (toLowerCase e) = e.
Proof. intros [H _]. by rewrite !H. Qed.

Section RunKeys.

Variable R : remote.
Variable https : bool.
Variable when : string.
Variable fuel : nat.
Variable sc : Cli.script.
Variable opts : Cli.Opts.
Variable env : Sync.Env.
Variable disk : gmap string FileCache.file.
Variable mem0 : gmap string bool.
Variable rows : list Candidate.
Variable L : string.

Hypothesis HL : Sync.resolveListId sc opts env = Some L.

Abbreviation out := (Sync.run_rows R https when fuel sc opts env disk mem0 rows).
Abbreviation st_start := (start_state sc opts env disk mem0 L).
Abbreviation d_start := (start_disk sc opts env disk mem0 L).
Abbreviation st_loop := (loop_state R https when sc opts env disk mem0 rows L).
Abbreviation bulk := (run_bulk R https when fuel sc opts env disk mem0 rows L).
Abbreviation status := (status_of R https L).

(** The queue of a run, with what is known of each queued record. *)
Lemma run_queue :
  exists evs,
    Sync.trace st_loop = evs
    /\ Sync.toSubscribe st_loop `sublist_of` rows
    /\ Forall (fun ev => exists r, r ∈ rows /\ about L r ev) evs
    /\ (forall r, r ∈ Sync.toSubscribe st_loop ->
          skip_status (status (email r)) = false /\ StatusCall (email r) L ∈ evs)
    /\ (forall e, StatusCall e L ∈ evs -> skip_status (status e) = false ->
          e ∈ map email (Sync.toSubscribe st_loop))
    /\ (forall l k, FileSet l k ∈ evs ->
          exists r, r ∈ rows /\ l = L /\ k = toLowerCase (toLowerCase (email r))
                    /\ reports (status (email r)) "subscribed" = true).
Proof.
  unfold loop_state.
  destruct (loop_effects R https d_start opts L when rows st_start)
    as (evs & q & T & Q & S & A & P & C & F).
  destruct (start_state_fresh sc opts env disk mem0 L) as [T0 Q0].
  rewrite T0 in T. rewrite Q0 in Q. simpl in *.
  exists evs. rewrite Q. split_and!; try done.
  intros l k H. by destruct (F l k H) as [_ ?].
Qed.

(** The effects of bulkSubscribe in a run. *)
Lemma run_bulk_events (ev : event) :
  ev ∈ SendyClient.trace bulk ->
  Cli.dryRun opts = false
  /\ exists it, it ∈ Sync.toSubscribe st_loop
       /\ (ev = SubscribeCall (email it) (name it) L
           \/ subscribe_http (email it) (name it) L ev
           \/ ev = Sleep (Cli.throttleMs opts)).
Proof.
  unfold run_bulk, SendyClient.bulkSubscribe. intros Hin.
  destruct (bulk_loop_items R https L (Cli.throttleMs opts) (Cli.dryRun opts) fuel
              (Sync.toSubscribe st_loop) (Cli.batchSize opts) (Some 0) [] [])
    as (handled & Hsub & _ & Ht).
  rewrite Ht in Hin. simpl in Hin.
  apply elem_of_concat_map in Hin as (it & Hit & Hev).
  unfold item_events in Hev. destruct (Cli.dryRun opts); [by apply elem_of_nil in Hev|].
  split; [done|]. exists it. split; [by apply Hsub|].
  rewrite elem_of_cons, elem_of_app, list_elem_of_singleton in Hev.
  destruct Hev as [->|[H| ->]]; [by left| |by right; right].
  right. left.
  pose proof (subscribe_events R https (email it) (name it) L) as E.
  rewrite Forall_forall in E. by apply E.
Qed.

(** A successful result is the result of a queued record. *)
Lemma run_succeeded_queued (e : string) :
  e ∈ succeeded (SendyClient.results bulk) ->
  exists it, it ∈ Sync.toSubscribe st_loop /\ email it = e.
Proof.
  unfold run_bulk, SendyClient.bulkSubscribe. intros Hin.
  destruct (bulk_loop_items R https L (Cli.throttleMs opts) (Cli.dryRun opts) fuel
              (Sync.toSubscribe st_loop) (Cli.batchSize opts) (Some 0) [] [])
    as (handled & Hsub & Hr & _).
  rewrite Hr in Hin. simpl in Hin. unfold succeeded in Hin.
  apply elem_of_map in Hin as (res & Hres & ->).
  apply list_elem_of_filter in Hres as [_ Hres].
  apply elem_of_map in Hres as (it & Hit & ->).
  exists it. split; [by apply Hsub|]. unfold item_result. by destruct (Cli.dryRun opts).
Qed.

Hypothesis Hrows : Forall (fun c => normalized (email c)) rows.

Lemma queue_normalized (it : Candidate) :
  it ∈ Sync.toSubscribe st_loop -> normalized (email it).
Proof.
  destruct run_queue as (evs & _ & S & _).
  intros H. pose proof (proj1 (Forall_forall _ _) Hrows) as Hn. apply Hn.
  by eapply elem_of_sublist.
Qed.

(** Every cache effect of a run uses the key of a normalized email, under
    the run's list id. *)
Lemma run_cache_keys : Forall (good_key L) (Sync.trace_of out).
Proof.
  destruct (run_trace R https when fuel sc opts env disk mem0 rows L HL) as (evs_cache & T & A).
  rewrite T. destruct run_queue as (evs & -> & _ & Ab & _).
  pose proof (proj1 (Forall_forall _ _) Hrows) as Hn.
  repeat apply Forall_app_2.
  - eapply Forall_impl; [exact Ab|]. intros ev (r & Hr & Hab).
    pose proof (Hn r Hr) as N. pose proof (normalized_lower_lower _ N) as E.
    inversion Hab; subst; simpl; rewrite ?E; eauto.
  - apply Forall_forall. intros ev Hev.
    destruct (run_bulk_events ev Hev) as (_ & it & _ & [->|[[via ->]| ->]]); done.
  - eapply Forall_impl; [exact A|]. intros ev (e & He & Hev).
    destruct (run_succeeded_queued e He) as (it & Hit & <-).
    pose proof (queue_normalized it Hit) as N.
    destruct Hev as [[-> _]|[-> _]]; simpl; [eauto|].
    rewrite (normalized_lower_lower _ N). done.
Qed.

End RunKeys.

(** The scripts' rows carry normalized emails. *)
Lemma shopify_rows_normalized (Date_parse : string -> num) (opts : Cli.Opts)
    (customers : list Sync.Person) (orders : list Sync.Order) :
  Forall (fun c => normalized (email c))
    (if str_eqb (toLowerCase (Sync.or_str (Cli.source opts) "orders")) "customers"
     then Sync.customer_rows customers
     else Sync.extractEmailsFromOrders Date_parse orders).
Proof.
  destruct (str_eqb _ _); [apply customer_rows_normalized|apply extract_rows_normalized].
Qed.

(** Entries of one list do not answer lookups under another list id. *)
Lemma fileCache_lists_independent (disk : gmap string FileCache.file)
    (l1 l2 e1 e2 w : string) (c : FileCache.t) :
  l1 <> l2 ->
  fst (FileCache.hasEmail disk l2 e2 (FileCache.setEmail disk l1 e1 w c))
  = fst (FileCache.hasEmail disk l2 e2 c).
Proof.
  intros N.
  pose proof (hasEmail_spec disk l2 e2 (FileCache.setEmail disk l1 e1 w c)) as H1.
  pose proof (hasEmail_spec disk l2 e2 c) as H2.
  pose proof (setEmail_spec disk l1 e1 w c) as (Ld & _ & S).
  destruct (FileCache.hasEmail disk l2 e2 (FileCache.setEmail disk l1 e1 w c)) as [b1 c1].
  destruct (FileCache.hasEmail disk l2 e2 c) as [b2 c2].
  destruct H1 as (-> & _). destruct H2 as (-> & _). simpl.
  rewrite load_once by done. rewrite S. case_decide as D; [by destruct D|done].
Qed.

Lemma nodeCache_lists_independent (l1 l2 e : string) (v : bool) (m : gmap string bool) :
  l1 <> l2 ->
  NodeCache.get (Sync.cacheKey l2 e) (NodeCache.set (Sync.cacheKey l1 e) v m)
  = NodeCache.get (Sync.cacheKey l2 e) m.
Proof.
  intros N. unfold NodeCache.get, NodeCache.set.
  apply lookup_insert_ne. intros H. by apply cacheKey_list_inj in H.
Qed.

(** C9 (amended): every cache effect of a run of the sync scripts, in
    memory or persistent, is keyed by the run's list id together with an
    email that is lowercased and trimmed; the in-memory key determines the
    list id, and an entry made under one list id does not answer a lookup for
    the same email under another list id, in either layer. *)
Theorem cache_keys_use_list_and_normalized_email :
  (forall l1 l2 e, Sync.cacheKey l1 e = Sync.cacheKey l2 e -> l1 = l2)
  /\ (forall l1 l2 e v m, l1 <> l2 ->
        NodeCache.get (Sync.cacheKey l2 e) (NodeCache.set (Sync.cacheKey l1 e) v m)
        = NodeCache.get (Sync.cacheKey l2 e) m)
  /\ (forall disk l1 l2 e w c, l1 <> l2 ->
        fst (FileCache.hasEmail disk l2 e (FileCache.setEmail disk l1 e w c))
        = fst (FileCache.hasEmail disk l2 e c))
  /\ (forall R https when fuel Date_parse now opts env disk mem0 invitees L,
        Sync.resolveListId Cli.Calendly opts env = Some L ->
        Forall (good_key L)
          (Sync.trace_of (Sync.run_calendly R https when fuel Date_parse now opts env disk mem0
                            invitees)))
  /\ (forall R https when fuel Date_parse opts env disk mem0 customers orders L,
        Sync.resolveListId Cli.Shopify opts env = Some L ->
        Forall (good_key L)
          (Sync.trace_of (Sync.run_shopify R https when fuel Date_parse opts env disk mem0
                            customers orders))).
Proof.
  split_and!.
  - apply cacheKey_list_inj.
  - intros. by apply nodeCache_lists_independent.
  - intros. by apply fileCache_lists_independent.
  - intros R https when fuel Date_parse now opts env disk mem0 invitees L HL.
    unfold Sync.run_calendly. apply run_cache_keys; [done|apply calendly_rows_normalized].
  - intros R https when fuel Date_parse opts env disk mem0 customers orders L HL.
    unfold Sync.run_shopify. apply run_cache_keys; [done|apply shopify_rows_normalized].
Qed.

Lemma cache_keys_use_list_and_normalized_email_witness :
  Forall (good_key "L1")
    (Sync.trace_of
       (Sync.run_calendly (demo_remote "Not in list" "1") false "2025-02-01T00:00:00.000Z" 5
          (fun _ => None) 0 demo_opts demo_env ∅ ∅ [ann])).
Proof.
  refine (proj1 (proj2 (proj2 (proj2 cache_keys_use_list_and_normalized_email)))
            (demo_remote "Not in list" "1") false "2025-02-01T00:00:00.000Z" 5%nat
            (fun _ => None) 0 demo_opts demo_env ∅ ∅ [ann] "L1" _).
  reflexivity.
Defined.

(** ** Records the list reports as unsubscribed *)

Lemma reports_unique (s : SendyClient.StatusResult) (a b : string) :
  reports s a = true -> reports s b = true -> a = b.
Proof.
  destruct s as [st n|m]; simpl; [|done].
  rewrite !str_eqb_eq. congruence.
Qed.

Lemma unsubscribed_skips (s : SendyClient.StatusResult) :
  reports s "unsubscribed" = true -> skip_status s = true.
Proof. unfold skip_status. intros ->. by rewrite orb_true_r. Qed.


(** Does the cache file at [path] record [e] for list [L]? *)
Definition file_records (disk : gmap string FileCache.file) (path L e : string) : bool :=
  match disk !! path with
  | Some (FileCache.Stored d) => FileCache.recorded d L e
  | _ => false
  end.

Section LoopMemory.

Variable R : remote.
Variable https : bool.
Variable disk : gmap string FileCache.file.
Variable opts : Cli.Opts.
Variable L : string.
Variable when : string.

(** A record that is checked and gets one of the four skip answers is in
    the in-memory cache after the loop, unless --no-cache is given. *)
Lemma loop_mem_checked (rows : list Candidate) (st : Sync.State) (evs : list event) (e : string) :
  Sync.trace (Sync.processRecords R https disk opts L when rows st) = Sync.trace st ++ evs ->
  Cli.noCache opts = false ->
  StatusCall e L ∈ evs ->
  skip_status (status_of R https L e) = true ->
  NodeCache.hit (Sync.cacheKey L e)
    (Sync.mem (Sync.processRecords R https disk opts L when rows st)) = true.
Proof.
  intros T HC. revert st evs T. induction rows as [|r rows IH]; intros st evs T Hin Hs.
  - simpl in T. rewrite <- (app_nil_r (Sync.trace st)) in T at 1.
    apply app_inv_head in T as <-. by apply elem_of_nil in Hin.
  - unfold Sync.processRecords in *. simpl in *.
    destruct (step_trace R https disk opts L when st r) as (evs1 & T1 & A1 & C1 & _).
    destruct (loop_effects R https disk opts L when rows
                (Sync.processRecord R https disk opts L when st r))
      as (evs2 & q & T2 & _).
    unfold Sync.processRecords in T2. rewrite T2, T1, <- app_assoc in T.
    apply app_inv_head in T as <-.
    apply elem_of_app in Hin as [Hin|Hin].
    + rewrite Forall_forall in A1.
      destruct (about_StatusCall_inv L r e L (A1 _ Hin)) as [-> _].
      apply C1 in Hin.
      destruct (step_mem R https disk opts L when st r) as (_ & M & _).
      destruct (loop_mem R https disk opts L when rows
                  (Sync.processRecord R https disk opts L when st r)) as [Mono _].
      apply Mono. by apply M.
    + by apply (IH _ evs2).
Qed.

End LoopMemory.

Section Start.

Variable sc : Cli.script.
Variable opts : Cli.Opts.
Variable env : Sync.Env.
Variable disk : gmap string FileCache.file.
Variable mem0 : gmap string bool.
Variable L : string.

(** The state in which the per-record loop starts. *)
Lemma start_state_spec :
  let st := start_state sc opts env disk mem0 L in
  Sync.mem st = (if Cli.clearCache opts then ∅ else mem0)
  /\ (Cli.noPersistentCache opts = true ->
        Sync.fcache st = FileCache.new (Sync.persistentFilePath sc opts env L))
  /\ (Cli.noPersistentCache opts = false ->
        FileCache._loaded (Sync.fcache st) = true
        /\ forall l e, FileCache.recorded (FileCache.data (Sync.fcache st)) l e = true ->
             Cli.refreshPersistent opts = false
             /\ file_records disk (Sync.persistentFilePath sc opts env L) l e = true).
Proof.
  unfold start_state, Sync.setup, file_records, FileCache.clear, FileCache.load, FileCache.new.
  destruct (Cli.noPersistentCache opts), (Cli.refreshPersistent opts); simpl;
    split_and!; try done; intros _; (split; [done|]); intros l e; try done.
  destruct (disk !! Sync.persistentFilePath sc opts env L) as [[raw|d]|]; simpl; done.
Qed.

End Start.

Section RunUnsubscribed.

Variable R : remote.
Variable https : bool.
Variable when : string.
Variable fuel : nat.
Variable sc : Cli.script.
Variable opts : Cli.Opts.
Variable env : Sync.Env.
Variable disk : gmap string FileCache.file.
Variable mem0 : gmap string bool.
Variable rows : list Candidate.
Variable L : string.
Variable e : string.

Abbreviation out := (Sync.run_rows R https when fuel sc opts env disk mem0 rows).
Abbreviation st_loop := (loop_state R https when sc opts env disk mem0 rows L).
Abbreviation bulk := (run_bulk R https when fuel sc opts env disk mem0 rows L).
Abbreviation path := (Sync.persistentFilePath sc opts env L).

(** What a run does about an email: no subscribe effect; no write to the
    persistent cache, which after the run records the email only if the file
    already did; and, once the status was checked, an in-memory entry unless
    --no-cache is given (then the in-memory cache is as the run found it). *)
Definition respects_unsubscribe (out : Sync.Outcome) : Prop :=
  (forall ev, ev ∈ Sync.trace_of out -> subscribe_email ev <> Some e)
  /\ (FileSet L e ∉ Sync.trace_of out)
  /\ forall report m f d tr, out = Sync.Completed report m f d tr ->
       (FileCache.recorded (FileCache.data f) L e = true ->
          Cli.noPersistentCache opts = false /\ Cli.refreshPersistent opts = false
          /\ file_records disk path L e = true)
       /\ (Cli.noCache opts = false -> StatusCall e L ∈ tr ->
             NodeCache.hit (Sync.cacheKey L e) m = true)
       /\ (Cli.noCache opts = true -> m = if Cli.clearCache opts then ∅ else mem0).

Hypothesis HL : Sync.resolveListId sc opts env = Some L.
Hypothesis Hrows : Forall (fun c => normalized (email c)) rows.
Hypothesis Hun : reports (status_of R https L e) "unsubscribed" = true.

Lemma unsubscribed_not_queued (it : Candidate) :
  it ∈ Sync.toSubscribe st_loop -> email it <> e.
Proof.
  intros Hit <-.
  destruct (run_queue R https when sc opts env disk mem0 rows L) as (evs & _ & _ & _ & P & _).
  destruct (P it Hit) as [Hs _]. by rewrite (unsubscribed_skips _ Hun) in Hs.
Qed.

Lemma unsubscribed_not_succeeded (x : string) :
  x ∈ succeeded (SendyClient.results bulk) -> toLowerCase (toLowerCase x) <> e.
Proof.
  intros Hx.
  destruct (run_succeeded_queued R https when fuel sc opts env disk mem0 rows L x Hx)
    as (it & Hit & <-).
  rewrite (normalized_lower_lower _ (queue_normalized R https when sc opts env disk mem0 rows L
                                       Hrows it Hit)).
  by apply unsubscribed_not_queued.
Qed.

Lemma unsubscribed_not_found_subscribed (r : Candidate) :
  r ∈ rows -> reports (status_of R https L (email r)) "subscribed" = true ->
  toLowerCase (toLowerCase (email r)) <> e.
Proof.
  intros Hr Hs. pose proof (proj1 (Forall_forall _ _) Hrows r Hr) as N.
  rewrite (normalized_lower_lower _ N). intros E. rewrite E in Hs.
  by pose proof (reports_unique _ _ _ Hs Hun).
Qed.

Lemma run_respects_unsubscribe : respects_unsubscribe out.
Proof.
  pose proof (start_state_spec sc opts env disk mem0 L) as (M0 & F0 & F1).
  destruct (run_queue R https when sc opts env disk mem0 rows L)
    as (evs & Tl & _ & _ & _ & _ & Fs).
  destruct (run_trace R https when fuel sc opts env disk mem0 rows L HL) as (evs_c & T & Ac).
  split_and!.
  - intros ev Hin Hs.
    destruct (run_subscribe_queued R https when fuel sc opts env disk mem0 rows L HL ev e Hin Hs)
      as (_ & it & Hit & E).
    by apply (unsubscribed_not_queued it).
  - rewrite T, Tl. rewrite !elem_of_app. intros [Hin|[Hin|Hin]].
    + destruct (Fs _ _ Hin) as (r & Hr & _ & E & Hs).
      by apply (unsubscribed_not_found_subscribed r).
    + destruct (run_bulk_events R https when fuel sc opts env disk mem0 rows L _ Hin)
        as (_ & it & _ & [?|[[via ?]|?]]); discriminate.
    + rewrite Forall_forall in Ac. destruct (Ac _ Hin) as (x & Hx & [[? _]|[E _]]); [done|].
      injection E as E. by apply (unsubscribed_not_succeeded x).
  - intros report m f d tr E.
    destruct (SendyClient.finished bulk) eqn:Fin;
      [|by rewrite (run_rows_pending R https when fuel sc opts env disk mem0 rows L HL Fin) in E].
    destruct (run_rows_completed R https when fuel sc opts env disk mem0 rows L HL Fin)
      as (report' & fc & d' & E' & _ & _ & _ & _ & _ & Foff & Fon).
    rewrite E' in E. injection E as <- <- <- <- <-.
    pose proof (cacheSuccesses_fold (start_disk sc opts env disk mem0 L) opts L when
                  (SendyClient.results bulk)
                  (Sync.log (SendyClient.trace bulk) st_loop) 0%nat) as CS.
    unfold final_state, Sync.cacheSuccesses in *.
    destruct (fold_left _ _ _) as [st2 n2].
    destruct CS as (_ & _ & _ & (evs2 & T2 & A2) & Mm & Mc & Pc & Pg).
    cbn [fst snd] in *. simpl in Mm, Mc, Pc, Pg.
    split_and!.
    + intros Hrec. destruct (Cli.noPersistentCache opts) eqn:HP.
      * rewrite (Foff eq_refl), (Pc eq_refl) in Hrec. unfold loop_state in Hrec.
        rewrite loop_fcache_off, (F0 eq_refl) in Hrec by done. done.
      * destruct (F1 eq_refl) as [Ld0 Rec0].
        destruct (loop_fcache_on R https (start_disk sc opts env disk mem0 L) opts L when rows
                    (start_state sc opts env disk mem0 L) HP Ld0) as (Ld1 & _ & G1).
        destruct (Pg eq_refl Ld1) as [Ld2 G2].
        apply Fon in Hrec; [|done].
        apply G2 in Hrec as [Hrec|(_ & x & Hx & E)];
          [|by destruct (unsubscribed_not_succeeded x Hx)].
        apply G1 in Hrec as [Hrec|(_ & r & Hr & E & Hs)];
          [|by destruct (unsubscribed_not_found_subscribed r Hr Hs)].
        destruct (Rec0 _ _ Hrec) as [? ?]. done.
    + intros HC Hin. apply Mm.
      rewrite T2 in Hin. simpl in Hin. rewrite Tl in Hin.
      rewrite <- !app_assoc, !elem_of_app in Hin.
      destruct Hin as [Hin|[Hin|Hin]].
      * unfold loop_state in *.
        apply (loop_mem_checked R https _ opts L when rows _ evs); try done.
        -- rewrite Tl. by rewrite (proj1 (start_state_fresh sc opts env disk mem0 L)).
        -- by apply unsubscribed_skips.
      * destruct (run_bulk_events R https when fuel sc opts env disk mem0 rows L _ Hin)
          as (_ & it & _ & [?|[[via ?]|?]]); discriminate.
      * rewrite Forall_forall in A2.
        destruct (A2 _ Hin) as (x & _ & [[? _]|[? _]]); discriminate.
    + intros HC. rewrite (Mc HC). unfold loop_state.
      rewrite (proj2 (loop_mem R https _ opts L when rows _) HC). exact M0.
Qed.

End RunUnsubscribed.

(** C2 (amended): when the list reports an email as unsubscribed, a run of
    either script, whatever the caches hold when it starts, performs no
    subscribe call and no subscribe request for that email and never writes
    it to the persistent cache (which records it after the run only if the
    cache file already did); after the status check the email is in the
    in-memory cache unless --no-cache is given, in which case the run leaves
    the in-memory cache as it found it. *)
Theorem unsubscribed_never_resubscribed :
  forall R https when fuel Date_parse now opts env disk mem0 L e,
    reports (status_of R https L e) "unsubscribed" = true ->
    (forall invitees,
       Sync.resolveListId Cli.Calendly opts env = Some L ->
       respects_unsubscribe Cli.Calendly opts env disk mem0 L e
         (Sync.run_calendly R https when fuel Date_parse now opts env disk mem0 invitees))
    /\ (forall customers orders,
          Sync.resolveListId Cli.Shopify opts env = Some L ->
          respects_unsubscribe Cli.Shopify opts env disk mem0 L e
            (Sync.run_shopify R https when fuel Date_parse opts env disk mem0 customers orders)).
Proof.
  intros R https when fuel Date_parse now opts env disk mem0 L e Hun. split.
  - intros invitees HL. unfold Sync.run_calendly.
    apply run_respects_unsubscribe; [done|apply calendly_rows_normalized|done].
  - intros customers orders HL. unfold Sync.run_shopify.
    apply run_respects_unsubscribe; [done|apply shopify_rows_normalized|done].
Qed.

Lemma unsubscribed_never_resubscribed_witness :
  respects_unsubscribe Cli.Calendly demo_opts demo_env ∅ ∅ "L1" "a@example.com"
    (Sync.run_calendly (demo_remote "Unsubscribed" "1") false "2025-02-01T00:00:00.000Z" 5
       (fun _ => None) 0 demo_opts demo_env ∅ ∅ [ann]).
Proof.
  refine (proj1 (unsubscribed_never_resubscribed (demo_remote "Unsubscribed" "1") false
                   "2025-02-01T00:00:00.000Z" 5%nat (fun _ => None) 0 demo_opts demo_env ∅ ∅
                   "L1" "a@example.com" _) [ann] _); reflexivity.
Defined.

(** C2 as stated fails under --no-cache: the status check answers
    Unsubscribed, the run completes, and the in-memory cache holds no entry
    for the email. *)
Lemma unsubscribed_not_cached_under_no_cache :
  let opts := Cli.set_noCache true demo_opts in
  reports (status_of (demo_remote "Unsubscribed" "1") false "L1" "a@example.com") "unsubscribed"
  = true
  /\ exists report f d tr,
       Sync.run_calendly (demo_remote "Unsubscribed" "1") false "2025-02-01T00:00:00.000Z" 5
         (fun _ => None) 0 opts demo_env ∅ ∅ [ann]
       = Sync.Completed report ∅ f d tr
       /\ StatusCall "a@example.com" "L1" ∈ tr
       /\ NodeCache.hit (Sync.cacheKey "L1" "a@example.com") ∅ = false.
Proof.
  intros opts. split; [reflexivity|].
  eexists _, _, _, _. split_and!; [vm_compute; reflexivity| |reflexivity].
  apply list_elem_of_In. simpl. tauto.
Qed.

(** ** De-duplication and the number of subscribe calls *)

(** The time stamp of a source record: its creation date when present and
    valid. *)
Definition invitee_time (Date_parse : string -> num) (inv : Sync.Invitee) : option Z :=
  Sync.truthy_opt (Sync.inv_created_at inv) ≫= Date_parse.

Definition order_time (Date_parse : string -> num) (o : Sync.Order) : option Z :=
  Sync.truthy_opt (Sync.o_created_at o) ≫= Date_parse.


Lemma truthy_opt_idem (o : option string) : Sync.truthy_opt (Sync.truthy_opt o) = Sync.truthy_opt o.
Proof. destruct o as [s|]; simpl; [|done]. destruct (truthy s) eqn:E; simpl; by rewrite ?E. Qed.

Lemma date_or_zero_truthy (Date_parse : string -> num) (o : option string) :
  Sync.date_or_zero Date_parse (Sync.truthy_opt o) = Sync.date_or_zero Date_parse o.
Proof. unfold Sync.date_or_zero. by rewrite truthy_opt_idem. Qed.

Lemma invitee_dated (Date_parse : string -> num) (now : Z) (inv : Sync.Invitee) (z : Z) :
  invitee_time Date_parse inv = Some z ->
  dated Date_parse invitee_row (invitee_date Date_parse now) inv z.
Proof.
  unfold invitee_time, dated, invitee_date, invitee_row. simpl. intros H.
  setoid_rewrite date_or_zero_truthy. unfold Sync.date_or_zero.
  destruct (Sync.truthy_opt (Sync.inv_created_at inv)); by simpl in *.
Qed.

Lemma order_dated (Date_parse : string -> num) (o : Sync.Order) (z : Z) :
  order_time Date_parse o = Some z ->
  dated Date_parse order_row (order_date Date_parse) o z.
Proof.
  unfold order_time, dated, order_date, order_row. simpl. intros H.
  unfold Sync.date_or_zero.
  destruct (Sync.truthy_opt (Sync.o_created_at o)); by simpl in *.
Qed.


Section KeepsNewest.

Context {A : Type}.
Variable Date_parse : string -> num.
Variable key : A -> option string.
Variable make : string -> A -> Candidate.
Variable date : A -> num.
Variable time : A -> option Z.
Hypothesis make_email : forall k a, email (make k a) = k.
Hypothesis time_dated : forall a z, time a = Some z -> dated Date_parse make date a z.


End KeepsNewest.










Section RunOnce.

Variable R : remote.
Variable https : bool.
Variable when : string.
Variable fuel : nat.
Variable sc : Cli.script.
Variable opts : Cli.Opts.
Variable env : Sync.Env.
Variable disk : gmap string FileCache.file.
Variable mem0 : gmap string bool.
Variable rows : list Candidate.
Variable L : string.
Variable e : string.
Variable n : Z.

Abbreviation out := (Sync.run_rows R https when fuel sc opts env disk mem0 rows).
Abbreviation st_loop := (loop_state R https when sc opts env disk mem0 rows L).
Abbreviation bulk := (run_bulk R https when fuel sc opts env disk mem0 rows L).

Hypothesis HL : Sync.resolveListId sc opts env = Some L.
Hypothesis Hnodup : NoDup (map email rows).
Hypothesis Hdry : Cli.dryRun opts = false.
Hypothesis Hbatch : Cli.batchSize opts = Some n.
Hypothesis Hn : 1 <= n.
Hypothesis Hfuel : (length rows < fuel)%nat.


End RunOnce.


(** [new Date(s).getTime()] for strings of the form YYYY-MM-DDTHH:MM:SSZ
    (the form of the time stamps in the examples); NaN otherwise. *)
Definition days_from_civil (y m d : Z) : Z :=
  let y := if m <=? 2 then y - 1 else y in
  let era := y / 400 in
  let yoe := y - era * 400 in
  let doy := (153 * (if 2 <? m then m - 3 else m + 9) + 2) / 5 + d - 1 in
  let doe := yoe * 365 + yoe / 4 - yoe / 100 + doy in
  era * 146097 + doe - 719468.

Definition iso_utc_ms (s : string) : num :=
  let at_ (i : nat) (c : ascii) := bool_decide (String.get i s = Some c) in
  if bool_decide (String.length s = 20%nat)
     && at_ 4%nat "-"%char && at_ 7%nat "-"%char && at_ 10%nat "T"%char
     && at_ 13%nat ":"%char && at_ 16%nat ":"%char && at_ 19%nat "Z"%char
  then
    match parse_unsigned (substring 0 4 s), parse_unsigned (substring 5 2 s),
          parse_unsigned (substring 8 2 s), parse_unsigned (substring 11 2 s),
          parse_unsigned (substring 14 2 s), parse_unsigned (substring 17 2 s) with
    | Some y, Some mo, Some d, Some h, Some mi, Some sec =>
        Some ((((days_from_civil y mo d * 24 + h) * 60 + mi) * 60 + sec) * 1000)
    | _, _, _, _, _, _ => None
    end
  else None.

Example iso_utc_ms_samples :
  iso_utc_ms "2025-01-01T00:00:00Z" = Some 1735689600000
  /\ iso_utc_ms "2025-01-02T00:00:00Z" = Some 1735776000000
  /\ iso_utc_ms "1970-01-01T00:00:00Z" = Some 0
  /\ iso_utc_ms "yesterday" = None.
Proof. by vm_compute. Qed.

(** Two invitees sharing one email, as in the scenario of the spec. *)
Definition ann_first : Sync.Invitee :=
  Sync.mkInvitee (Some "a@example.com") "Ann (first)" (Some "2025-01-01T00:00:00Z")
    (Some "Intro call").

Definition ann_second : Sync.Invitee :=
  Sync.mkInvitee (Some " A@Example.com") "Ann (second)" (Some "2025-01-02T00:00:00Z")
    (Some "Follow-up").

Example dedupe_scenario :
  Sync.calendly_rows iso_utc_ms 0 [ann_first; ann_second]
  = [mkCandidate "a@example.com" "Ann (second)" (Some "2025-01-02T00:00:00Z") (Some "Follow-up")]
  /\ Sync.calendly_rows iso_utc_ms 0 [ann_second; ann_first]
     = [mkCandidate "a@example.com" "Ann (second)" (Some "2025-01-02T00:00:00Z")
          (Some "Follow-up")].
Proof. by vm_compute. Qed.



(** ** Paginated fetches *)

Import Pagination.

Section ShopifyCap.

Context {A : Type}.
Variable api : nat -> option string -> answer (ShopifyPage A).

(** The provider answers every request with a page that carries a batch
    and a Link header with a next-page URL. *)
Definition always_next : Prop :=
  forall n u, exists p batch,
    api n u = Page p /\ sp_items p = Some batch
    /\ is_Some (_parseNextPageUrl (sp_link p)).

Lemma listOrders_loop_cap (fuel : nat) (orders : list A) (url : option string) (attempts : nat) :
  always_next -> (attempts < maxAttempts)%nat -> (maxAttempts - attempts <= fuel)%nat ->
  exists items, listOrders_loop api fuel orders url attempts = Returned items maxAttempts true.
Proof.
  intros Hn. revert orders url attempts.
  induction fuel as [|fuel IH]; intros orders url attempts Ha Hf; [lia|].
  destruct (Hn attempts url) as (p & batch & Hp & Hb & [next Hnext]).
  simpl. rewrite Hp, Hb, Hnext. case_bool_decide as Hc.
  - assert (S attempts = maxAttempts) as -> by lia. by eexists.
  - apply IH; lia.
Qed.

Lemma listCustomers_loop_cap (fuel : nat) (customers : list A) (url : option string)
    (attempts : nat) :
  always_next -> (attempts < maxAttempts)%nat -> (maxAttempts - attempts <= fuel)%nat ->
  exists items,
    listCustomers_loop api fuel customers url attempts = Returned items maxAttempts true.
Proof.
  intros Hn. revert customers url attempts.
  induction fuel as [|fuel IH]; intros customers url attempts Ha Hf; [lia|].
  destruct (Hn attempts url) as (p & batch & Hp & Hb & [next Hnext]).
  simpl. rewrite Hp, Hb, Hnext. case_bool_decide as Hc.
  - assert (S attempts = maxAttempts) as -> by lia. by eexists.
  - apply IH; lia.
Qed.

End ShopifyCap.

Section CalendlyNoCap.

Context {A : Type}.
Variable api : nat -> calendly_request -> answer (CalendlyBody A).

(** The provider answers every request with a page that carries a
    continuation token. *)
Definition always_token : Prop :=
  forall n rq, exists b tok,
    api n rq = Page b /\ pagination b ≫= next_page_token = Some tok /\ truthy tok = true.

Lemma listInviteesForEvent_loop_forever (fuel : nat) (invitees : list A)
    (pageToken : option string) (requests : nat) :
  always_token ->
  listInviteesForEvent_loop api fuel invitees pageToken requests
  = StillFetching (requests + fuel).
Proof.
  intros Hn. revert invitees pageToken requests.
  induction fuel as [|fuel IH]; intros invitees pageToken requests; simpl.
  - f_equal. lia.
  - destruct (Hn requests (ToPath pageToken)) as (b & tok & Hb & Ht & Htr).
    rewrite Hb, Ht. simpl. rewrite Htr, IH. f_equal. lia.
Qed.

(** The first request of [listScheduledEvents] ends its pagination: the
    response object has no [collection] and no [pagination]. *)
Lemma listScheduledEvents_one_request (fuel : nat) :
  listScheduledEvents_pages api (S fuel)
  = match api 0%nat (ToPath None) with
    | Page _ => Returned [] 1 false
    | Error m => Thrown m 1
    end.
Proof. unfold listScheduledEvents_pages. simpl. by destruct (api 0%nat (ToPath None)). Qed.

End CalendlyNoCap.

(** C7: when the provider never stops offering a next page, the Shopify
    fetches [listOrders] and [listCustomers] stop after 50 requests with a
    warning; [listInviteesForEvent] of the Calendly client has no cap and is
    still fetching after any number of requests; and [listScheduledEvents]
    ends after its first request without a warning, whatever the provider
    answers. *)
Theorem pagination_cap_only_in_shopify_fetches :
  (forall A (api : nat -> option string -> answer (ShopifyPage A)) fuel,
     always_next api -> (maxAttempts <= fuel)%nat ->
     (exists items, listOrders api fuel = Returned items 50 true)
     /\ (exists items, listCustomers api fuel = Returned items 50 true))
  /\ (forall A (api : nat -> calendly_request -> answer (CalendlyBody A)) fuel,
        always_token api -> listInviteesForEvent api fuel = StillFetching fuel)
  /\ (forall A (api : nat -> calendly_request -> answer (CalendlyBody A)) fuel,
        always_token api ->
        listScheduledEvents_pages api (S fuel) = Returned [] 1 false).
Proof.
  split_and!.
  - intros A api fuel Hn Hf. unfold listOrders, listCustomers. split.
    + apply listOrders_loop_cap; unfold maxAttempts in *; [done|lia|lia].
    + apply listCustomers_loop_cap; unfold maxAttempts in *; [done|lia|lia].
  - intros A api fuel Hn. unfold listInviteesForEvent.
    by rewrite listInviteesForEvent_loop_forever.
  - intros A api fuel Hn. rewrite listScheduledEvents_one_request.
    by destruct (Hn 0%nat (ToPath None)) as (b & tok & -> & _).
Qed.

(** A Calendly API that answers every request with one more invitee and
    the continuation token [t]. *)
Definition endless_invitees : nat -> calendly_request -> answer (CalendlyBody string) :=
  fun _ _ => Page (mkCalendlyBody (Some ["invitee"]) (Some (mkPagination None (Some "t")))).

Lemma pagination_cap_only_in_shopify_fetches_witness :
  listInviteesForEvent endless_invitees 1000 = StillFetching 1000.
Proof.
  refine (proj1 (proj2 pagination_cap_only_in_shopify_fetches) string endless_invitees
            1000%nat _).
  intros n rq. by eexists _, _.
Defined.

(** A Shopify API that answers every request with one more order and a
    Link header naming a next page. *)
Definition endless_orders : nat -> option string -> answer (ShopifyPage string) :=
  fun _ _ => Page (mkShopifyPage (Some ["order"])
                     (Some ("<https://shop.example/orders.json?page_info=x>; " +:+ rel_next))).

Example endless_orders_capped :
  always_next endless_orders
  /\ listOrders endless_orders 60 = Returned (replicate 50 "order") 50 true.
Proof.
  split; [|by vm_compute].
  intros n u. eexists _, _. split_and!; [reflexivity|reflexivity|].
  vm_compute. by eexists.
Qed.

(** ** The webhook receiver *)

Lemma handler_status (hmac : string -> string -> string) (secret : option string)
    (req : Webhook.Request) :
  Webhook.status (Webhook.handleCalendlyWebhook hmac secret req)
  = match Sync.truthy_opt (Webhook.signature_header req) with
    | Some signature =>
        match Webhook.verifyWebhookSignature hmac secret (Webhook.body_json req) signature with
        | Some true => 200
        | Some false => 401
        | None => 500
        end
    | None => 200
    end.
Proof.
  unfold Webhook.handleCalendlyWebhook.
  destruct (Sync.truthy_opt _); [destruct (Webhook.verifyWebhookSignature _ _ _ _) as [[|]|]|];
    try case_bool_decide; done.
Qed.

(** C10: the handler answers 401 exactly when the request carries a
    signature header and [verifyWebhookSignature] returns false for it; a
    request without the header is processed (status 200) without any
    verification, whatever the configured secret; but for a header whose
    length differs from that of the expected signature the comparison throws
    and the handler answers 500, not 401. *)
Theorem invalid_signature_of_other_length_answers_500 :
  (forall hmac secret req,
     Webhook.status (Webhook.handleCalendlyWebhook hmac secret req) = 401
     <-> exists signature,
           Sync.truthy_opt (Webhook.signature_header req) = Some signature
           /\ Webhook.verifyWebhookSignature hmac secret (Webhook.body_json req) signature
              = Some false)
  /\ (forall hmac secret req,
        Sync.truthy_opt (Webhook.signature_header req) = None ->
        let h := Webhook.handleCalendlyWebhook hmac secret req in
        Webhook.verification_ran h = false /\ Webhook.status h = 200
        /\ Webhook.dispatch h <> Webhook.NotReached)
  /\ (forall hmac secret req signature s,
        Sync.truthy_opt (Webhook.signature_header req) = Some signature ->
        Sync.truthy_opt secret = Some s ->
        Webhook.byteLength signature
        <> Webhook.byteLength (hmac s (Webhook.body_json req)) ->
        let h := Webhook.handleCalendlyWebhook hmac secret req in
        Webhook.status h = 500 /\ Webhook.verification_ran h = true).
Proof.
  split_and!.
  - intros hmac secret req. rewrite handler_status. split.
    + destruct (Sync.truthy_opt _) as [sig|]; [|done].
      destruct (Webhook.verifyWebhookSignature _ _ _ _) as [[|]|] eqn:E; try done.
      intros _. by exists sig.
    + by intros (sig & -> & ->).
  - intros hmac secret req H h. subst h. unfold Webhook.handleCalendlyWebhook.
    rewrite H. by case_bool_decide.
  - intros hmac secret req sig s Hsig Hsec Hlen h. subst h.
    unfold Webhook.handleCalendlyWebhook, Webhook.verifyWebhookSignature,
      Webhook.timingSafeEqual.
    rewrite Hsig, Hsec. by rewrite bool_decide_eq_false_2.
Qed.

(** A stand-in for the HMAC: a fixed digest of 44 characters, the length of
    every base64-encoded SHA-256 digest. *)
Definition demo_hmac (secret payload : string) : string :=
  "47DEQpj8HBSa+/TImW+5JCeuQeRkm5NMpJWZG3hSuFU=".

Lemma invalid_signature_of_other_length_answers_500_witness :
  Webhook.status
    (Webhook.handleCalendlyWebhook demo_hmac (Some "s3cret")
       (Webhook.mkRequest (Some "abc") (Some "invitee.created") "{}")) = 500.
Proof.
  refine (proj1 (proj2 (proj2 invalid_signature_of_other_length_answers_500) demo_hmac
                   (Some "s3cret")
                   (Webhook.mkRequest (Some "abc") (Some "invitee.created") "{}")
                   "abc" "s3cret" _ _ _)).
  - reflexivity.
  - reflexivity.
  - vm_compute. lia.
Defined.

(** C9 as stated fails in the webhook receiver: [processNewInvitee] looks
    up and stores, in the in-memory cache, a key made of the email as
    received and the creation date, without the list id; so a delivery
    handled under one list id makes the same delivery a cache hit under
    another. *)
Lemma webhook_cache_key_not_list_scoped :
  let p := Webhook.mkPayload (Some "A@Example.com ") (Some "Ann") (Some "2025-01-02T00:00:00Z") in
  let k := "processed:A@Example.com :2025-01-02T00:00:00Z" in
  let after_L1 := fst (Webhook.processNewInvitee (fun _ _ _ => true) (Some "L1") p ∅) in
  snd (Webhook.processNewInvitee (fun _ _ _ => true) (Some "L1") p ∅)
  = [Webhook.CacheHas k; Webhook.CacheSet k]
  /\ snd (Webhook.processNewInvitee (fun _ _ _ => true) (Some "L2") p after_L1)
     = [Webhook.CacheHas k]
  /\ (forall L e, k <> Sync.cacheKey L e)
  /\ toLowerCase k <> k.
Proof.
  intros p k after_L1. split_and!.
  - by vm_compute.
  - by vm_compute.
  - intros L e. unfold Sync.cacheKey. subst k. discriminate.
  - subst k. vm_compute. discriminate.
Qed.

(* ===================================================================== *)
(** * Further properties of the code *)
(* ===================================================================== *)

(** ** The persistent cache object *)



(** X3: the file is read at most once per object: once loaded, [load] and
    [hasEmail] give the same result whatever the file system holds by then,
    so entries written to the file by someone else are not seen. *)
Theorem file_read_only_once :
  forall disk disk' c l e,
    FileCache.load disk' (FileCache.load disk c) = FileCache.load disk c
    /\ FileCache.hasEmail disk' l e (FileCache.load disk c)
       = FileCache.hasEmail disk l e (FileCache.load disk c).
Proof.
  intros disk disk' c l e.
  pose proof (load_loaded disk c) as Ld.
  split; [by apply load_once|].
  unfold FileCache.hasEmail, FileCache.ensureList.
  by rewrite !(load_once _ (FileCache.load disk c)) by done.
Qed.

(** X4: a lookup does not change what the cache records: after [hasEmail],
    every later [hasEmail] answers as it would have before. *)
Theorem hasEmail_changes_no_answer :
  forall disk l e c l' e',
    fst (FileCache.hasEmail disk l' e' (snd (FileCache.hasEmail disk l e c)))
    = fst (FileCache.hasEmail disk l' e' c).
Proof.
  intros disk l e c l' e'.
  pose proof (hasEmail_spec disk l e c) as H0.
  pose proof (hasEmail_spec disk l' e' (snd (FileCache.hasEmail disk l e c))) as H1.
  pose proof (hasEmail_spec disk l' e' c) as H2.
  destruct (FileCache.hasEmail disk l e c) as [b0 c0]. simpl in *.
  destruct (FileCache.hasEmail disk l' e' c0) as [b1 c1].
  destruct (FileCache.hasEmail disk l' e' c) as [b2 c2].
  destruct H0 as (_ & Ld & _ & R). destruct H1 as (-> & _). destruct H2 as (-> & _).
  simpl. rewrite load_once by done. apply R.
Qed.

(** ** Command-line options *)

Lemma includes_char_app_r (s t : string) (c : ascii) :
  includes_char t c = true -> includes_char (s +:+ t) c = true.
Proof.
  intros H. induction s as [|d s IH]; [done|].
  change (String d s +:+ t) with (String d (s +:+ t)).
  rewrite includes_char_cons, IH. apply orb_true_r.
Qed.

(** X5: [normalizeDate] is idempotent, whatever the kinds: a normalized
    value passes through a second normalization unchanged.  Its result is the
    value itself unless the value has the form YYYY-MM-DD, and then the value
    followed by T23:59:59Z for the kind until and by T00:00:00Z for every
    other kind. *)
Theorem normalizeDate_idempotent :
  forall v kind kind',
    Cli.normalizeDate (Cli.normalizeDate v kind) kind' = Cli.normalizeDate v kind
    /\ Cli.normalizeDate v kind
       = if Cli.matches_ymd v
         then v +:+ (if str_eqb kind "until" then "T23:59:59Z" else "T00:00:00Z")
         else v.
Proof.
  intros v kind kind'.
  destruct (Cli.matches_ymd v) eqn:M.
  - destruct (normalizeDate_ymd v M) as [S U].
    assert (E : Cli.normalizeDate v kind
                = v +:+ (if str_eqb kind "until" then "T23:59:59Z" else "T00:00:00Z")).
    { destruct (str_eqb kind "until") eqn:K.
      - apply str_eqb_eq in K. by subst kind.
      - rewrite <- S. unfold Cli.normalizeDate. by rewrite K. }
    split; [|done]. rewrite E. apply normalizeDate_with_time.
    apply includes_char_app_r. by destruct (str_eqb kind "until").
  - assert (E : Cli.normalizeDate v kind = v).
    { unfold Cli.normalizeDate. rewrite M.
      by destruct (negb (truthy v)), (includes_char v "T"). }
    split; [|done]. rewrite E. unfold Cli.normalizeDate. rewrite M.
    by destruct (negb (truthy v)), (includes_char v "T").
Qed.

Lemma spaced_form_name (sc : Cli.script) (f : string) (upd : string -> Cli.Opts -> Cli.Opts) :
  Cli.spaced_form sc f = Some upd ->
  f ∈ ["--since"; "--until"; "--from"; "--to"; "--list-id"; "--batch-size"; "--throttle-ms";
       "--cache-file"; "--order-status"; "--source"].
Proof.
  unfold Cli.spaced_form. intros H.
  repeat match type of H with
         | context [str_eqb f ?n] =>
             destruct (str_eqb f n) eqn:E;
             [apply str_eqb_eq in E; subst f; apply list_elem_of_In; simpl; tauto|clear E]
         end.
  by destruct sc.
Qed.

Lemma option_name_only_spaced (sc : Cli.script) (f : string)
    (upd : string -> Cli.Opts -> Cli.Opts) (o : Cli.Opts) :
  Cli.spaced_form sc f = Some upd ->
  Cli.eq_forms sc f o = o /\ Cli.bool_flags f o = o.
Proof.
  intros H. apply spaced_form_name in H. apply list_elem_of_In in H. simpl in H.
  destruct_or!; try done; subst f; destruct sc; by vm_compute.
Qed.

(** X6: the argument that follows a value-taking option is always taken as
    its value, also when it is itself an option name (so "--list-id
    --dry-run" stores --dry-run as the list id and the run is no dry run); a
    value-taking option with nothing after it, or followed by an empty
    argument, changes nothing. *)
Theorem option_value_is_next_argument :
  forall sc f upd v rest o,
    Cli.spaced_form sc f = Some upd ->
    (truthy v = true ->
     Cli.parseArgs sc (f :: v :: rest) o = Cli.parseArgs sc rest (upd v o))
    /\ Cli.parseArgs sc [f] o = o
    /\ Cli.parseArgs sc (f :: EmptyString :: rest) o = Cli.parseArgs sc rest o.
Proof.
  intros sc f upd v rest o H.
  destruct (option_name_only_spaced sc f upd o H) as [E B].
  split_and!.
  - intros T. cbn [Cli.parseArgs]. by rewrite H, E, T.
  - cbn [Cli.parseArgs]. by rewrite H, E, B.
  - cbn [Cli.parseArgs]. rewrite H, E, B.
    change (truthy EmptyString) with false. cbv iota.
    assert (Cli.eq_forms sc EmptyString o = o) as -> by by destruct sc.
    assert (Cli.spaced_form sc EmptyString = None) as -> by by destruct sc.
    by assert (Cli.bool_flags EmptyString o = o) as -> by done.
Qed.

Lemma option_value_is_next_argument_witness :
  Cli.parse Cli.Calendly ["--list-id"; "--dry-run"]
  = Cli.set_listId (Some "--dry-run") Cli.defaults.
Proof.
  refine (proj1 (option_value_is_next_argument Cli.Calendly "--list-id"
                   (fun v => Cli.set_listId (Some v)) "--dry-run" [] Cli.defaults _) _);
    reflexivity.
Defined.



(** ** Requests of the Sendy client *)

(** The first [n] of the four ways a request is tried, in the order of the
    source. *)
Definition tried (n : nat) : list transport :=
  take n [PostString; PostParams; GetQuery; HttpsPostString].

(** Case analysis over the replies of the installation and the tests on
    their text. *)
Ltac replies R :=
  repeat first
    [ match goal with
      | |- context [R ?rq] =>
          let r := fresh "r" in let m := fresh "m" in let E := fresh "E" in
          destruct (R rq) as [r|m] eqn:E; simpl
      end
    | match goal with
      | |- context [str_eqb ?a ?b] =>
          let E := fresh "E" in destruct (str_eqb a b) eqn:E; simpl
      end
    | match goal with
      | |- context [bool_decide ?P] =>
          let E := fresh "E" in destruct (bool_decide P) eqn:E; simpl
      end ].

Ltac pick_count :=
  first [exists 1%nat; split; [lia|split; [lia|reflexivity]]
        |exists 2%nat; split; [lia|split; [lia|reflexivity]]
        |exists 3%nat; split; [lia|split; [lia|reflexivity]]
        |exists 4%nat; split; [lia|split; [lia|reflexivity]]].

(** X8: [getSubscriberStatus] sends between one and four requests, in the
    fixed order form-encoded POST, POST with the parameters object, GET,
    POST over https, the last only when the base URL is http (at most three
    otherwise); it sends only the first when that one is answered with
    anything but No data passed; and a request that fails ends the check
    with [success: false] and the message of the error, after the requests
    made so far. *)
Theorem getSubscriberStatus_requests :
  forall R (https : bool) e l,
    (exists n, (1 <= n)%nat /\ (n <= if https then 4 else 3)%nat
               /\ snd (SendyClient.getSubscriberStatus R https e l)
                  = map (fun via => Http (StatusReq via e l)) (tried n))
    /\ (forall r, R (StatusReq PostString e l) = Resolve r ->
          SendyClient.text_of r <> "No data passed" ->
          SendyClient.getSubscriberStatus R https e l
          = (SendyClient.StatusOk (SendyClient.text_of r)
               (SendyClient.normalize (toLowerCase (SendyClient.text_of r))),
             [Http (StatusReq PostString e l)]))
    /\ (forall m, R (StatusReq PostString e l) = Reject m ->
          SendyClient.getSubscriberStatus R https e l
          = (SendyClient.StatusErr m, [Http (StatusReq PostString e l)])).
Proof.
  intros R https e l.
  unfold SendyClient.getSubscriberStatus, SendyClient.status_text, bind, send, ret.
  split_and!.
  - destruct https; replies R; try discriminate; pick_count.
  - intros r Hr Ht. rewrite Hr. simpl.
    assert (str_eqb (SendyClient.text_of r) "No data passed" = false) as N.
    { destruct (str_eqb _ _) eqn:E; [|done]. by apply str_eqb_eq in E. }
    repeat (rewrite N; simpl). done.
  - intros m Hm. by rewrite Hm.
Qed.

(** X9: [subscribe] sends between one and three requests (at most two when
    the base URL is not http), the first a form-encoded POST; it sends only
    that one when the answer is neither empty nor No data passed, and then
    the message is the trimmed answer; the status code it reports is that of
    the first response even when the text comes from a fallback request; a
    request that fails gives [success: false] with the message of the error
    and no status code. *)
Theorem subscribe_requests :
  forall R (https : bool) e nm l,
    (exists n, (1 <= n)%nat /\ (n <= if https then 3 else 2)%nat
               /\ length (snd (SendyClient.subscribe R https e nm l)) = n
               /\ head (snd (SendyClient.subscribe R https e nm l))
                  = Some (Http (SubscribeReq PostString e nm l)))
    /\ (forall r, R (SubscribeReq PostString e nm l) = Resolve r ->
          let text := SendyClient.first_text r in
          (text <> "No data passed" -> text <> EmptyString ->
           SendyClient.subscribe R https e nm l
           = (SendyClient.mkSubscribeResult (SendyClient.isSuccess text) text
                (Some (res_status r)),
              [Http (SubscribeReq PostString e nm l)]))
          /\ (forall res, fst (SendyClient.subscribe R https e nm l) = res ->
                SendyClient.statusCode res = Some (res_status r)
                \/ (SendyClient.statusCode res = None /\ SendyClient.success res = false)))
    /\ (forall m, R (SubscribeReq PostString e nm l) = Reject m ->
          SendyClient.subscribe R https e nm l
          = (SendyClient.mkSubscribeResult false m None,
             [Http (SubscribeReq PostString e nm l)])).
Proof.
  intros R https e nm l.
  unfold SendyClient.subscribe, SendyClient.response_text, SendyClient.attemptFallback_noData,
    SendyClient.attemptFallback_empty, bind, send, ret.
  split_and!.
  - destruct https; replies R; try discriminate;
      first [exists 1%nat; split; [lia|split; [lia|split; reflexivity]]
            |exists 2%nat; split; [lia|split; [lia|split; reflexivity]]
            |exists 3%nat; split; [lia|split; [lia|split; reflexivity]]].
  - intros r Hr. rewrite Hr. simpl. split.
    + intros H1 H2.
      assert (str_eqb (SendyClient.first_text r) "No data passed" = false) as ->.
      { destruct (str_eqb _ _) eqn:E; [|done]. by apply str_eqb_eq in E. }
      assert (bool_decide (String.length (SendyClient.first_text r) = 0%nat) = false) as ->.
      { apply bool_decide_eq_false. by destruct (SendyClient.first_text r). }
      done.
    + intros res <-. destruct https; replies R; try discriminate; auto.
  - intros m Hm. by rewrite Hm.
Qed.

Lemma getSubscriberStatus_requests_witness :
  SendyClient.getSubscriberStatus (demo_remote " Subscribed " "1") false "a@example.com" "L1"
  = (SendyClient.StatusOk "Subscribed" "subscribed",
     [Http (StatusReq PostString "a@example.com" "L1")]).
Proof.
  refine (proj1 (proj2 (getSubscriberStatus_requests (demo_remote " Subscribed " "1") false
                          "a@example.com" "L1"))
            (mkResponse (DStr " Subscribed ") 200) eq_refl _).
  intros H. vm_compute in H. discriminate H.
Defined.

Lemma subscribe_requests_witness :
  SendyClient.subscribe (fun _ => Reject "connect ECONNREFUSED") true "a@example.com" "Ann" "L1"
  = (SendyClient.mkSubscribeResult false "connect ECONNREFUSED" None,
     [Http (SubscribeReq PostString "a@example.com" "Ann" "L1")]).
Proof.
  refine (proj2 (proj2 (subscribe_requests (fun _ => Reject "connect ECONNREFUSED") true
                          "a@example.com" "Ann" "L1")) "connect ECONNREFUSED" eq_refl).
Defined.

(** ** Batches *)

(** X10: the batch size does not change what [bulkSubscribe] does: for
    every batch size of at least one it handles every item once, in the
    order of the queue, and returns one result per item carrying that item's
    email; two runs over the same queue with different batch sizes give the
    same results and the same effects. *)
Theorem batch_size_is_immaterial :
  forall fuel fuel' R https lst items dryRun n n' throttleMs,
    1 <= n -> 1 <= n' -> (length items < fuel)%nat -> (length items < fuel')%nat ->
    let b := SendyClient.bulkSubscribe fuel R https lst items dryRun (Some n) throttleMs in
    b = SendyClient.bulkSubscribe fuel' R https lst items dryRun (Some n') throttleMs
    /\ SendyClient.finished b = true
    /\ map SendyClient.r_email (SendyClient.results b) = map email items
    /\ SendyClient.trace b
       = concat (map (fun it =>
                        if dryRun then []
                        else SubscribeCall (email it) (name it) lst
                             :: snd (SendyClient.subscribe R https (email it) (name it) lst)
                             ++ [Sleep throttleMs]) items).
Proof.
  intros fuel fuel' R https lst items dryRun n n' throttleMs Hn Hn' Hf Hf' b. subst b.
  unfold SendyClient.bulkSubscribe.
  rewrite !(bulk_loop_complete R https lst throttleMs dryRun) by lia.
  simpl. split_and!; [done|done| |done].
  rewrite map_map. apply map_ext. intros it. unfold item_result. by destruct dryRun.
Qed.

Lemma batch_size_is_immaterial_witness :
  SendyClient.bulkSubscribe 3 (demo_remote "Not in list" "1") false "L1"
    [mkCandidate "a@example.com" "Ann" None None; mkCandidate "b@example.com" "Bob" None None]
    false (Some 1) (Some 250)
  = SendyClient.bulkSubscribe 3 (demo_remote "Not in list" "1") false "L1"
      [mkCandidate "a@example.com" "Ann" None None; mkCandidate "b@example.com" "Bob" None None]
      false (Some 20) (Some 250).
Proof.
  refine (proj1 (batch_size_is_immaterial 3%nat 3%nat (demo_remote "Not in list" "1") false "L1"
                   [mkCandidate "a@example.com" "Ann" None None;
                    mkCandidate "b@example.com" "Bob" None None]
                   false 1 20 (Some 250) _ _ _ _)); simpl; lia.
Defined.

Lemma slice_empty {A} (l : list A) (a : num) : slice l a a = [].
Proof. unfold slice. by rewrite Z.sub_diag. Qed.

Lemma bulk_loop_stuck (fuel : nat) (R : remote) (https : bool) (lst : string)
    (items : list Candidate) (dryRun : bool) (throttleMs : num)
    (results : list SendyClient.Result) (tr : list event) :
  items <> [] ->
  SendyClient.bulk_loop fuel R https lst items dryRun (Some 0) throttleMs (Some 0) results tr
  = SendyClient.mkBulk false results tr.
Proof.
  intros H.
  assert (Lt : num_lt (Some 0) (Some (Z.of_nat (length items))) = true).
  { destruct items; [done|]. apply Z.ltb_lt. simpl. lia. }
  induction fuel as [|fuel IH]; cbn [SendyClient.bulk_loop]; rewrite Lt; [done|].
  change (num_add (Some 0) (Some 0)) with (Some 0). rewrite slice_empty.
  cbn [SendyClient.subscribe_batch]. exact IH.
Qed.

(** X11: a batch size that is not a number (what [parseInt] yields for
    "--batch-size abc") makes [bulkSubscribe] return at once with no result
    and no call, whatever the queue holds; a batch size of 0 makes it loop
    over an empty batch for ever when the queue is not empty. *)
Theorem degenerate_batch_size_subscribes_nobody :
  forall R https lst items dryRun throttleMs,
    (forall fuel,
       SendyClient.bulkSubscribe (S fuel) R https lst items dryRun NaN throttleMs
       = SendyClient.mkBulk true [] [])
    /\ (forall fuel, items <> [] ->
          SendyClient.bulkSubscribe fuel R https lst items dryRun (Some 0) throttleMs
          = SendyClient.mkBulk false [] [])
    /\ (forall sc v, truthy v = true -> parseInt v = NaN ->
          Cli.batchSize (Cli.parse sc ["--batch-size"; v]) = NaN).
Proof.
  intros R https lst items dryRun throttleMs. split_and!.
  - intros fuel. unfold SendyClient.bulkSubscribe. cbn [SendyClient.bulk_loop].
    destruct (num_lt _ _); [|done].
    assert (slice items (Some 0) (num_add (Some 0) NaN) = []) as ->.
    { change (num_add (Some 0) NaN) with (@None Z). unfold slice, rel_index.
      destruct (0 <? 0) eqn:E; [by apply Z.ltb_lt in E|].
      rewrite Z.min_l by lia. done. }
    simpl. by destruct fuel.
  - intros fuel H. by apply bulk_loop_stuck.
  - intros sc v T P.
    destruct (option_name_only_spaced sc "--batch-size"
                (fun v => Cli.set_batchSize (parseInt v)) Cli.defaults) as [E _].
    { by destruct sc. }
    unfold Cli.parse. cbn [Cli.parseArgs]. rewrite E, T.
    assert (Cli.spaced_form sc "--batch-size"
            = Some (fun v => Cli.set_batchSize (parseInt v))) as -> by by destruct sc.
    simpl. done.
Qed.

Lemma degenerate_batch_size_subscribes_nobody_witness :
  Cli.batchSize (Cli.parse Cli.Calendly ["--batch-size"; "abc"]) = NaN.
Proof.
  refine (proj2 (proj2 (degenerate_batch_size_subscribes_nobody (demo_remote "Not in list" "1")
                          false "L1" [] false (Some 250))) Cli.Calendly "abc" _ _);
    reflexivity.
Defined.

(** ** Accounting of a run *)

(** The records skipped so far, by the four skip counters. *)
Definition skipped (k : Sync.Counters) : nat :=
  (Sync.cached k + Sync.alreadySubscribed k + Sync.unsubscribed k
   + Sync.bouncedOrComplained k)%nat.

Section Accounting.

Variable R : remote.
Variable https : bool.
Variable disk : gmap string FileCache.file.
Variable opts : Cli.Opts.
Variable L : string.
Variable when : string.

(** One iteration either raises one skip counter or queues the record; the
    two counters of queued records never exceed the queue. *)
Lemma step_accounting (st : Sync.State) (r : Candidate) :
  let st' := Sync.processRecord R https disk opts L when st r in
  (skipped (Sync.counters st') + length (Sync.toSubscribe st')
   = S (skipped (Sync.counters st) + length (Sync.toSubscribe st)))%nat
  /\ (Sync.notInList (Sync.counters st') + Sync.unknownStatus (Sync.counters st')
      + length (Sync.toSubscribe st)
      <= Sync.notInList (Sync.counters st) + Sync.unknownStatus (Sync.counters st)
         + length (Sync.toSubscribe st'))%nat
  /\ FileCache.filePath (Sync.fcache st') = FileCache.filePath (Sync.fcache st).
Proof.
  unfold Sync.processRecord, Sync.route, Sync.file_has, Sync.mem_hit, Sync.mem_set,
    Sync.file_set, skipped.
  pose proof (hasEmail_spec disk L (toLowerCase (email r)) (Sync.fcache st)) as HS.
  destruct (FileCache.hasEmail disk L (toLowerCase (email r)) (Sync.fcache st)) as [hp c].
  destruct HS as (_ & _ & HP & _).
  pose proof (setEmail_spec disk L (toLowerCase (email r)) when c) as (_ & SP & _).
  pose proof (setEmail_spec disk L (toLowerCase (email r)) when (Sync.fcache st)) as (_ & SP' & _).
  destruct (Cli.noPersistentCache opts), (Cli.noCache opts), hp; simpl;
    try destruct (NodeCache.hit (Sync.cacheKey L (email r)) (Sync.mem st));
    destruct (SendyClient.getSubscriberStatus R https (email r) L) as [[? n|?] ?];
    cbn [fst snd];
    repeat match goal with
           | |- context [str_eqb n ?v] => destruct (str_eqb n v)
           end;
    simpl; rewrite ?length_app; simpl; split_and!; try lia; try done; congruence.
Qed.

Lemma loop_accounting (rows : list Candidate) (st : Sync.State) :
  let st' := Sync.processRecords R https disk opts L when rows st in
  (skipped (Sync.counters st') + length (Sync.toSubscribe st')
   = length rows + skipped (Sync.counters st) + length (Sync.toSubscribe st))%nat
  /\ (Sync.notInList (Sync.counters st') + Sync.unknownStatus (Sync.counters st')
      + length (Sync.toSubscribe st)
      <= Sync.notInList (Sync.counters st) + Sync.unknownStatus (Sync.counters st)
         + length (Sync.toSubscribe st'))%nat
  /\ FileCache.filePath (Sync.fcache st') = FileCache.filePath (Sync.fcache st).
Proof.
  revert st. induction rows as [|r rows IH]; intros st; [simpl; split_and!; done || lia|].
  unfold Sync.processRecords in *. cbn [fold_left].
  specialize (IH (Sync.processRecord R https disk opts L when st r)).
  pose proof (step_accounting st r) as S1.
  cbv zeta in *. destruct IH as (A & B & C). destruct S1 as (A1 & B1 & C1).
  split_and!; [simpl; lia|lia|congruence].
Qed.

End Accounting.

Section RunReport.

Variable R : remote.
Variable https : bool.
Variable when : string.
Variable fuel : nat.
Variable sc : Cli.script.
Variable opts : Cli.Opts.
Variable env : Sync.Env.
Variable disk : gmap string FileCache.file.
Variable mem0 : gmap string bool.
Variable rows : list Candidate.
Variable L : string.

Abbreviation st_loop := (loop_state R https when sc opts env disk mem0 rows L).
Abbreviation bulk := (run_bulk R https when fuel sc opts env disk mem0 rows L).
Abbreviation final := (fst (final_state R https when fuel sc opts env disk mem0 rows L)).

Hypothesis HL : Sync.resolveListId sc opts env = Some L.

Lemma filter_success_length (results : list SendyClient.Result) :
  (length (succeeded results)
   + length (filter (fun r => SendyClient.r_success r = false) results)
   = length results)%nat.
Proof.
  induction results as [|res results IH]; [done|].
  rewrite succeeded_cons, filter_cons.
  destruct (SendyClient.r_success res); case_decide; simpl in *; try done; lia.
Qed.

(** A completed run: the report and the file system it leaves. *)
Lemma run_rows_report (report : Sync.Report) (m : gmap string bool) (f : FileCache.t)
    (d : gmap string FileCache.file) (tr : list event) :
  Sync.run_rows R https when fuel sc opts env disk mem0 rows = Sync.Completed report m f d tr ->
  SendyClient.finished bulk = true
  /\ Sync.rep_checked report = length rows
  /\ Sync.rep_attempted report = length (Sync.toSubscribe st_loop)
  /\ Sync.rep_would_subscribe report = length (Sync.toSubscribe st_loop)
  /\ Sync.rep_skipped report = Sync.counters st_loop
  /\ Sync.rep_results report = SendyClient.results bulk
  /\ Sync.rep_subscribed report = length (succeeded (SendyClient.results bulk))
  /\ (Sync.rep_subscribed report + Sync.rep_subscriptionFailures report
      = length (Sync.rep_results report))%nat
  /\ d = (if Cli.noPersistentCache opts then start_disk sc opts env disk mem0 L
          else FileCache.save (start_disk sc opts env disk mem0 L) (Sync.fcache final)).
Proof.
  intros E.
  destruct (SendyClient.finished bulk) eqn:Fin;
    [|by rewrite (run_rows_pending R https when fuel sc opts env disk mem0 rows L HL Fin) in E].
  split; [done|].
  unfold Sync.run_rows in E. rewrite HL in E.
  pose proof (cacheSuccesses_fold (start_disk sc opts env disk mem0 L) opts L when
                (SendyClient.results bulk)
                (Sync.log (SendyClient.trace bulk) st_loop) 0%nat) as CS.
  pose proof (filter_success_length (SendyClient.results bulk)) as FL.
  unfold final_state, Sync.cacheSuccesses in *.
  unfold run_bulk, loop_state, start_state, start_disk in *.
  destruct (Sync.setup opts (Sync.persistentFilePath sc opts env L) disk mem0)
    as [[fc d1] m1]. simpl in *. rewrite Fin in E.
  match type of E with
  | context [fold_left ?f ?l ?a] => destruct (fold_left f l a) as [st2 n2] eqn:E2
  end.
  destruct CS as (N & Q & K & _). simpl in *.
  destruct (Cli.noPersistentCache opts); injection E as <- <- <- <- <-; simpl;
    rewrite ?Q, ?K, ?N; split_and!; try done; lia.
Qed.

End RunReport.

(** X12: in the report of a completed run every checked record is
    accounted for exactly once, as skipped (cached, already subscribed,
    unsubscribed, bounced or complained) or as attempted; the records counted
    as not-in-list or unknown-status are among the attempted ones (the rest
    of the attempted are records whose status check failed); and every
    result is either counted as subscribed or as a subscription failure. *)
Theorem report_accounts_for_every_record :
  forall R https when fuel sc opts env disk mem0 rows report m f d tr,
    Sync.run_rows R https when fuel sc opts env disk mem0 rows = Sync.Completed report m f d tr ->
    let k := Sync.rep_skipped report in
    (Sync.rep_checked report
     = Sync.cached k + Sync.alreadySubscribed k + Sync.unsubscribed k
       + Sync.bouncedOrComplained k + Sync.rep_attempted report)%nat
    /\ (Sync.notInList k + Sync.unknownStatus k <= Sync.rep_attempted report)%nat
    /\ Sync.rep_would_subscribe report = Sync.rep_attempted report
    /\ (Sync.rep_subscribed report + Sync.rep_subscriptionFailures report
        = length (Sync.rep_results report))%nat
    /\ Sync.rep_checked report = length rows.
Proof.
  intros R https when fuel sc opts env disk mem0 rows report m f d tr E k. subst k.
  destruct (Sync.resolveListId sc opts env) as [L|] eqn:HL;
    [|unfold Sync.run_rows in E; by rewrite HL in E].
  destruct (run_rows_report R https when fuel sc opts env disk mem0 rows L HL _ _ _ _ _ E)
    as (_ & C & A & W & K & _ & _ & SF & _).
  rewrite C, A, W, K. unfold loop_state.
  pose proof (loop_accounting R https (start_disk sc opts env disk mem0 L) opts L when rows
                (start_state sc opts env disk mem0 L)) as (Acc & Le & _).
  destruct (start_state_fresh sc opts env disk mem0 L) as [_ Q0].
  assert (K0 : Sync.counters (start_state sc opts env disk mem0 L) = Sync.zero).
  { unfold start_state.
    by destruct (Sync.setup opts (Sync.persistentFilePath sc opts env L) disk mem0) as [[? ?] ?]. }
  rewrite Q0, K0 in *. unfold skipped in Acc. simpl in *.
  split_and!; try done; lia.
Qed.

Lemma report_accounts_for_every_record_witness :
  match Sync.run_calendly (demo_remote "Not in list" "1") false "2025-02-01T00:00:00.000Z" 5
          (fun _ => None) 0 demo_opts demo_env ∅ ∅ [ann] with
  | Sync.Completed report _ _ _ _ =>
      let k := Sync.rep_skipped report in
      (Sync.rep_checked report
       = Sync.cached k + Sync.alreadySubscribed k + Sync.unsubscribed k
         + Sync.bouncedOrComplained k + Sync.rep_attempted report)%nat
  | _ => False
  end.
Proof.
  destruct (Sync.run_calendly (demo_remote "Not in list" "1") false "2025-02-01T00:00:00.000Z" 5
              (fun _ => None) 0 demo_opts demo_env ∅ ∅ [ann])
    as [code|tr|report m f d tr] eqn:E.
  - vm_compute in E. discriminate E.
  - vm_compute in E. discriminate E.
  - exact (proj1 (report_accounts_for_every_record _ _ _ _ _ _ _ _ _ _ _ _ _ _ _ E)).
Defined.

(** ** Running again *)

Section Persist.

Variable disk : gmap string FileCache.file.
Variable opts : Cli.Opts.
Variable L : string.
Variable when : string.

Hypothesis HP : Cli.noPersistentCache opts = false.
Hypothesis Hwhen : truthy when = true.




End Persist.

Section NotChecked.

Variable R : remote.
Variable https : bool.
Variable disk : gmap string FileCache.file.
Variable opts : Cli.Opts.
Variable L : string.
Variable when : string.

Hypothesis HP : Cli.noPersistentCache opts = false.


End NotChecked.




(** ** Order of the rows *)

(** The date a row is sorted by: [new Date(created_at || 0)]. *)
Definition row_date (Date_parse : string -> num) (c : Candidate) : num :=
  Sync.date_or_zero Date_parse (created_at c).

Definition not_later (Date_parse : string -> num) (c1 c2 : Candidate) : Prop :=
  match row_date Date_parse c1, row_date Date_parse c2 with
  | Some x, Some y => x <= y
  | _, _ => False
  end.

(** Every row is not later than all the rows after it. *)
Fixpoint ascending (Date_parse : string -> num) (l : list Candidate) : Prop :=
  match l with
  | [] => True
  | x :: l' => Forall (not_later Date_parse x) l' /\ ascending Date_parse l'
  end.

Section Sorting.

Variable Date_parse : string -> num.

Lemma not_later_trans (a b c : Candidate) :
  not_later Date_parse a b -> not_later Date_parse b c -> not_later Date_parse a c.
Proof.
  unfold not_later.
  destruct (row_date Date_parse a), (row_date Date_parse b), (row_date Date_parse c);
    try done; lia.
Qed.

Lemma insert_ascending (x : Candidate) (l : list Candidate) :
  is_Some (row_date Date_parse x) ->
  Forall (fun c => is_Some (row_date Date_parse c)) l ->
  ascending Date_parse l ->
  ascending Date_parse (Sync.insert_by_date Date_parse x l).
Proof.
  intros [zx Hx] Hv. induction l as [|y l IH]; intros Ha; [by simpl|].
  apply Forall_cons in Hv as [[zy Hy] Hv]. destruct Ha as [Hy_le Ha].
  cbn [Sync.insert_by_date]. fold (row_date Date_parse y). fold (row_date Date_parse x).
  rewrite Hx, Hy. simpl. destruct (zy <? zx) eqn:E.
  - apply Z.ltb_lt in E. split; [|by apply IH].
    rewrite insert_by_date_perm. apply Forall_cons. split; [|done].
    unfold not_later. rewrite Hx, Hy. lia.
  - apply Z.ltb_ge in E.
    assert (Hxy : not_later Date_parse x y) by (unfold not_later; by rewrite Hx, Hy).
    split; [|done]. apply Forall_cons. split; [done|].
    eapply Forall_impl; [exact Hy_le|]. intros c Hc. by eapply not_later_trans.
Qed.

Lemma sort_by_date_ascending (l : list Candidate) :
  Forall (fun c => is_Some (row_date Date_parse c)) l ->
  ascending Date_parse (Sync.sort_by_date Date_parse l).
Proof.
  unfold Sync.sort_by_date. induction 1 as [|x l Hx Hl IH]; [done|]. simpl.
  apply insert_ascending; [done| |done].
  fold (Sync.sort_by_date Date_parse l). by rewrite sort_by_date_perm.
Qed.

Lemma upsert_rows_dated {A} (key : A -> option string) (make : string -> A -> Candidate)
    (date : A -> num) (time : A -> option Z) (src : list A) :
  (forall k a, email (make k a) = k) ->
  (forall a z, time a = Some z -> dated Date_parse make date a z) ->
  (forall a, a ∈ src -> is_Some (time a)) ->
  Forall (fun c => is_Some (row_date Date_parse c))
    (map snd (fold_left (upsert_step Date_parse key make date) src [])).
Proof.
  intros Hm Hd Ht. apply Forall_forall. intros c Hc.
  rewrite <- (sort_by_date_perm Date_parse) in Hc.
  destruct (rows_of_structure Date_parse key make date Hm src) as (_ & E & _).
  destruct (E c Hc) as (a & Ha & _ & ->).
  destruct (Ht a Ha) as [z Hz]. destruct (Hd a z Hz) as [_ Hrow].
  exists z. apply Hrow.
Qed.

End Sorting.

(** X14: when every source record carries a valid creation date, the rows
    of both scripts come out in ascending order of that date, so the oldest
    record is checked (and subscribed) first. *)
Theorem rows_ascend_by_creation_date :
  (forall Date_parse now invitees,
     (forall inv, inv ∈ invitees -> is_Some (invitee_time Date_parse inv)) ->
     ascending Date_parse (Sync.calendly_rows Date_parse now invitees))
  /\ (forall Date_parse orders,
        (forall o, o ∈ orders -> is_Some (order_time Date_parse o)) ->
        ascending Date_parse (Sync.extractEmailsFromOrders Date_parse orders)).
Proof.
  split.
  - intros Date_parse now invitees Ht. rewrite calendly_rows_eq.
    apply sort_by_date_ascending.
    apply (upsert_rows_dated Date_parse invitee_key invitee_row (invitee_date Date_parse now)
             (invitee_time Date_parse)); [done| |done].
    intros a z. apply invitee_dated.
  - intros Date_parse orders Ht. rewrite extract_rows_eq.
    apply sort_by_date_ascending.
    apply (upsert_rows_dated Date_parse order_key order_row (order_date Date_parse)
             (order_time Date_parse)); [done| |done].
    intros a z. apply order_dated.
Qed.

Definition bob : Sync.Invitee :=
  Sync.mkInvitee (Some "b@example.com") "Bob" (Some "2024-12-24T18:00:00Z") (Some "Intro call").

Lemma rows_ascend_by_creation_date_witness :
  ascending iso_utc_ms (Sync.calendly_rows iso_utc_ms 0 [ann_first; bob; ann_second]).
Proof.
  refine (proj1 rows_ascend_by_creation_date iso_utc_ms 0 [ann_first; bob; ann_second] _).
  intros inv Hinv. apply list_elem_of_In in Hinv. simpl in Hinv.
  destruct_or!; try done; subst inv; by eexists.
Defined.

Example rows_order_scenario :
  map email (Sync.calendly_rows iso_utc_ms 0 [ann_first; bob; ann_second])
  = ["b@example.com"; "a@example.com"].
Proof. by vm_compute. Qed.

(** ** Link headers *)

(** [s] does not contain the character [c]. *)
Fixpoint free_of (c : ascii) (s : string) : bool :=
  match s with
  | EmptyString => true
  | String d s' => negb (bool_decide (d = c)) && free_of c s'
  end.

Definition quote : string := String (ascii_of_nat 34) EmptyString.

Lemma split_gt_app (s rest : string) :
  free_of ">" s = true -> split_gt (s +:+ String ">" rest) = Some (s, rest).
Proof.
  induction s as [|d s IH]; intros H; simpl in *.
  - done.
  - apply andb_true_iff in H as [Hd Hs]. apply negb_true_iff in Hd.
    change (String d s +:+ String ">" rest) with (String d (s +:+ String ">" rest)).
    cbn [split_gt]. rewrite Hd, IH by done. done.
Qed.

Lemma parse_skip (p s : string) :
  free_of "<" p = true ->
  _parseNextPageUrl_str (p +:+ s) = _parseNextPageUrl_str s.
Proof.
  induction p as [|d p IH]; intros H; simpl in *; [done|].
  apply andb_true_iff in H as [Hd Hp]. apply negb_true_iff in Hd.
  change (String d p +:+ s) with (String d (p +:+ s)).
  cbn [_parseNextPageUrl_str]. rewrite Hd. by apply IH.
Qed.

Lemma next_link_found (url rest : string) :
  free_of ">" url = true -> url <> EmptyString ->
  _parseNextPageUrl_str (String "<" (url +:+ String ">" ("; " +:+ rel_next +:+ rest)))
  = Some url.
Proof.
  intros H N. cbn [_parseNextPageUrl_str]. rewrite bool_decide_eq_true_2 by done.
  unfold next_link_here. rewrite split_gt_app by done.
  assert (truthy url = true) as -> by by destruct url.
  change ("; " +:+ rel_next +:+ rest) with (String ";" (String " " (rel_next +:+ rest))).
  cbv iota beta.
  assert (startsWith (trimStart (String " " (rel_next +:+ rest))) rel_next = true) as ->; [|done].
  vm_compute. by destruct rest.
Qed.

Lemma previous_link_skipped (prev rest : string) :
  free_of ">" prev = true -> free_of "<" prev = true ->
  _parseNextPageUrl_str
    (String "<" (prev +:+ String ">" ("; rel=" +:+ quote +:+ "previous" +:+ quote +:+ rest)))
  = _parseNextPageUrl_str rest.
Proof.
  intros H1 H2. cbn [_parseNextPageUrl_str]. rewrite bool_decide_eq_true_2 by done.
  unfold next_link_here. rewrite split_gt_app by done.
  change ("; rel=" +:+ quote +:+ "previous" +:+ quote +:+ rest)
    with (String ";" (" rel=" +:+ quote +:+ "previous" +:+ quote +:+ rest)).
  cbv iota beta.
  assert (startsWith (trimStart (" rel=" +:+ quote +:+ "previous" +:+ quote +:+ rest)) rel_next
          = false) as -> by by vm_compute.
  rewrite andb_false_r.
  rewrite (parse_skip prev) by done.
  change (String ">" (String ";" (" rel=" +:+ quote +:+ "previous" +:+ quote +:+ rest)))
    with ((">; rel=" +:+ quote +:+ "previous" +:+ quote) +:+ rest).
  apply parse_skip. by vm_compute.
Qed.

(** X15: [_parseNextPageUrl] returns the URL of the link marked next from a
    Link header, whether that link stands alone or follows a link marked
    previous; a header with only a previous link, an empty header and a
    missing header give null.  (URLs are free of angle brackets.) *)
Theorem next_page_url_of_link_header :
  forall prev url,
    free_of ">" prev = true -> free_of "<" prev = true ->
    free_of ">" url = true -> url <> EmptyString ->
    _parseNextPageUrl (Some ("<" +:+ url +:+ ">; " +:+ rel_next)) = Some url
    /\ _parseNextPageUrl
         (Some ("<" +:+ prev +:+ ">; rel=" +:+ quote +:+ "previous" +:+ quote
                +:+ ", <" +:+ url +:+ ">; " +:+ rel_next)) = Some url
    /\ _parseNextPageUrl (Some ("<" +:+ prev +:+ ">; rel=" +:+ quote +:+ "previous" +:+ quote))
       = None
    /\ _parseNextPageUrl (Some EmptyString) = None
    /\ _parseNextPageUrl None = None.
Proof.
  intros prev url H1 H2 H3 N.
  pose proof (next_link_found url EmptyString H3 N) as F.
  change ("; " +:+ rel_next +:+ EmptyString) with ("; " +:+ rel_next) in F.
  assert (T : forall s, truthy (String "<" s) = true) by done.
  split_and!; try done.
  - change ("<" +:+ prev +:+ ">; rel=" +:+ quote +:+ "previous" +:+ quote
            +:+ ", <" +:+ url +:+ ">; " +:+ rel_next)
      with (String "<" (prev +:+ String ">" ("; rel=" +:+ quote +:+ "previous" +:+ quote
                                   +:+ (", " +:+ String "<" (url +:+ String ">"
                                                               ("; " +:+ rel_next)))))).
    unfold _parseNextPageUrl. cbv beta iota. rewrite T, previous_link_skipped by done.
    by rewrite parse_skip.
  - change ("<" +:+ prev +:+ ">; rel=" +:+ quote +:+ "previous" +:+ quote)
      with (String "<" (prev +:+ String ">" ("; rel=" +:+ quote +:+ "previous" +:+ quote
                                   +:+ EmptyString))).
    unfold _parseNextPageUrl. cbv beta iota. by rewrite T, previous_link_skipped.
Qed.

Lemma next_page_url_of_link_header_witness :
  _parseNextPageUrl
    (Some ("<https://shop.example/orders.json?page_info=a>; rel=" +:+ quote +:+ "previous"
           +:+ quote +:+ ", <https://shop.example/orders.json?page_info=c>; " +:+ rel_next))
  = Some "https://shop.example/orders.json?page_info=c".
Proof.
  refine (proj1 (proj2 (next_page_url_of_link_header
                          "https://shop.example/orders.json?page_info=a"
                          "https://shop.example/orders.json?page_info=c" _ _ _ _)));
    [reflexivity|reflexivity|reflexivity|discriminate].
Defined.

(** ** Fetches that end *)

Section ShopifyWalk.

Context {A : Type}.
Variable api : nat -> option string -> answer (ShopifyPage A).

(** The pages the API serves when the fetch follows the next links, from
    request number [n] and URL [u] on, up to a page without a next link
    ([None]) or a request that fails ([Some message]). *)
Inductive served : nat -> option string -> list (ShopifyPage A) -> option string -> Prop :=
| served_last n u p :
    api n u = Page p -> _parseNextPageUrl (sp_link p) = None ->
    served n u [p] None
| served_error n u m :
    api n u = Error m -> served n u [] (Some m)
| served_next n u p url ps e :
    api n u = Page p -> _parseNextPageUrl (sp_link p) = Some url ->
    served (S n) (Some url) ps e ->
    served n u (p :: ps) e.

(** [data.orders] of a page, nothing when the field is missing. *)
Definition batch_of (p : ShopifyPage A) : list A := default [] (sp_items p).

Lemma listOrders_loop_served (n : nat) (u : option string) (ps : list (ShopifyPage A))
    (e : option string) :
  served n u ps e ->
  forall fuel acc,
    (n + length ps < maxAttempts)%nat -> (length ps < fuel)%nat ->
    listOrders_loop api fuel acc u n
    = match e with
      | None => Returned (acc ++ concat (map batch_of ps)) (n + length ps) false
      | Some m => Thrown m (S (n + length ps))
      end.
Proof.
  induction 1 as [n u p Hp Hl|n u m Hm|n u p url ps e Hp Hl Hs IH]; intros fuel acc Hc Hf;
    (destruct fuel as [|fuel]; [simpl in Hf; lia|]); cbn [listOrders_loop].
  - rewrite Hp, Hl. unfold maxAttempts in *. simpl in Hc.
    rewrite bool_decide_eq_false_2 by lia. simpl.
    replace (n + 1)%nat with (S n) by lia. unfold batch_of. destruct (sp_items p); simpl; by rewrite ?app_nil_r.
  - rewrite Hm. simpl. by rewrite Nat.add_0_r.
  - rewrite Hp, Hl. unfold maxAttempts in *. simpl in Hc, Hf.
    rewrite bool_decide_eq_false_2 by lia.
    rewrite IH by (unfold maxAttempts; lia).
    destruct e; simpl.
    + f_equal. lia.
    + f_equal; [|lia].
      unfold batch_of at 2. destruct (sp_items p); simpl; by rewrite <- ?app_assoc.
Qed.

End ShopifyWalk.

Section CalendlyWalk.

Context {A : Type}.
Variable api : nat -> calendly_request -> answer (CalendlyBody A).

(** The pages of invitees the API serves when the fetch follows the page
    tokens, ending with a page without token ([false]) or with a request that
    fails ([true]). *)
Inductive invitee_pages : nat -> option string -> list (CalendlyBody A) -> bool -> Prop :=
| invitees_last n t b :
    api n (ToPath t) = Page b ->
    Sync.truthy_opt (pagination b ≫= next_page_token) = None ->
    invitee_pages n t [b] false
| invitees_error n t m :
    api n (ToPath t) = Error m -> invitee_pages n t [] true
| invitees_next n t b tok bs failed :
    api n (ToPath t) = Page b ->
    Sync.truthy_opt (pagination b ≫= next_page_token) = Some tok ->
    invitee_pages (S n) (pagination b ≫= next_page_token) bs failed ->
    invitee_pages n t (b :: bs) failed.

Definition collection_of (b : CalendlyBody A) : list A := default [] (collection b).

Lemma listInviteesForEvent_loop_pages (n : nat) (t : option string) (bs : list (CalendlyBody A))
    (failed : bool) :
  invitee_pages n t bs failed ->
  forall fuel acc,
    (length bs < fuel)%nat ->
    listInviteesForEvent_loop api fuel acc t n
    = Returned (acc ++ concat (map collection_of bs))
        (n + length bs + if failed then 1 else 0) failed.
Proof.
  induction 1 as [n t b Hb Ht|n t m Hm|n t b tok bs failed Hb Ht Hs IH]; intros fuel acc Hf;
    (destruct fuel as [|fuel]; [simpl in Hf; lia|]); cbn [listInviteesForEvent_loop].
  - rewrite Hb, Ht. simpl. f_equal; [|lia].
    unfold collection_of. destruct (collection b); simpl; by rewrite ?app_nil_r.
  - rewrite Hm. simpl. rewrite app_nil_r. f_equal. lia.
  - rewrite Hb, Ht. simpl in Hf. rewrite IH by lia. simpl.
    f_equal; [|lia]. unfold collection_of at 2.
    destruct (collection b); simpl; by rewrite <- ?app_assoc.
Qed.

End CalendlyWalk.

(** X16: when the Shopify API serves fewer than 50 pages linked by next
    links, [listOrders] makes one request per page, each to the URL the
    previous page named, and returns the orders of all pages in order without
    a warning; when a request fails the fetch throws and the orders fetched
    so far are not returned. *)
Theorem listOrders_follows_next_links :
  forall A (api : nat -> option string -> answer (ShopifyPage A)) pages failure fuel,
    served api 0 None pages failure ->
    (length pages < 50)%nat -> (length pages < fuel)%nat ->
    listOrders api fuel
    = match failure with
      | None => Returned (concat (map batch_of pages)) (length pages) false
      | Some message => Thrown message (S (length pages))
      end.
Proof.
  intros A api pages failure fuel Hs Hc Hf. unfold listOrders.
  by rewrite (listOrders_loop_served api 0 None pages failure Hs fuel []).
Qed.

(** Two pages of orders, the second one named by the Link header of the
    first. *)
Definition two_pages : nat -> option string -> answer (ShopifyPage string) :=
  fun n url =>
    match n, url with
    | 0%nat, None =>
        Page (mkShopifyPage (Some ["order 1"; "order 2"])
                (Some ("<https://shop.example/orders.json?page_info=b>; " +:+ rel_next)))
    | 1%nat, Some "https://shop.example/orders.json?page_info=b" =>
        Page (mkShopifyPage (Some ["order 3"]) None)
    | _, _ => Error "unexpected request"
    end.

Lemma listOrders_follows_next_links_witness :
  listOrders two_pages 5 = Returned ["order 1"; "order 2"; "order 3"] 2 false.
Proof.
  refine (listOrders_follows_next_links string two_pages
            [mkShopifyPage (Some ["order 1"; "order 2"])
               (Some ("<https://shop.example/orders.json?page_info=b>; " +:+ rel_next));
             mkShopifyPage (Some ["order 3"]) None] None 5%nat _ _ _); [|simpl; lia|simpl; lia].
  eapply served_next; [reflexivity|by vm_compute|].
  apply served_last; reflexivity.
Defined.

(** X17: [listInviteesForEvent] follows the page tokens and returns the
    invitees of all pages in order; when a request fails it does not throw
    but returns, with a warning, the invitees of the pages fetched before. *)
Theorem listInviteesForEvent_keeps_partial_result :
  forall A (api : nat -> calendly_request -> answer (CalendlyBody A)) pages failed fuel,
    invitee_pages api 0 None pages failed ->
    (length pages < fuel)%nat ->
    listInviteesForEvent api fuel
    = Returned (concat (map collection_of pages))
        (length pages + if failed then 1 else 0) failed.
Proof.
  intros A api pages failed fuel Hs Hf. unfold listInviteesForEvent.
  by rewrite (listInviteesForEvent_loop_pages api 0 None pages failed Hs fuel []).
Qed.

(** One page of invitees with a token, then a request that fails. *)
Definition page_then_failure : nat -> calendly_request -> answer (CalendlyBody string) :=
  fun n rq =>
    match n, rq with
    | 0%nat, ToPath None =>
        Page (mkCalendlyBody (Some ["invitee 1"]) (Some (mkPagination None (Some "t2"))))
    | _, _ => Error "Request failed with status code 500"
    end.

Lemma listInviteesForEvent_keeps_partial_result_witness :
  listInviteesForEvent page_then_failure 5 = Returned ["invitee 1"] 2 true.
Proof.
  refine (listInviteesForEvent_keeps_partial_result string page_then_failure
            [mkCalendlyBody (Some ["invitee 1"]) (Some (mkPagination None (Some "t2")))]
            true 5%nat _ _); [|simpl; lia].
  eapply invitees_next; [reflexivity|reflexivity|].
  eapply invitees_error. reflexivity.
Defined.

(** X18: the pagination loop of [listScheduledEvents] ends with its first
    request: when that request is answered, it has collected no event,
    whatever the answer holds (the answer is read as if it were its own
    body), and no warning is logged; when it fails, the error is thrown. *)
Theorem listScheduledEvents_collects_nothing :
  forall A (api : nat -> calendly_request -> answer (CalendlyBody A)) fuel,
    listScheduledEvents_pages api (S fuel)
    = match api 0%nat (ToPath None) with
      | Page _ => Returned [] 1 false
      | Error message => Thrown message 1
      end.
Proof.
  intros A api fuel. unfold listScheduledEvents_pages. simpl.
  by destruct (api 0%nat (ToPath None)).
Qed.

(** ** The webhook receiver, continued *)

Lemma has_set (k k' : string) (v : bool) (c : gmap string bool) :
  NodeCache.has k (NodeCache.set k' v c) = bool_decide (k = k') || NodeCache.has k c.
Proof.
  unfold NodeCache.has, NodeCache.set. destruct (decide (k = k')) as [->|N].
  - rewrite lookup_insert_eq, (bool_decide_eq_true_2 (k' = k')) by done.
    by rewrite bool_decide_eq_true_2 by by eexists.
  - rewrite lookup_insert_ne by done. by rewrite (bool_decide_eq_false_2 (k = k')).
Qed.

(** X19: [processNewInvitee] remembers a delivery exactly when Sendy
    answered the subscription with true, the text true or the text Already
    subscribed. (compared as received); while that entry is in the cache, a
    redelivery of the same invitee (same email and creation date) only looks
    the key up and does not depend on Sendy at all; a delivery that was not
    remembered leaves the cache as it was, so a redelivery tries again. *)
Theorem processNewInvitee_handles_redelivery :
  forall post list e p cache,
    Sync.truthy_opt (Webhook.pl_email p) = Some e ->
    NodeCache.has (Webhook.processedKey e (Webhook.pl_created_at p)) cache = false ->
    let add := fun e n l => SendyService.success (SendyService.addSubscriber post e n l) in
    let key := Webhook.processedKey e (Webhook.pl_created_at p) in
    let cache1 := fst (Webhook.processNewInvitee add list p cache) in
    (NodeCache.has key cache1 = true
     <-> exists d,
           post e (default EmptyString (Sync.truthy_opt (Webhook.pl_name p))) list
           = SendyService.Answered d
           /\ (d = DBool true \/ d = DStr "true" \/ d = DStr "Already subscribed."))
    /\ (NodeCache.has key cache1 = false -> cache1 = cache)
    /\ (NodeCache.has key cache1 = true ->
        forall add' list',
          Webhook.processNewInvitee add' list' p cache1 = (cache1, [Webhook.CacheHas key])).
Proof.
  intros post list e p cache He Hc add key cache1.
  assert (Hadd : add e (Webhook.pl_name p) list = true
                 <-> exists d,
                       post e (default EmptyString (Sync.truthy_opt (Webhook.pl_name p))) list
                       = SendyService.Answered d
                       /\ (d = DBool true \/ d = DStr "true"
                           \/ d = DStr "Already subscribed.")).
  { subst add. unfold SendyService.addSubscriber.
    destruct (post e _ list) as [d| | |]; simpl;
      try (split; [done|by intros (d' & ? & _)]).
    destruct d as [| |[|]|n|s]; simpl;
      try (split; [done|intros (d' & [= <-] & [?|[?|?]]); done]).
    - split; [intros _; eexists; split; [done|by left]|done].
    - destruct (str_eqb s "true") eqn:E1; simpl.
      + apply str_eqb_eq in E1 as ->. split; [intros _; eexists; split; [done|auto]|done].
      + destruct (str_eqb s "Already subscribed.") eqn:E2; simpl.
        * apply str_eqb_eq in E2 as ->. split; [intros _; eexists; split; [done|auto]|done].
        * split; [done|]. intros (d' & [= <-] & [?|[[= ->]|[= ->]]]); done. }
  subst cache1 key. unfold Webhook.processNewInvitee. rewrite He, Hc.
  destruct (add e (Webhook.pl_name p) list) eqn:A; simpl.
  - rewrite has_set, bool_decide_eq_true_2 by done. simpl.
    split_and!; [by rewrite <- Hadd|done|].
    intros _ add' list'. rewrite ?He, ?has_set, ?bool_decide_eq_true_2 by done. done.
  - rewrite Hc. split_and!; [|done|done].
    rewrite <- Hadd. split; done.
Qed.

(** A Sendy installation that accepts every subscription. *)
Definition accepting : string -> string -> option string -> SendyService.posted :=
  fun _ _ _ => SendyService.Answered (DStr "true").

Definition ann_booking : Webhook.Payload :=
  Webhook.mkPayload (Some "a@example.com") (Some "Ann") (Some "2025-01-02T00:00:00Z").

Lemma processNewInvitee_handles_redelivery_witness :
  let first :=
    fst (Webhook.processNewInvitee
           (fun e n l => SendyService.success (SendyService.addSubscriber accepting e n l))
           (Some "L1") ann_booking ∅) in
  Webhook.processNewInvitee (fun _ _ _ => false) None ann_booking first
  = (first, [Webhook.CacheHas "processed:a@example.com:2025-01-02T00:00:00Z"]).
Proof.
  refine (proj2 (proj2 (processNewInvitee_handles_redelivery accepting (Some "L1")
                          "a@example.com" ann_booking ∅ _ _)) _ (fun _ _ _ => false) None);
    reflexivity.
Defined.

(** X20: without a configured secret [verifyWebhookSignature] accepts every
    signature; with a secret it accepts exactly the base64 HMAC of the
    payload, and a request carrying that signature is answered 200 and
    dispatched by its event: invitee.created is processed, every other event
    is ignored. *)
Theorem expected_signature_is_accepted :
  forall hmac secret,
    (Sync.truthy_opt secret = None ->
     forall payload signature,
       Webhook.verifyWebhookSignature hmac secret payload signature = Some true)
    /\ (forall s, Sync.truthy_opt secret = Some s ->
          (forall payload signature,
             Webhook.verifyWebhookSignature hmac secret payload signature = Some true
             <-> signature = hmac s payload)
          /\ (forall req,
                Sync.truthy_opt (Webhook.signature_header req)
                = Some (hmac s (Webhook.body_json req)) ->
                Webhook.handleCalendlyWebhook hmac secret req
                = Webhook.mkHandled 200 true
                    (if bool_decide (Webhook.body_event req = Some "invitee.created")
                     then Webhook.InviteeCreated else Webhook.Ignored))).
Proof.
  intros hmac secret. split.
  - intros H payload signature. unfold Webhook.verifyWebhookSignature. by rewrite H.
  - intros s H.
    assert (V : forall payload signature,
              Webhook.verifyWebhookSignature hmac secret payload signature = Some true
              <-> signature = hmac s payload).
    { intros payload signature.
      unfold Webhook.verifyWebhookSignature, Webhook.timingSafeEqual. rewrite H.
      case_bool_decide as E; split.
      - intros [= Heq]. by apply str_eqb_eq in Heq.
      - intros ->. f_equal. by apply str_eqb_eq.
      - done.
      - intros ->. done. }
    split; [exact V|].
    intros req Hsig. unfold Webhook.handleCalendlyWebhook. rewrite Hsig.
    rewrite (proj2 (V (Webhook.body_json req) (hmac s (Webhook.body_json req))) eq_refl).
    by case_bool_decide.
Qed.

Lemma expected_signature_is_accepted_witness :
  Webhook.handleCalendlyWebhook demo_hmac (Some "s3cret")
    (Webhook.mkRequest (Some "47DEQpj8HBSa+/TImW+5JCeuQeRkm5NMpJWZG3hSuFU=")
       (Some "invitee.canceled") "{}")
  = Webhook.mkHandled 200 true Webhook.Ignored.
Proof.
  refine (proj2 (proj2 (expected_signature_is_accepted demo_hmac (Some "s3cret")) "s3cret" _)
            (Webhook.mkRequest (Some "47DEQpj8HBSa+/TImW+5JCeuQeRkm5NMpJWZG3hSuFU=")
               (Some "invitee.canceled") "{}") _); reflexivity.
Defined.

(** ** Retries *)

Section RetryFacts.

Context {P : Type}.
Variable http : nat -> Retry.attempt P.

(** The failures after which the request is tried again: status 429 and
    status 500 to 599. *)
Definition retried (a : Retry.attempt P) : bool :=
  match a with
  | Retry.Got _ => false
  | Retry.Failed status _ _ =>
      bool_decide (status = Some 429)
      || match status with Some s => (500 <=? s) && (s <? 600) | None => false end
  end.

(** The pause after the failed attempt [i]. *)
Definition pause (i : nat) : Retry.event :=
  match http i with
  | Retry.Failed status retry_after _ =>
      if bool_decide (status = Some 429) then Retry.SleepRetryAfter retry_after
      else Retry.SleepBackoff (1000 * 2 ^ Z.of_nat i)
  | Retry.Got _ => Retry.SleepBackoff (1000 * 2 ^ Z.of_nat i)
  end.

(** How the attempt that ends the call ends it. *)
Definition ending (a : Retry.attempt P) : Retry.outcome P :=
  match a with
  | Retry.Got p => Retry.Response p
  | Retry.Failed _ _ message => Retry.Throws message
  end.

Lemma attempts_spec (n left i : nat) :
  (n < left)%nat ->
  (forall j, (j < n)%nat -> retried (http (i + j)) = true) ->
  retried (http (i + n)) = false \/ left = S n ->
  Retry.attempts http left i
  = (ending (http (i + n)),
     concat (map (fun j => [Retry.Get j; pause j]) (seq i n)) ++ [Retry.Get (i + n)]).
Proof.
  revert left i. induction n as [|n IH]; intros left i Hlt Hre Hend.
  - destruct left as [|left]; [lia|]. rewrite Nat.add_0_r in *. cbn [Retry.attempts].
    unfold retried in Hend. destruct (http i) as [p|st ra m]; [done|]. simpl.
    destruct Hend as [Hend| [= ->]]; [|done].
    apply orb_false_iff in Hend as [-> ->]. by destruct (bool_decide (left = 0%nat)).
  - destruct left as [|left]; [lia|]. cbn [Retry.attempts].
    pose proof (Hre 0%nat ltac:(lia)) as H0. rewrite Nat.add_0_r in H0.
    unfold retried in H0.
    destruct (http i) as [p|st ra m] eqn:Ei; [done|].
    rewrite bool_decide_eq_false_2 by lia.
    rewrite (IH left (S i)); [| lia | |].
    + replace (S i + n)%nat with (i + S n)%nat by lia.
      assert (Hp : pause i = if bool_decide (st = Some 429) then Retry.SleepRetryAfter ra
                             else Retry.SleepBackoff (1000 * 2 ^ Z.of_nat i))
        by (unfold pause; by rewrite Ei).
      cbn [seq map concat]. rewrite Hp.
      destruct (bool_decide (st = Some 429)) eqn:E4; [done|].
      simpl in H0. by rewrite H0.
    + intros j Hj. replace (S i + j)%nat with (i + S j)%nat by lia. apply Hre. lia.
    + replace (S i + n)%nat with (i + S n)%nat by lia.
      destruct Hend as [?|?]; [by left|right; lia].
Qed.

End RetryFacts.

(** X21: [_requestWithRetry] tries again only after status 429 and status
    500 to 599, pausing after a 429 for the time the retry-after header
    gives and after a 5xx for 1000 * 2^i milliseconds (i the number of the
    failed attempt, from 0); the call ends with the first attempt that
    succeeds or fails differently, or with attempt [retries]: it returns that
    response or throws that error.  It never makes more than [retries]
    requests, and with [retries = 0] it makes none and returns undefined. *)
Theorem requestWithRetry_policy :
  forall P (http : nat -> Retry.attempt P) retries,
    Retry._requestWithRetry http 0 = (Retry.Undefined, [])
    /\ forall n,
         (n < retries)%nat ->
         (forall j, (j < n)%nat -> retried (http j) = true) ->
         retried (http n) = false \/ retries = S n ->
         Retry._requestWithRetry http retries
         = (ending (http n),
            concat (map (fun j => [Retry.Get j; pause http j]) (seq 0 n)) ++ [Retry.Get n]).
Proof.
  intros P http retries. split; [done|].
  intros n Hn Hre Hend. unfold Retry._requestWithRetry.
  by rewrite (attempts_spec http n retries 0).
Qed.

(** A server that answers every request with status 503. *)
Definition unavailable : nat -> Retry.attempt string :=
  fun _ => Retry.Failed (Some 503) None "Request failed with status code 503".

Lemma requestWithRetry_policy_witness :
  Retry._requestWithRetry unavailable 3
  = (Retry.Throws "Request failed with status code 503",
     [Retry.Get 0; Retry.SleepBackoff 1000; Retry.Get 1; Retry.SleepBackoff 2000; Retry.Get 2]).
Proof.
  refine (proj2 (requestWithRetry_policy string unavailable 3%nat) 2%nat _ _ _);
    [lia|done|by right].
Defined.

(** ** Records without a creation date, and records that are queued *)

Lemma sort_by_date_singleton (Date_parse : string -> num) (c : Candidate) :
  Sync.sort_by_date Date_parse [c] = [c].
Proof. done. Qed.

(** X22: an invitee without creation date counts as created now when it is
    compared with the record kept so far, but as created at the epoch once it
    is kept: of two invitees with the same email, one dated (after the epoch
    and before now) and one undated, the de-duplication keeps whichever comes
    later in the input. *)
Theorem undated_invitee_last_one_wins :
  forall Date_parse now a b k s z,
    invitee_key a = Some k -> invitee_key b = Some k ->
    Sync.truthy_opt (Sync.inv_created_at a) = Some s -> Date_parse s = Some z ->
    0 < z < now ->
    Sync.truthy_opt (Sync.inv_created_at b) = None ->
    Sync.calendly_rows Date_parse now [a; b] = [invitee_row k b]
    /\ Sync.calendly_rows Date_parse now [b; a] = [invitee_row k a].
Proof.
  intros Date_parse now a b k s z Ka Kb Ha Hz Hnow Hb.
  assert (E : str_eqb k k = true) by by apply str_eqb_eq.
  assert (Ds : Sync.date_or_zero Date_parse (Some s) = Some z).
  { unfold Sync.date_or_zero.
    assert (Sync.truthy_opt (Some s) = Some s) as ->; [|done].
    rewrite <- Ha. apply truthy_opt_idem. }
  split; rewrite calendly_rows_eq; cbn [fold_left]; unfold upsert_step;
    rewrite ?Ka, ?Kb; cbn [Sync.map_get Sync.map_set]; rewrite ?E;
    cbn [Sync.map_get Sync.map_set]; rewrite ?E;
    unfold invitee_date, invitee_row at 1 2; cbn [created_at]; rewrite ?Hb, ?Ha, ?Ds, ?Hz.
  - unfold num_gt, num_lt. rewrite (proj2 (Z.ltb_lt z now)) by lia.
    simpl. unfold invitee_row. by rewrite ?Hb, ?Ha.
  - unfold Sync.date_or_zero. cbn [Sync.truthy_opt]. unfold num_gt, num_lt.
    rewrite (proj2 (Z.ltb_lt 0 z)) by lia.
    simpl. unfold invitee_row. by rewrite ?Hb, ?Ha.
Qed.

Definition ann_undated : Sync.Invitee :=
  Sync.mkInvitee (Some "a@example.com") "Ann (undated)" None (Some "Intro call").

Lemma undated_invitee_last_one_wins_witness :
  Sync.calendly_rows iso_utc_ms 1767225600000 [ann_second; ann_undated]
  = [mkCandidate "a@example.com" "Ann (undated)" None (Some "Intro call")]
  /\ Sync.calendly_rows iso_utc_ms 1767225600000 [ann_undated; ann_second]
     = [mkCandidate "a@example.com" "Ann (second)" (Some "2025-01-02T00:00:00Z")
          (Some "Follow-up")].
Proof.
  refine (undated_invitee_last_one_wins iso_utc_ms 1767225600000 ann_second ann_undated
            "a@example.com" "2025-01-02T00:00:00Z" 1735776000000 _ _ _ _ _ _);
    try reflexivity. lia.
Defined.

(** X23: a record that no cache answers for is queued for subscription
    whenever its status is none of subscribed, unsubscribed, bounced and
    complained: also when the status check itself failed (then no counter is
    raised), and for every unexpected status such as unconfirmed or deleted
    (counted as unknown status).  Queueing a record writes nothing to either
    cache. *)
Theorem every_other_status_is_queued :
  forall R https disk opts L when st r,
    checked disk opts L st r = true ->
    skip_status (status_of R https L (email r)) = false ->
    let st' := Sync.processRecord R https disk opts L when st r in
    Sync.toSubscribe st' = Sync.toSubscribe st ++ [r]
    /\ Sync.mem st' = Sync.mem st
    /\ (forall l e, FileCache.recorded (FileCache.data (Sync.fcache st')) l e
                    = FileCache.recorded
                        (FileCache.data (FileCache.load disk (Sync.fcache st))) l e
                    \/ Cli.noPersistentCache opts = true)
    /\ Sync.counters st'
       = match status_of R https L (email r) with
         | SendyClient.StatusErr _ => Sync.counters st
         | SendyClient.StatusOk _ normalized =>
             if str_eqb normalized "not-in-list"
             then Sync.incr Sync.NotInList (Sync.counters st)
             else Sync.incr Sync.UnknownStatus (Sync.counters st)
         end.
Proof.
  intros R https disk opts L when st r.
  pose proof (hasEmail_spec disk L (toLowerCase (email r)) (Sync.fcache st)) as HS.
  unfold checked, mem_short, file_short, skip_status, reports, status_of,
    Sync.processRecord, Sync.route, Sync.file_has, Sync.mem_hit.
  destruct (FileCache.hasEmail disk L (toLowerCase (email r)) (Sync.fcache st)) as [hp c].
  destruct HS as (_ & _ & _ & Rc).
  destruct (Cli.noPersistentCache opts), (Cli.noCache opts), hp; simpl;
    try destruct (NodeCache.hit (Sync.cacheKey L (email r)) (Sync.mem st)); simpl;
    try (intros; discriminate);
    destruct (SendyClient.getSubscriberStatus R https (email r) L) as [[? n|?] ?];
    cbn [fst snd];
    repeat match goal with
           | |- context [str_eqb n ?v] => destruct (str_eqb n v)
           end;
    simpl; intros Hc Hs; try discriminate; split_and!; auto.
Qed.

(** A Sendy installation whose status endpoint cannot be reached. *)
Definition status_unreachable : remote :=
  fun rq =>
    match rq with
    | StatusReq _ _ _ => Reject "timeout of 15000ms exceeded"
    | SubscribeReq _ _ _ _ => Resolve (mkResponse (DStr "true") 200)
    end.

Lemma every_other_status_is_queued_witness :
  Sync.toSubscribe
    (Sync.processRecord status_unreachable false ∅ demo_opts "L1" "2025-02-01T00:00:00.000Z"
       (Sync.mkState ∅ (FileCache.new "/work/.sendy_cache_L1.json") Sync.zero [] [])
       (mkCandidate "a@example.com" "Ann" None None))
  = [mkCandidate "a@example.com" "Ann" None None].
Proof.
  refine (proj1 (every_other_status_is_queued status_unreachable false ∅ demo_opts "L1"
                   "2025-02-01T00:00:00.000Z"
                   (Sync.mkState ∅ (FileCache.new "/work/.sendy_cache_L1.json") Sync.zero [] [])
                   (mkCandidate "a@example.com" "Ann" None None) _ _)); reflexivity.
Defined.

(** ** The cache file after a run *)



